(** * Dataflow analyzer of the Snowman decompiler

    A shallow embedding of [nc/core/ir/dflow/DataflowAnalyzer.cpp] and the
    properties of its fixpoint driver, term evaluator, memory/definition
    bookkeeper and operator semantics.

    [DataflowAnalyzer.cpp] is the only translation unit at hand.  The
    classes it drives ([MemoryLocation], [AbstractValue], [Value],
    [ReachingDefinitions], [Dataflow]) are declared in headers that are
    not; they are modelled from the written specification, each under a
    comment that says so.  The analyzer itself is translated from the
    source, function by function, with the state it mutates passed
    explicitly. *)

From Stdlib Require Import ZArith Lia Bool List.
From stdpp Require Import base option list gmap.

Local Open Scope Z_scope.

(** ** Machine integers *)

(** Modelled from the spec: the integer typedefs of [nc/common/Types.h] are
    not in the source at hand, and the spec leaves their width open.  They
    are taken as 64-bit words: [ConstantValue] unsigned,
    [SignedConstantValue] and [BitAddr] signed.  [CHAR_BIT] is 8 ("location
    (MEMORY, C*8, size)"). *)
Module Types.

Definition CHAR_BIT : Z := 8.

Definition wordBits : Z := 64.

(** Conversion to the unsigned type [ConstantValue]. *)
Definition toConstantValue (z : Z) : Z := z mod 2 ^ wordBits.

(** Conversion to the signed types [SignedConstantValue] and [BitAddr]. *)
Definition toSigned (z : Z) : Z :=
  (z + 2 ^ (wordBits - 1)) mod 2 ^ wordBits - 2 ^ (wordBits - 1).

Definition toBitAddr (z : Z) : Z := toSigned z.

(** Value of the low [nbits] bits of [z] read as a two's complement
    number ([SizedValue::signedValue]). *)
Definition signedOfSize (nbits z : Z) : Z :=
  if nbits <=? 0 then 0
  else (z + 2 ^ (nbits - 1)) mod 2 ^ nbits - 2 ^ (nbits - 1).

End Types.

(** Modelled from the spec: the helpers of [nc/common/BitTwiddling.h]
    ("a mask of [C.location.size] low bits", "shift left by ...") are not in
    the source at hand.  They work on [ConstantValue] words. *)
Module BitTwiddling.

Definition shiftLeft (value nbits : Z) : Z :=
  if nbits <? Types.wordBits
  then Types.toConstantValue (Z.shiftl value nbits)
  else 0.

Definition shiftRight (value nbits : Z) : Z :=
  if nbits <? Types.wordBits then Z.shiftr value nbits else 0.

(** Positive counts shift left, the others shift right. *)
Definition bitShift (value nbits : Z) : Z :=
  if 0 <? nbits then shiftLeft value nbits else shiftRight value (- nbits).

Definition bitMask (nbits : Z) : Z :=
  Types.toConstantValue (shiftLeft 1 nbits - 1).

End BitTwiddling.

(** ** Memory locations *)

(** Modelled from the spec: "[domain] is one of a small closed set (machine
    memory, stack, register bank, ...)". *)
Inductive MemoryDomain : Type :=
| MEMORY
| STACK
| REGISTERS (bank : nat).

Global Instance MemoryDomain_eq_dec : EqDecision MemoryDomain.
Proof. solve_decision. Defined.

(** Modelled from the spec: [MemoryLocation] is declared in
    [nc/core/ir/MemoryLocation.h], not in the source at hand.  "A triple
    (domain, addr_in_bits, size_in_bits) ... semantically a bit-range;
    [a.covers(b)] iff same domain and [b.addr, b.endAddr) is within
    [a.addr, a.endAddr).  An empty/null location compares unequal to every
    real one." *)
Module MemoryLocation.

Inductive t : Type :=
| Empty
| Make (domain : MemoryDomain) (addr : Z) (size : Z).

Global Instance eq_dec : EqDecision t.
Proof. solve_decision. Defined.

(** [operator bool]: the location is a real one. *)
Definition valid (l : t) : bool :=
  match l with Empty => false | Make _ _ _ => true end.

Definition addr (l : t) : Z :=
  match l with Empty => 0 | Make _ a _ => a end.

Definition size (l : t) : Z :=
  match l with Empty => 0 | Make _ _ s => s end.

Definition endAddr (l : t) : Z := addr l + size l.

Definition covers (a b : t) : bool :=
  match a, b with
  | Make da aa sa, Make db ab sb =>
      bool_decide (da = db) && (aa <=? ab) && (ab + sb <=? aa + sa)
  | _, _ => false
  end.

Definition overlaps (a b : t) : bool :=
  match a, b with
  | Make da aa sa, Make db ab sb =>
      bool_decide (da = db) && (ab <? aa + sa) && (aa <? ab + sb)
  | _, _ => false
  end.

(** Rank of a domain, for the address order of chunks. *)
Definition domainRank (d : MemoryDomain) : Z :=
  match d with
  | MEMORY => 0
  | STACK => 1
  | REGISTERS bank => 2 + Z.of_nat bank
  end.

End MemoryLocation.

(** ** Abstract values *)

(** Modelled from the spec: [AbstractValue] is declared in
    [nc/core/ir/dflow/AbstractValue.h], not in the source at hand.  "A
    fixed-width bit-lattice with operations: [merge] (pointwise join,
    monotonically widening the unknown set), [shift(k)], ..., [resize(w)],
    [project(mask)], and predicates [isConcrete] / [isNondeterministic]."
    The analyzer builds values with [AbstractValue(size, zeroBits, oneBits)]:
    a size and two masks, the bits that can be zero and the bits that can be
    one.  A bit in neither mask carries no information yet (bottom), a bit in
    both is nondeterministic (top). *)
Module AbstractValue.

Record t : Type := Build {
  size : Z;
  zeroBits : Z;
  oneBits : Z
}.

Global Instance eq_dec : EqDecision t.
Proof. solve_decision. Defined.

(** [AbstractValue(size, zeroBits, oneBits)] keeps the low [size] bits. *)
Definition make (size zeroBits oneBits : Z) : t :=
  Build size
        (Z.land (Types.toConstantValue zeroBits) (BitTwiddling.bitMask size))
        (Z.land (Types.toConstantValue oneBits) (BitTwiddling.bitMask size)).

(** [AbstractValue()]. *)
Definition empty : t := Build 0 0 0.

(** Conversion from a [SizedValue(size, value)]. *)
Definition ofSizedValue (size value : Z) : t :=
  make size (Z.lnot value) value.

Definition isConcrete (a : t) : bool :=
  Z.lxor (zeroBits a) (oneBits a) =? BitTwiddling.bitMask (size a).

Definition isNondeterministic (a : t) : bool :=
  negb (Z.land (zeroBits a) (oneBits a) =? 0).

(** [asConcrete().value()] and [asConcrete().signedValue()]. *)
Definition value (a : t) : Z := oneBits a.

Definition signedValue (a : t) : Z := Types.signedOfSize (size a) (oneBits a).

Definition merge (a b : t) : t :=
  Build (Z.max (size a) (size b))
        (Z.lor (zeroBits a) (zeroBits b))
        (Z.lor (oneBits a) (oneBits b)).

Definition shift (nbits : Z) (a : t) : t :=
  Build (size a)
        (BitTwiddling.bitShift (zeroBits a) nbits)
        (BitTwiddling.bitShift (oneBits a) nbits).

Definition project (mask : Z) (a : t) : t :=
  Build (size a) (Z.land (zeroBits a) mask) (Z.land (oneBits a) mask).

Definition resize (newSize : Z) (a : t) : t :=
  Build newSize
        (Z.land (zeroBits a) (BitTwiddling.bitMask newSize))
        (Z.land (oneBits a) (BitTwiddling.bitMask newSize)).

(** The order of the lattice: [a] is below [b] when every bit pattern [a]
    allows is allowed by [b]. *)
Definition le (a b : t) : Prop := merge a b = b.

Definition leb (a b : t) : bool := bool_decide (merge a b = b).

End AbstractValue.

(** ** Values of terms *)

(** Modelled from the spec: [Value] is declared in
    [nc/core/ir/dflow/Value.h], not in the source at hand.  "Holds: the
    current [AbstractValue]; an is-stack-offset tri-state (Yes(k) / No /
    Unknown); an is-product tri-state (Yes / No / Unknown).
    [makeStackOffset(k)] sets Yes(k); [makeNotStackOffset] sets No;
    similarly for product.  Once both predicates are asserted in
    contradictory ways across iterations, No wins (the lattice top).  The
    initial state before the first pass is Unknown for both and a bottom
    [AbstractValue]." *)
Module Value.

Inductive StackOffset : Type :=
| UnknownStackOffset
| IsStackOffset (offset : Z)
| NotStackOffset.

Inductive Product : Type :=
| UnknownProduct
| IsProduct
| NotProduct.

Global Instance StackOffset_eq_dec : EqDecision StackOffset.
Proof. solve_decision. Defined.

Global Instance Product_eq_dec : EqDecision Product.
Proof. solve_decision. Defined.

Record t : Type := Build {
  abstractValue : AbstractValue.t;
  stackOffsetState : StackOffset;
  productState : Product
}.

Global Instance eq_dec : EqDecision t.
Proof. solve_decision. Defined.

(** [Value(size)]: nothing is known yet. *)
Definition make (size : Z) : t :=
  Build (AbstractValue.make size 0 0) UnknownStackOffset UnknownProduct.

Definition setAbstractValue (a : AbstractValue.t) (v : t) : t :=
  Build a (stackOffsetState v) (productState v).

Definition isStackOffset (v : t) : bool :=
  match stackOffsetState v with IsStackOffset _ => true | _ => false end.

Definition isNotStackOffset (v : t) : bool :=
  match stackOffsetState v with NotStackOffset => true | _ => false end.

Definition stackOffset (v : t) : Z :=
  match stackOffsetState v with IsStackOffset k => k | _ => 0 end.

(** No wins: a value that was declared not to be a stack offset stays so. *)
Definition makeStackOffset (offset : Z) (v : t) : t :=
  match stackOffsetState v with
  | NotStackOffset => v
  | _ => Build (abstractValue v) (IsStackOffset offset) (productState v)
  end.

Definition makeNotStackOffset (v : t) : t :=
  Build (abstractValue v) NotStackOffset (productState v).

Definition isProduct (v : t) : bool :=
  match productState v with IsProduct => true | _ => false end.

Definition isNotProduct (v : t) : bool :=
  match productState v with NotProduct => true | _ => false end.

Definition makeProduct (v : t) : t :=
  match productState v with
  | NotProduct => v
  | _ => Build (abstractValue v) (stackOffsetState v) IsProduct
  end.

Definition makeNotProduct (v : t) : t :=
  Build (abstractValue v) (stackOffsetState v) NotProduct.

End Value.

(** ** Terms and statements *)

(** Modelled from the spec: the IR classes ([Term], [Statement],
    [BasicBlock], [Function], [CFG]) are declared outside the source at
    hand.  "Every term carries flags isRead, isWrite, isKill (non-exclusive;
    a single term may be any combination), and a back-pointer to its
    enclosing statement and instruction."  A [const Term *] is modelled by
    the term's header; two pointers are equal when the identifiers are. *)
Module Term.

Record Instruction : Type := MakeInstruction {
  instructionAddr : Z;
  instructionSize : Z
}.

Record Info : Type := MakeInfo {
  id : positive;
  size : Z;
  isRead : bool;
  isWrite : bool;
  isKill : bool;
  instruction : Instruction
}.

Global Instance Instruction_eq_dec : EqDecision Instruction.
Proof. solve_decision. Defined.

Global Instance Info_eq_dec : EqDecision Info.
Proof. solve_decision. Defined.

(** Pointer equality. *)
Definition same (a b : Info) : bool := (id a =? id b)%positive.

Inductive IntrinsicKind : Type :=
| UNKNOWN
| UNDEFINED
| ZERO_STACK_OFFSET
| REACHING_SNAPSHOT
| INSTRUCTION_ADDRESS
| NEXT_INSTRUCTION_ADDRESS
| OTHER_INTRINSIC (kind : Z).

Inductive UnaryKind : Type :=
| NOT
| NEGATION
| SIGN_EXTEND
| ZERO_EXTEND
| TRUNCATE
| OTHER_UNARY (kind : Z).

Inductive BinaryKind : Type :=
| AND | OR | XOR | SHL | SHR | SAR
| ADD | SUB | MUL
| SIGNED_DIV | SIGNED_REM | UNSIGNED_DIV | UNSIGNED_REM
| EQUAL | SIGNED_LESS | SIGNED_LESS_OR_EQUAL
| UNSIGNED_LESS | UNSIGNED_LESS_OR_EQUAL
| OTHER_BINARY (kind : Z).

Inductive t : Type :=
| INT_CONST (info : Info) (value : Z)
| INTRINSIC (info : Info) (intrinsicKind : IntrinsicKind)
| MEMORY_LOCATION_ACCESS (info : Info) (memoryLocation : MemoryLocation.t)
| DEREFERENCE (info : Info) (domain : MemoryDomain) (address : t)
| UNARY_OPERATOR (info : Info) (operatorKind : UnaryKind) (operand : t)
| BINARY_OPERATOR (info : Info) (operatorKind : BinaryKind) (left right : t)
| CHOICE (info : Info) (preferredTerm defaultTerm : t)
| OTHER_TERM (info : Info) (kind : Z).

Definition info (term : t) : Info :=
  match term with
  | INT_CONST i _ | INTRINSIC i _ | MEMORY_LOCATION_ACCESS i _
  | DEREFERENCE i _ _ | UNARY_OPERATOR i _ _ | BINARY_OPERATOR i _ _ _
  | CHOICE i _ _ | OTHER_TERM i _ => i
  end.

(** The identifiers of a term and of the terms below it. *)
Fixpoint ids (term : t) : list positive :=
  match term with
  | INT_CONST i _ | INTRINSIC i _ | MEMORY_LOCATION_ACCESS i _ | OTHER_TERM i _ =>
      [id i]
  | DEREFERENCE i _ address => id i :: ids address
  | UNARY_OPERATOR i _ operand => id i :: ids operand
  | BINARY_OPERATOR i _ l r => id i :: ids l ++ ids r
  | CHOICE i preferred default => id i :: ids preferred ++ ids default
  end.

(** The identifiers of the terms strictly below a term. *)
Definition operandIds (term : t) : list positive := List.tl (ids term).

(** The terms that have a location: accesses and dereferences. *)
Definition accessesMemory (term : t) : bool :=
  match term with
  | MEMORY_LOCATION_ACCESS _ _ | DEREFERENCE _ _ _ => true
  | _ => false
  end.

(** The terms whose abstract value the analyzer merges into the stored one:
    those with a location, and the operators. *)
Definition accumulates (term : t) : bool :=
  match term with
  | MEMORY_LOCATION_ACCESS _ _ | DEREFERENCE _ _ _
  | UNARY_OPERATOR _ _ _ | BINARY_OPERATOR _ _ _ _ => true
  | _ => false
  end.

End Term.

(** ** Reaching definitions *)

(** Modelled from the spec: [ReachingDefinitions] is declared in
    [nc/core/ir/dflow/ReachingDefinitions.h], not in the source at hand.
    "A set of (MemoryLocation, Term) pairs ...  Internal representation
    groups definitions into chunks, one per maximal sub-range of L that
    shares the same set of defining terms, ordered by address."  Each
    operation below carries the sentence it is modelled from. *)
Module ReachingDefinitions.

Record Chunk : Type := MakeChunk {
  location : MemoryLocation.t;
  definitions : list Term.Info
}.

Definition t : Type := list Chunk.

Global Instance Chunk_eq_dec : EqDecision Chunk.
Proof. solve_decision. Defined.

(** "[chunks()] - ordered chunk list; [front()]/[back()] by address." *)
Definition chunks (rd : t) : list Chunk := rd.

Definition empty (rd : t) : bool :=
  match rd with [] => true | _ :: _ => false end.

Definition clear (rd : t) : t := [].

(** [operator==] and [operator!=]. *)
Definition equal (a b : t) : bool := bool_decide (a = b).

(** The pair (L, T) is recorded. *)
Definition contains (rd : t) (l : MemoryLocation.t) (term : Term.Info) : Prop :=
  exists c, In c rd /\ location c = l /\
            exists d, In d (definitions c) /\ Term.same d term = true.

(** Some pair of the set is defined by the term. *)
Definition definedBy (rd : t) (term : Term.Info) : Prop :=
  exists l, contains rd l term.

(** "[filterOut(pred)] - removes pairs where pred(L, T)."  A chunk left
    without defining terms goes away. *)
Definition filterOut (pred : MemoryLocation.t -> Term.Info -> bool) (rd : t) : t :=
  List.filter
    (fun c => match definitions c with [] => false | _ :: _ => true end)
    (List.map
       (fun c => MakeChunk (location c)
                   (List.filter (fun d => negb (pred (location c) d))
                                (definitions c)))
       rd).

(** The part of a chunk's range inside [mloc]. *)
Definition intersect (mloc l : MemoryLocation.t) : MemoryLocation.t :=
  match mloc, l with
  | MemoryLocation.Make d a s, MemoryLocation.Make _ a' s' =>
      let lo := Z.max a a' in
      let hi := Z.min (a + s) (a' + s') in
      MemoryLocation.Make d lo (hi - lo)
  | _, _ => MemoryLocation.Empty
  end.

(** "[project(L, out)] - extracts into [out] exactly the chunks that lie
    within L": the chunks that overlap L, cut to L. *)
Definition project (mloc : MemoryLocation.t) (rd : t) : t :=
  List.flat_map
    (fun c =>
       if MemoryLocation.overlaps mloc (location c)
       then [MakeChunk (intersect mloc (location c)) (definitions c)]
       else [])
    rd.

(** What is left of a chunk once the range [mloc] is killed: the part
    below it and the part above it. *)
Definition killChunk (mloc : MemoryLocation.t) (c : Chunk) : list Chunk :=
  match mloc, location c with
  | MemoryLocation.Make _ a s, MemoryLocation.Make d a' s' =>
      if MemoryLocation.overlaps mloc (location c) then
        (if a' <? a
         then [MakeChunk (MemoryLocation.Make d a' (a - a')) (definitions c)]
         else []) ++
        (if a + s <? a' + s'
         then [MakeChunk (MemoryLocation.Make d (a + s) (a' + s' - (a + s)))
                         (definitions c)]
         else [])
      else [c]
  | _, _ => [c]
  end.

(** "[killDefinitions(L)] - removes all (L', T') with L' within L"; of a
    chunk that only partly overlaps L the rest stays ("partial-overlap
    writes coexist and chunk-split"). *)
Definition killDefinitions (mloc : MemoryLocation.t) (rd : t) : t :=
  List.flat_map (killChunk mloc) rd.

(** The address order of chunks. *)
Definition before (a b : MemoryLocation.t) : bool :=
  match a, b with
  | MemoryLocation.Make da aa _, MemoryLocation.Make db ab _ =>
      (MemoryLocation.domainRank da <? MemoryLocation.domainRank db)
      || ((MemoryLocation.domainRank da =? MemoryLocation.domainRank db)
          && (aa <? ab))
  | MemoryLocation.Empty, MemoryLocation.Make _ _ _ => true
  | _, _ => false
  end.

Fixpoint insertChunk (c : Chunk) (rd : t) : t :=
  match rd with
  | [] => [c]
  | c' :: rest =>
      if before (location c') (location c)
      then c' :: insertChunk c rest
      else c :: rd
  end.

(** "[addDefinition(L, T)] - inserts (L,T), killing any existing (L', T')
    whose L' is wholly covered by L". *)
Definition addDefinition (mloc : MemoryLocation.t) (term : Term.Info) (rd : t) : t :=
  insertChunk (MakeChunk mloc [term]) (killDefinitions mloc rd).

(** Union of two sets of defining terms, kept in the order of identifiers. *)
Fixpoint insertTerm (term : Term.Info) (terms : list Term.Info) : list Term.Info :=
  match terms with
  | [] => [term]
  | d :: rest =>
      if (Term.id term <? Term.id d)%positive then term :: terms
      else if Term.same term d then terms
      else d :: insertTerm term rest
  end.

Definition unionTerms (a b : list Term.Info) : list Term.Info :=
  List.fold_right insertTerm a b.

(** The rest of a chunk above its first [n] bits. *)
Definition chunkRest (n : Z) (c : Chunk) (rest : t) : t :=
  match location c with
  | MemoryLocation.Make d a s =>
      if n <? s
      then MakeChunk (MemoryLocation.Make d (a + n) (s - n)) (definitions c) :: rest
      else rest
  | MemoryLocation.Empty => rest
  end.

(** The first [n] bits of a chunk. *)
Definition chunkHead (n : Z) (c : Chunk) (terms : list Term.Info) : Chunk :=
  match location c with
  | MemoryLocation.Make d a _ => MakeChunk (MemoryLocation.Make d a n) terms
  | MemoryLocation.Empty => MakeChunk MemoryLocation.Empty terms
  end.

(** Both lists are walked in address order; where two chunks overlap they
    are split at each other's bounds and the common part gets the union of
    the defining terms.  Every two steps use up a chunk, hence the fuel. *)
Fixpoint mergeChunks (fuel : nat) (xs ys : t) : t :=
  match fuel with
  | O => xs ++ ys
  | S fuel' =>
      match xs, ys with
      | [], _ => ys
      | _, [] => xs
      | x :: xs', y :: ys' =>
          let a := location x in
          let b := location y in
          if before a b && negb (MemoryLocation.overlaps a b) then
            x :: mergeChunks fuel' xs' ys
          else if before b a && negb (MemoryLocation.overlaps a b) then
            y :: mergeChunks fuel' xs ys'
          else if MemoryLocation.addr a <? MemoryLocation.addr b then
            let n := MemoryLocation.addr b - MemoryLocation.addr a in
            chunkHead n x (definitions x)
              :: mergeChunks fuel' (chunkRest n x xs') ys
          else if MemoryLocation.addr b <? MemoryLocation.addr a then
            let n := MemoryLocation.addr a - MemoryLocation.addr b in
            chunkHead n y (definitions y)
              :: mergeChunks fuel' xs (chunkRest n y ys')
          else
            let n := Z.min (MemoryLocation.size a) (MemoryLocation.size b) in
            chunkHead n x (unionTerms (definitions x) (definitions y))
              :: mergeChunks fuel' (chunkRest n x xs') (chunkRest n y ys')
      end
  end.

(** "[merge(other)] - union of pairs; union of defining terms within
    overlapping chunks." *)
Definition merge (those rd : t) : t :=
  mergeChunks (2 * (length rd + length those) + 1) rd those.

End ReachingDefinitions.

(** ** The dataflow store *)

(** Modelled from the spec: [Dataflow] is declared in
    [nc/core/ir/dflow/Dataflow.h], not in the source at hand.  "Four
    mappings from Term to Value, MemoryLocation, ReachingDefinitions".  A
    term that has no entry yet reads as a fresh [Value] of its size, the
    empty location and the empty set of definitions.  Every term has a
    [Value] of its own: nothing in the source at hand hands the value of the
    right side of an assignment to its left side. *)
Module Dataflow.

Record t : Type := Build {
  term2value : gmap positive Value.t;
  term2location : gmap positive MemoryLocation.t;
  term2definitions : gmap positive ReachingDefinitions.t
}.

Definition initial : t := Build ∅ ∅ ∅.

Definition getValue (term : Term.Info) (df : t) : Value.t :=
  default (Value.make (Term.size term)) (term2value df !! Term.id term).

Definition setValue (term : Term.Info) (v : Value.t) (df : t) : t :=
  Build (<[Term.id term := v]> (term2value df))
        (term2location df) (term2definitions df).

Definition getMemoryLocation (term : Term.Info) (df : t) : MemoryLocation.t :=
  default MemoryLocation.Empty (term2location df !! Term.id term).

Definition setMemoryLocation (term : Term.Info) (l : MemoryLocation.t) (df : t) : t :=
  Build (term2value df)
        (<[Term.id term := l]> (term2location df))
        (term2definitions df).

Definition getDefinitions (term : Term.Info) (df : t) : ReachingDefinitions.t :=
  default [] (term2definitions df !! Term.id term).

Definition setDefinitions (term : Term.Info) (rd : ReachingDefinitions.t) (df : t) : t :=
  Build (term2value df) (term2location df)
        (<[Term.id term := rd]> (term2definitions df)).

End Dataflow.

(** ** The architecture *)

(** Modelled from the spec: "[Architecture]: [byteOrder()] gives
    LittleEndian or BigEndian; [isGlobalMemory(MemoryLocation)] gives a
    bool." *)
Module Architecture.

Inductive ByteOrder : Type := LittleEndian | BigEndian.

Record t : Type := Build {
  byteOrder : ByteOrder;
  isGlobalMemory : MemoryLocation.t -> bool
}.

End Architecture.

(** ** Statements, blocks and functions *)

(** Modelled from the spec: the statement kinds of section 4.2.  A callback
    holds "a stored zero-argument hook" that "may mutate the dataflow
    store"; it is modelled by its effect on the store. *)
Inductive Statement : Type :=
| INLINE_ASSEMBLY
| ASSIGNMENT (left right : Term.t)
| JUMP (condition thenTargetAddress elseTargetAddress : option Term.t)
| CALL (target : Term.t)
| RETURN
| TOUCH (term : Term.t)
| CALLBACK (function : Dataflow.t -> Dataflow.t)
| OTHER_STATEMENT (kind : Z).

Record BasicBlock : Type := MakeBasicBlock {
  blockId : positive;
  statements : list Statement
}.

(** Modelled from the spec: "a function handle exposing [basicBlocks()]
    (ordered)" together with the predecessor query of its [CFG] and, for the
    final cleanup, the terms whose statement belongs to no basic block. *)
Record Function : Type := MakeFunction {
  basicBlocks : list BasicBlock;
  getPredecessors : positive -> list positive;
  disappeared : positive -> bool
}.

(** "[CancellationToken]: [poll()] may raise": the token is modelled by the
    polls that raise, numbered by the iteration they end. *)
Definition CancellationToken : Type := Z -> bool.

(** The one-line warnings of the diagnostic sink. *)
Inductive Warning : Type :=
| UnknownStatementKind (kind : Z)
| UnknownTermKind (kind : Z)
| UnknownIntrinsicKind (kind : Z)
| UnknownUnaryOperatorKind (kind : Z)
| UnknownBinaryOperatorKind (kind : Z)
| FixpointNotReached (niterations : Z).

(** Modelled from the spec: the operators of [AbstractValue] ("all ordinary
    bitwise and arithmetic operators lift from concrete bit patterns to the
    lattice") are declared outside the source at hand; the analyzer is
    parameterised by them. *)
Record AbstractOperators : Type := MakeAbstractOperators {
  opNot : AbstractValue.t -> AbstractValue.t;
  opNegate : AbstractValue.t -> AbstractValue.t;
  opSignExtend : Z -> AbstractValue.t -> AbstractValue.t;
  opZeroExtend : Z -> AbstractValue.t -> AbstractValue.t;
  opAnd : AbstractValue.t -> AbstractValue.t -> AbstractValue.t;
  opOr : AbstractValue.t -> AbstractValue.t -> AbstractValue.t;
  opXor : AbstractValue.t -> AbstractValue.t -> AbstractValue.t;
  opShl : AbstractValue.t -> AbstractValue.t -> AbstractValue.t;
  opShrUnsigned : AbstractValue.t -> AbstractValue.t -> AbstractValue.t;
  opShrSigned : AbstractValue.t -> AbstractValue.t -> AbstractValue.t;
  opAdd : AbstractValue.t -> AbstractValue.t -> AbstractValue.t;
  opSub : AbstractValue.t -> AbstractValue.t -> AbstractValue.t;
  opMul : AbstractValue.t -> AbstractValue.t -> AbstractValue.t;
  opDivSigned : AbstractValue.t -> AbstractValue.t -> AbstractValue.t;
  opRemSigned : AbstractValue.t -> AbstractValue.t -> AbstractValue.t;
  opDivUnsigned : AbstractValue.t -> AbstractValue.t -> AbstractValue.t;
  opRemUnsigned : AbstractValue.t -> AbstractValue.t -> AbstractValue.t;
  opEqual : AbstractValue.t -> AbstractValue.t -> AbstractValue.t;
  opLessSigned : AbstractValue.t -> AbstractValue.t -> AbstractValue.t;
  opLessOrEqualSigned : AbstractValue.t -> AbstractValue.t -> AbstractValue.t;
  opLessUnsigned : AbstractValue.t -> AbstractValue.t -> AbstractValue.t;
  opLessOrEqualUnsigned : AbstractValue.t -> AbstractValue.t -> AbstractValue.t
}.

(** ** The analyzer *)

(** What a call of [execute] works on: the dataflow store of the analyzer,
    the reaching definitions of the [ExecutionContext] and the warnings
    emitted so far (latest first). *)
Record Execution : Type := MakeExecution {
  dataflow : Dataflow.t;
  context : ReachingDefinitions.t;
  warnings : list Warning
}.

Definition withDataflow (f : Dataflow.t -> Dataflow.t) (e : Execution) : Execution :=
  MakeExecution (f (dataflow e)) (context e) (warnings e).

Definition withContext (f : ReachingDefinitions.t -> ReachingDefinitions.t)
    (e : Execution) : Execution :=
  MakeExecution (dataflow e) (f (context e)) (warnings e).

Definition ncWarning (w : Warning) (e : Execution) : Execution :=
  MakeExecution (dataflow e) (context e) (w :: warnings e).

(** [value->f()] on the [Value *] that [dataflow().getValue(term)] returns. *)
Definition updateValue (term : Term.Info) (f : Value.t -> Value.t)
    (df : Dataflow.t) : Dataflow.t :=
  Dataflow.setValue term (f (Dataflow.getValue term df)) df.

Section Analyzer.

Variable architecture : Architecture.t.
Variable operators : AbstractOperators.

(** [DataflowAnalyzer::apply(const UnaryOperator *, const AbstractValue &)];
    the warning of the default case is returned with the value. *)
Definition applyUnary (unary : Term.Info) (operatorKind : Term.UnaryKind)
    (a : AbstractValue.t) : AbstractValue.t * list Warning :=
  match operatorKind with
  | Term.NOT => (opNot operators a, [])
  | Term.NEGATION => (opNegate operators a, [])
  | Term.SIGN_EXTEND => (opSignExtend operators (Term.size unary) a, [])
  | Term.ZERO_EXTEND => (opZeroExtend operators (Term.size unary) a, [])
  | Term.TRUNCATE => (AbstractValue.resize (Term.size unary) a, [])
  | Term.OTHER_UNARY kind =>
      (AbstractValue.empty, [UnknownUnaryOperatorKind kind])
  end.

(** [DataflowAnalyzer::apply(const BinaryOperator *, const AbstractValue &,
    const AbstractValue &)]. *)
Definition applyBinary (operatorKind : Term.BinaryKind)
    (a b : AbstractValue.t) : AbstractValue.t * list Warning :=
  match operatorKind with
  | Term.AND => (opAnd operators a b, [])
  | Term.OR => (opOr operators a b, [])
  | Term.XOR => (opXor operators a b, [])
  | Term.SHL => (opShl operators a b, [])
  | Term.SHR => (opShrUnsigned operators a b, [])
  | Term.SAR => (opShrSigned operators a b, [])
  | Term.ADD => (opAdd operators a b, [])
  | Term.SUB => (opSub operators a b, [])
  | Term.MUL => (opMul operators a b, [])
  | Term.SIGNED_DIV => (opDivSigned operators a b, [])
  | Term.SIGNED_REM => (opRemSigned operators a b, [])
  | Term.UNSIGNED_DIV => (opDivUnsigned operators a b, [])
  | Term.UNSIGNED_REM => (opRemUnsigned operators a b, [])
  | Term.EQUAL => (opEqual operators a b, [])
  | Term.SIGNED_LESS => (opLessSigned operators a b, [])
  | Term.SIGNED_LESS_OR_EQUAL => (opLessOrEqualSigned operators a b, [])
  | Term.UNSIGNED_LESS => (opLessUnsigned operators a b, [])
  | Term.UNSIGNED_LESS_OR_EQUAL => (opLessOrEqualUnsigned operators a b, [])
  | Term.OTHER_BINARY kind =>
      (AbstractValue.empty, [UnknownBinaryOperatorKind kind])
  end.

(** *** mergeReachingValues *)

(** The mask of the bits of the term's value that a chunk covers. *)
Definition chunkMask (termLocation : MemoryLocation.t)
    (chunk : ReachingDefinitions.Chunk) : Z :=
  let mask :=
    BitTwiddling.bitMask (MemoryLocation.size (ReachingDefinitions.location chunk)) in
  match Architecture.byteOrder architecture with
  | Architecture.LittleEndian =>
      BitTwiddling.bitShift mask
        (MemoryLocation.addr (ReachingDefinitions.location chunk)
         - MemoryLocation.addr termLocation)
  | Architecture.BigEndian =>
      BitTwiddling.bitShift mask
        (MemoryLocation.endAddr termLocation
         - MemoryLocation.endAddr (ReachingDefinitions.location chunk))
  end.

(** The body of the inner loop: the definition's abstract value, shifted to
    the term's location and projected to the chunk, is merged into the
    accumulator. *)
Definition mergeDefinitionValue (termLocation : MemoryLocation.t) (mask : Z)
    (df : Dataflow.t) (termAbstractValue : AbstractValue.t)
    (definition : Term.Info) : AbstractValue.t :=
  let definitionLocation := Dataflow.getMemoryLocation definition df in
  let definitionValue := Dataflow.getValue definition df in
  let definitionAbstractValue := Value.abstractValue definitionValue in
  let definitionAbstractValue :=
    match Architecture.byteOrder architecture with
    | Architecture.LittleEndian =>
        AbstractValue.shift
          (MemoryLocation.addr definitionLocation - MemoryLocation.addr termLocation)
          definitionAbstractValue
    | Architecture.BigEndian =>
        AbstractValue.shift
          (MemoryLocation.endAddr termLocation - MemoryLocation.endAddr definitionLocation)
          definitionAbstractValue
    end in
  let definitionAbstractValue := AbstractValue.project mask definitionAbstractValue in
  AbstractValue.merge termAbstractValue definitionAbstractValue.

(** Both loops of "Merge abstract values". *)
Definition mergeAbstractValues (termLocation : MemoryLocation.t)
    (definitions : ReachingDefinitions.t) (df : Dataflow.t)
    (termAbstractValue : AbstractValue.t) : AbstractValue.t :=
  List.fold_left
    (fun acc chunk =>
       List.fold_left
         (mergeDefinitionValue termLocation (chunkMask termLocation chunk) df)
         (ReachingDefinitions.definitions chunk) acc)
    (ReachingDefinitions.chunks definitions) termAbstractValue.

(** The heuristic: only the terms that define the lower bits of the term's
    value pass their flags on. *)
Definition lowerBitsDefinitions (termLocation : MemoryLocation.t)
    (definitions : ReachingDefinitions.t) : option (list Term.Info) :=
  match Architecture.byteOrder architecture with
  | Architecture.LittleEndian =>
      match List.hd_error (ReachingDefinitions.chunks definitions) with
      | Some front =>
          if MemoryLocation.addr (ReachingDefinitions.location front)
             =? MemoryLocation.addr termLocation
          then Some (ReachingDefinitions.definitions front)
          else None
      | None => None
      end
  | Architecture.BigEndian =>
      match List.last (List.map Some (ReachingDefinitions.chunks definitions)) None with
      | Some back =>
          if MemoryLocation.endAddr (ReachingDefinitions.location back)
             =? MemoryLocation.endAddr termLocation
          then Some (ReachingDefinitions.definitions back)
          else None
      | None => None
      end
  end.

(** The body of the flag loop.  [definitionValue] and [termValue] point into
    the store, so every test reads the store as it is then. *)
Definition mergeFlags (term : Term.Info) (df : Dataflow.t)
    (definition : Term.Info) : Dataflow.t :=
  let df :=
    if Value.isNotStackOffset (Dataflow.getValue definition df) then
      updateValue term Value.makeNotStackOffset df
    else if Value.isStackOffset (Dataflow.getValue definition df) then
      updateValue term
        (Value.makeStackOffset (Value.stackOffset (Dataflow.getValue definition df))) df
    else df in
  if Value.isNotProduct (Dataflow.getValue definition df) then
    updateValue term Value.makeNotProduct df
  else if Value.isProduct (Dataflow.getValue definition df) then
    updateValue term Value.makeProduct df
  else df.

Definition mergeReachingValues (term : Term.Info) (termLocation : MemoryLocation.t)
    (definitions : ReachingDefinitions.t) (df : Dataflow.t) : Dataflow.t :=
  if ReachingDefinitions.empty definitions then df
  else
    let termValue := Dataflow.getValue term df in
    let termAbstractValue :=
      mergeAbstractValues termLocation definitions df (Value.abstractValue termValue) in
    let df :=
      updateValue term
        (Value.setAbstractValue (AbstractValue.resize (Term.size term) termAbstractValue))
        df in
    match lowerBitsDefinitions termLocation definitions with
    | Some lower => List.fold_left (mergeFlags term) lower df
    | None => df
    end.

(** *** setMemoryLocation *)

(** "If the term has changed its location, remember the new location."  A
    write that had a location before no longer defines it. *)
Definition rememberLocation (term : Term.Info)
    (oldMemoryLocation newMemoryLocation : MemoryLocation.t)
    (e : Execution) : Execution :=
  if bool_decide (oldMemoryLocation <> newMemoryLocation) then
    let e := withDataflow (Dataflow.setMemoryLocation term newMemoryLocation) e in
    if MemoryLocation.valid oldMemoryLocation && Term.isWrite term then
      withContext
        (ReachingDefinitions.filterOut (fun _ definition => Term.same definition term))
        e
    else e
  else e.

(** "If the term has a memory location and is not a global variable, remember
    or update reaching definitions accordingly." *)
Definition updateDefinitions (term : Term.Info)
    (oldMemoryLocation newMemoryLocation : MemoryLocation.t)
    (e : Execution) : Execution :=
  if MemoryLocation.valid newMemoryLocation
     && negb (Architecture.isGlobalMemory architecture newMemoryLocation) then
    let e :=
      if Term.isRead term then
        let definitions := ReachingDefinitions.project newMemoryLocation (context e) in
        withDataflow
          (fun df =>
             mergeReachingValues term newMemoryLocation definitions
               (Dataflow.setDefinitions term definitions df))
          e
      else e in
    let e :=
      if Term.isWrite term then
        withContext (ReachingDefinitions.addDefinition newMemoryLocation term) e
      else e in
    if Term.isKill term then
      withContext (ReachingDefinitions.killDefinitions newMemoryLocation) e
    else e
  else
    if Term.isRead term && MemoryLocation.valid oldMemoryLocation then
      withDataflow
        (fun df =>
           Dataflow.setDefinitions term
             (ReachingDefinitions.clear (Dataflow.getDefinitions term df)) df)
        e
    else e.

Definition setMemoryLocation (term : Term.Info)
    (newMemoryLocation : MemoryLocation.t) (e : Execution) : Execution :=
  let oldMemoryLocation := Dataflow.getMemoryLocation term (dataflow e) in
  updateDefinitions term oldMemoryLocation newMemoryLocation
    (rememberLocation term oldMemoryLocation newMemoryLocation e).

(** *** Operators *)

(** "Compute stack offset." of [executeBinaryOperator].  The operands of an
    operator are other terms than the operator, so [leftValue] and
    [rightValue] do not change while [value] is updated.  Sums and
    differences of stack offsets are signed; their overflow is undefined in
    the source and they are computed in [Z]. *)
Definition binaryStackOffset (operatorKind : Term.BinaryKind)
    (leftValue rightValue : Value.t) (value : Value.t) : Value.t :=
  match operatorKind with
  | Term.ADD =>
      let value :=
        if Value.isStackOffset leftValue then
          if AbstractValue.isConcrete (Value.abstractValue rightValue) then
            Value.makeStackOffset
              (Value.stackOffset leftValue
               + AbstractValue.signedValue (Value.abstractValue rightValue))
              value
          else if AbstractValue.isNondeterministic (Value.abstractValue rightValue) then
            Value.makeNotStackOffset value
          else value
        else value in
      let value :=
        if Value.isStackOffset rightValue then
          if AbstractValue.isConcrete (Value.abstractValue leftValue) then
            Value.makeStackOffset
              (Value.stackOffset rightValue
               + AbstractValue.signedValue (Value.abstractValue leftValue))
              value
          else if AbstractValue.isNondeterministic (Value.abstractValue leftValue) then
            Value.makeNotStackOffset value
          else value
        else value in
      if Value.isNotStackOffset leftValue && Value.isNotStackOffset rightValue then
        Value.makeNotStackOffset value
      else value
  | Term.SUB =>
      if Value.isStackOffset leftValue
         && AbstractValue.isConcrete (Value.abstractValue rightValue) then
        Value.makeStackOffset
          (Value.stackOffset leftValue
           - AbstractValue.signedValue (Value.abstractValue rightValue))
          value
      else if Value.isNotStackOffset leftValue
              || AbstractValue.isNondeterministic (Value.abstractValue rightValue) then
        Value.makeNotStackOffset value
      else value
  | Term.AND =>
      if Value.isStackOffset leftValue
         && AbstractValue.isConcrete (Value.abstractValue rightValue) then
        Value.makeStackOffset
          (Types.toSigned
             (Z.land (Types.toConstantValue (Value.stackOffset leftValue))
                     (AbstractValue.value (Value.abstractValue rightValue))))
          value
      else if Value.isStackOffset rightValue
              && AbstractValue.isConcrete (Value.abstractValue leftValue) then
        Value.makeStackOffset
          (Types.toSigned
             (Z.land (Types.toConstantValue (Value.stackOffset rightValue))
                     (AbstractValue.value (Value.abstractValue leftValue))))
          value
      else if (AbstractValue.isNondeterministic (Value.abstractValue leftValue)
               && Value.isNotStackOffset leftValue)
              || (AbstractValue.isNondeterministic (Value.abstractValue rightValue)
                  && Value.isNotStackOffset rightValue) then
        Value.makeNotStackOffset value
      else value
  | _ => Value.makeNotStackOffset value
  end.

(** "Compute product flag." *)
Definition binaryProduct (operatorKind : Term.BinaryKind) (value : Value.t) : Value.t :=
  match operatorKind with
  | Term.MUL | Term.SHL => Value.makeProduct value
  | _ => Value.makeNotProduct value
  end.

(** The part of [executeBinaryOperator] that follows the evaluation of the
    operands. *)
Definition transferBinary (binary : Term.Info) (operatorKind : Term.BinaryKind)
    (left right : Term.Info) (e : Execution) : Execution :=
  let leftValue := Dataflow.getValue left (dataflow e) in
  let rightValue := Dataflow.getValue right (dataflow e) in
  let applied :=
    applyBinary operatorKind (Value.abstractValue leftValue)
                (Value.abstractValue rightValue) in
  let e := MakeExecution (dataflow e) (context e) (snd applied ++ warnings e) in
  withDataflow
    (updateValue binary
       (fun value =>
          binaryProduct operatorKind
            (binaryStackOffset operatorKind leftValue rightValue
               (Value.setAbstractValue
                  (AbstractValue.merge (fst applied) (Value.abstractValue value))
                  value))))
    e.

Definition executeBinaryOperator (execute : Term.t -> Execution -> Execution)
    (binary : Term.Info) (operatorKind : Term.BinaryKind) (left right : Term.t)
    (e : Execution) : Execution :=
  let e := execute left e in
  let e := execute right e in
  transferBinary binary operatorKind (Term.info left) (Term.info right) e.

(** The two flags of a unary operator. *)
Definition unaryFlags (operatorKind : Term.UnaryKind) (operandValue : Value.t)
    (value : Value.t) : Value.t :=
  match operatorKind with
  | Term.SIGN_EXTEND | Term.ZERO_EXTEND | Term.TRUNCATE =>
      let value :=
        if Value.isNotStackOffset operandValue then Value.makeNotStackOffset value
        else if Value.isStackOffset operandValue then
          Value.makeStackOffset (Value.stackOffset operandValue) value
        else value in
      if Value.isNotProduct operandValue then Value.makeNotProduct value
      else if Value.isProduct operandValue then Value.makeProduct value
      else value
  | _ => Value.makeNotProduct (Value.makeNotStackOffset value)
  end.

(** The part of [executeUnaryOperator] that follows the evaluation of the
    operand. *)
Definition transferUnary (unary : Term.Info) (operatorKind : Term.UnaryKind)
    (operand : Term.Info) (e : Execution) : Execution :=
  let operandValue := Dataflow.getValue operand (dataflow e) in
  let applied := applyUnary unary operatorKind (Value.abstractValue operandValue) in
  let e := MakeExecution (dataflow e) (context e) (snd applied ++ warnings e) in
  withDataflow
    (updateValue unary
       (fun value =>
          unaryFlags operatorKind operandValue
            (Value.setAbstractValue
               (AbstractValue.merge (fst applied) (Value.abstractValue value))
               value)))
    e.

Definition executeUnaryOperator (execute : Term.t -> Execution -> Execution)
    (unary : Term.Info) (operatorKind : Term.UnaryKind) (operand : Term.t)
    (e : Execution) : Execution :=
  let e := execute operand e in
  transferUnary unary operatorKind (Term.info operand) e.

(** *** execute *)

(** The location a dereference resolves to, from the value of its address.
    [value() * CHAR_BIT] is an unsigned product that the constructor of
    [MemoryLocation] takes as a [BitAddr]. *)
Definition dereferenceLocation (dereference : Term.Info) (domain : MemoryDomain)
    (addressValue : Value.t) : MemoryLocation.t :=
  if AbstractValue.isConcrete (Value.abstractValue addressValue) then
    if bool_decide (domain = MEMORY) then
      MemoryLocation.Make domain
        (Types.toBitAddr
           (Types.toConstantValue
              (AbstractValue.value (Value.abstractValue addressValue) * Types.CHAR_BIT)))
        (Term.size dereference)
    else
      MemoryLocation.Make domain
        (Types.toBitAddr (AbstractValue.value (Value.abstractValue addressValue)))
        (Term.size dereference)
  else if Value.isStackOffset addressValue then
    MemoryLocation.Make STACK
      (Value.stackOffset addressValue * Types.CHAR_BIT)
      (Term.size dereference)
  else MemoryLocation.Empty.

(** The selection of a choice, once both of its terms are evaluated. *)
Definition selectChoice (choice preferredTerm defaultTerm : Term.Info)
    (df : Dataflow.t) : Dataflow.t :=
  if negb (ReachingDefinitions.empty (Dataflow.getDefinitions preferredTerm df)) then
    Dataflow.setValue choice (Dataflow.getValue preferredTerm df) df
  else
    Dataflow.setValue choice (Dataflow.getValue defaultTerm df) df.

(** [DataflowAnalyzer::execute(const Term *, ExecutionContext &)]. *)
Fixpoint execute (term : Term.t) (e : Execution) {struct term} : Execution :=
  match term with
  | Term.INT_CONST constant value =>
      withDataflow
        (updateValue constant
           (fun v =>
              Value.makeNotProduct
                (Value.makeNotStackOffset
                   (Value.setAbstractValue
                      (AbstractValue.ofSizedValue (Term.size constant) value) v))))
        e
  | Term.INTRINSIC intrinsic intrinsicKind =>
      match intrinsicKind with
      | Term.UNKNOWN | Term.UNDEFINED =>
          withDataflow
            (updateValue intrinsic
               (fun v =>
                  Value.makeNotProduct
                    (Value.makeNotStackOffset
                       (Value.setAbstractValue
                          (AbstractValue.make (Term.size intrinsic) (-1) (-1)) v))))
            e
      | Term.ZERO_STACK_OFFSET =>
          withDataflow
            (updateValue intrinsic
               (fun v =>
                  Value.makeNotProduct
                    (Value.makeStackOffset 0
                       (Value.setAbstractValue
                          (AbstractValue.make (Term.size intrinsic) (-1) (-1)) v))))
            e
      | Term.REACHING_SNAPSHOT =>
          withDataflow (Dataflow.setDefinitions intrinsic (context e)) e
      | Term.INSTRUCTION_ADDRESS =>
          let instruction := Term.instruction intrinsic in
          withDataflow
            (updateValue intrinsic
               (fun v =>
                  Value.makeNotProduct
                    (Value.makeNotStackOffset
                       (Value.setAbstractValue
                          (AbstractValue.ofSizedValue (Term.size intrinsic)
                             (Term.instructionAddr instruction))
                          v))))
            e
      | Term.NEXT_INSTRUCTION_ADDRESS =>
          let instruction := Term.instruction intrinsic in
          withDataflow
            (updateValue intrinsic
               (fun v =>
                  Value.makeNotProduct
                    (Value.makeNotStackOffset
                       (Value.setAbstractValue
                          (AbstractValue.ofSizedValue (Term.size intrinsic)
                             (Term.instructionAddr instruction
                              + Term.instructionSize instruction))
                          v))))
            e
      | Term.OTHER_INTRINSIC kind => ncWarning (UnknownIntrinsicKind kind) e
      end
  | Term.MEMORY_LOCATION_ACCESS access memoryLocation =>
      setMemoryLocation access memoryLocation e
  | Term.DEREFERENCE dereference domain address =>
      let e := execute address e in
      let addressValue := Dataflow.getValue (Term.info address) (dataflow e) in
      setMemoryLocation dereference
        (dereferenceLocation dereference domain addressValue) e
  | Term.UNARY_OPERATOR unary operatorKind operand =>
      executeUnaryOperator execute unary operatorKind operand e
  | Term.BINARY_OPERATOR binary operatorKind leftTerm rightTerm =>
      executeBinaryOperator execute binary operatorKind leftTerm rightTerm e
  | Term.CHOICE choice preferredTerm defaultTerm =>
      let e := execute preferredTerm e in
      let e := execute defaultTerm e in
      withDataflow
        (selectChoice choice (Term.info preferredTerm) (Term.info defaultTerm)) e
  | Term.OTHER_TERM _ kind => ncWarning (UnknownTermKind kind) e
  end.

Definition executeOptional (term : option Term.t) (e : Execution) : Execution :=
  match term with
  | Some term => execute term e
  | None => e
  end.

(** [DataflowAnalyzer::execute(const Statement *, ExecutionContext &)]. *)
Definition executeStatement (statement : Statement) (e : Execution) : Execution :=
  match statement with
  | INLINE_ASSEMBLY => e
  | ASSIGNMENT leftTerm rightTerm => execute leftTerm (execute rightTerm e)
  | JUMP condition thenTargetAddress elseTargetAddress =>
      executeOptional elseTargetAddress
        (executeOptional thenTargetAddress (executeOptional condition e))
  | CALL target => execute target e
  | RETURN => e
  | TOUCH term => execute term e
  | CALLBACK function => withDataflow function e
  | OTHER_STATEMENT kind => ncWarning (UnknownStatementKind kind) e
  end.

(** *** analyze *)

(** What the loop of [analyze] works on: the dataflow store, the
    [outDefinitions] of the basic blocks and the warnings emitted so far. *)
Record Analysis : Type := MakeAnalysis {
  store : Dataflow.t;
  outDefinitions : gmap positive ReachingDefinitions.t;
  log : list Warning
}.

(** [outDefinitions[basicBlock]]: a block without an entry has no
    definitions. *)
Definition getOutDefinitions (block : positive)
    (out : gmap positive ReachingDefinitions.t) : ReachingDefinitions.t :=
  default [] (out !! block).

(** "Returns true if the given term does not cover given memory location." *)
Definition notCovered (df : Dataflow.t) (mloc : MemoryLocation.t)
    (term : Term.Info) : bool :=
  negb (MemoryLocation.covers (Dataflow.getMemoryLocation term df) mloc).

(** The context a basic block starts from: the definitions reaching the end
    of its predecessors, without those that do not cover the location they
    define. *)
Definition enterBlock (function : Function) (basicBlock : BasicBlock)
    (a : Analysis) : ReachingDefinitions.t :=
  ReachingDefinitions.filterOut (notCovered (store a))
    (List.fold_left
       (fun definitions predecessor =>
          ReachingDefinitions.merge
            (getOutDefinitions predecessor (outDefinitions a)) definitions)
       (getPredecessors function (blockId basicBlock)) []).

(** The context a basic block ends with. *)
Definition runBlock (function : Function) (basicBlock : BasicBlock)
    (a : Analysis) : Execution :=
  List.fold_left
    (fun e statement => executeStatement statement e)
    (statements basicBlock)
    (MakeExecution (store a) (enterBlock function basicBlock a) (log a)).

(** The body of the loop over the basic blocks; [nfixpoints] is set to zero
    when the definitions reaching the end of the block have changed. *)
Definition analyzeBlock (function : Function) (state : Analysis * Z)
    (basicBlock : BasicBlock) : Analysis * Z :=
  let a := fst state in
  let nfixpoints := snd state in
  let e := runBlock function basicBlock a in
  let definitions := getOutDefinitions (blockId basicBlock) (outDefinitions a) in
  if negb (ReachingDefinitions.equal definitions (context e)) then
    (MakeAnalysis (dataflow e)
       (<[blockId basicBlock := context e]> (outDefinitions a))
       (warnings e),
     0)
  else
    (MakeAnalysis (dataflow e) (outDefinitions a) (warnings e), nfixpoints).

(** "Run abstract interpretation on all basic blocks." *)
Definition analyzeBlocks (function : Function) (a : Analysis) (nfixpoints : Z)
    : Analysis * Z :=
  List.fold_left (analyzeBlock function) (basicBlocks function) (a, nfixpoints).

(** "Some terms might have changed their addresses. Filter again." *)
Definition filterDefinitions (df : Dataflow.t) : Dataflow.t :=
  Dataflow.Build (Dataflow.term2value df) (Dataflow.term2location df)
    (ReachingDefinitions.filterOut (notCovered df) <$> Dataflow.term2definitions df).

(** One turn of the loop up to the test of [niterations]. *)
Definition pass (function : Function) (a : Analysis) (nfixpoints : Z)
    : Analysis * Z :=
  let r := analyzeBlocks function a nfixpoints in
  (MakeAnalysis (filterDefinitions (store (fst r)))
     (outDefinitions (fst r)) (log (fst r)),
   snd r).

(** How the loop was left. *)
Inductive Exit : Type :=
| FixpointReached
| GivenUp
| Canceled.

Record Outcome : Type := MakeOutcome {
  exit : Exit;
  analysis : Analysis;
  niterations : Z;
  nfixpoints : Z
}.

(** [while (nfixpoints++ < 3) { ... }], one turn for each unit of fuel. *)
Fixpoint analyzeLoop (fuel : nat) (function : Function)
    (canceled : CancellationToken) (niterations nfixpoints : Z)
    (a : Analysis) : option Outcome :=
  match fuel with
  | O => None
  | S fuel' =>
      if nfixpoints <? 3 then
        let r := pass function a (nfixpoints + 1) in
        let a := fst r in
        let nfixpoints := snd r in
        let niterations := niterations + 1 in
        if niterations >=? 30 then
          Some (MakeOutcome GivenUp
                  (MakeAnalysis (store a) (outDefinitions a)
                     (FixpointNotReached niterations :: log a))
                  niterations nfixpoints)
        else if canceled niterations then
          Some (MakeOutcome Canceled a niterations nfixpoints)
        else analyzeLoop fuel' function canceled niterations nfixpoints a
      else Some (MakeOutcome FixpointReached a niterations (nfixpoints + 1))
  end.

(** "Remove information about terms that disappeared." *)
Definition removeDisappeared (function : Function) (df : Dataflow.t) : Dataflow.t :=
  let definitions :=
    ReachingDefinitions.filterOut
      (fun _ term => disappeared function (Term.id term))
    <$> Dataflow.term2definitions df in
  Dataflow.Build
    (filter (fun entry => disappeared function (fst entry) = false)
            (Dataflow.term2value df))
    (filter (fun entry => disappeared function (fst entry) = false)
            (Dataflow.term2location df))
    (filter (fun entry => disappeared function (fst entry) = false)
            definitions).

(** [DataflowAnalyzer::analyze].  A poll that raises leaves the function at
    once, without the cleanup. *)
Definition analyze (fuel : nat) (function : Function)
    (canceled : CancellationToken) (df : Dataflow.t) : option Outcome :=
  match analyzeLoop fuel function canceled 0 0 (MakeAnalysis df ∅ []) with
  | None => None
  | Some o =>
      match exit o with
      | Canceled => Some o
      | _ =>
          Some (MakeOutcome (exit o)
                  (MakeAnalysis
                     (removeDisappeared function (store (analysis o)))
                     (outDefinitions (analysis o)) (log (analysis o)))
                  (niterations o) (nfixpoints o))
      end
  end.

(** The state after [n] turns of the loop that neither gave up nor were
    canceled. *)
Definition passes (function : Function) (n : nat) (a : Analysis) : Analysis :=
  Nat.iter n (fun a => fst (pass function a 1)) a.

(** A turn of the loop is stable when it does not reset [nfixpoints]. *)
Definition stable (function : Function) (a : Analysis) : Prop :=
  snd (pass function a 1) = 1.

End Analyzer.

(** * Worked inputs *)

(** Small inputs on which the analyzer is run in the examples below. *)
Module Sample.

(** A little-endian machine without global memory. *)
Definition architecture : Architecture.t :=
  Architecture.Build Architecture.LittleEndian (fun _ => false).

(** A crude instance of the operators: every result is nondeterministic.
    No example depends on it. *)
Definition anyValue (a : AbstractValue.t) : AbstractValue.t :=
  AbstractValue.make (AbstractValue.size a) (-1) (-1).

Definition anyValue2 (a b : AbstractValue.t) : AbstractValue.t :=
  AbstractValue.make (Z.max (AbstractValue.size a) (AbstractValue.size b)) (-1) (-1).

Definition operators : AbstractOperators :=
  MakeAbstractOperators anyValue anyValue (fun _ => anyValue) (fun _ => anyValue)
    anyValue2 anyValue2 anyValue2 anyValue2 anyValue2 anyValue2 anyValue2
    anyValue2 anyValue2 anyValue2 anyValue2 anyValue2 anyValue2 anyValue2
    anyValue2 anyValue2 anyValue2 anyValue2.

Definition instruction : Term.Instruction := Term.MakeInstruction 4096 4.

(** A 32-bit register. *)
Definition register : MemoryLocation.t := MemoryLocation.Make (REGISTERS 0) 0 32.

Definition plain (id : positive) : Term.Info :=
  Term.MakeInfo id 32 false false false instruction.

Definition reader (id : positive) : Term.Info :=
  Term.MakeInfo id 32 true false false instruction.

Definition writer (id : positive) : Term.Info :=
  Term.MakeInfo id 32 false true false instruction.

(** Two writes of the register reach a read of it; the first is known to be
    the stack pointer plus 8, the second is known not to be a stack
    offset. *)
Definition twoWrites : ReachingDefinitions.t :=
  [ReachingDefinitions.MakeChunk register [writer 1; writer 2]].

Definition twoWritesStore : Dataflow.t :=
  Dataflow.setValue (writer 2)
    (Value.Build (AbstractValue.make 32 0 0) Value.NotStackOffset
                 Value.UnknownProduct)
    (Dataflow.setValue (writer 1)
       (Value.Build (AbstractValue.make 32 0 0) (Value.IsStackOffset 8)
                    Value.UnknownProduct)
       Dataflow.initial).

(** Operands of a binary operator (terms 1 and 2; the operator is term 3).
    Both are stack offsets with a concrete abstract value. *)
Definition twoOffsets : Execution :=
  MakeExecution
    (Dataflow.setValue (plain 2)
       (Value.Build (AbstractValue.ofSizedValue 32 2) (Value.IsStackOffset 20)
                    Value.NotProduct)
       (Dataflow.setValue (plain 1)
          (Value.Build (AbstractValue.ofSizedValue 32 1) (Value.IsStackOffset 10)
                       Value.NotProduct)
          Dataflow.initial))
    [] [].

(** The left operand is the stack pointer plus 10, the right operand is the
    constant 2. *)
Definition offsetAndConstant : Execution :=
  MakeExecution
    (Dataflow.setValue (plain 2)
       (Value.Build (AbstractValue.ofSizedValue 32 2) Value.NotStackOffset
                    Value.NotProduct)
       (Dataflow.setValue (plain 1)
          (Value.Build (AbstractValue.make 32 (-1) (-1)) (Value.IsStackOffset 10)
                       Value.NotProduct)
          Dataflow.initial))
    [] [].

(** The same operands, when an earlier evaluation has declared the operator
    not to be a stack offset. *)
Definition offsetAndConstantDisclaimed : Execution :=
  withDataflow
    (Dataflow.setValue (plain 3)
       (Value.Build (AbstractValue.make 32 (-1) (-1)) Value.NotStackOffset
                    Value.NotProduct))
    offsetAndConstant.

(** A function of two blocks.  The first in the order of the function
    touches a choice between a read of the register and the constant 5; the
    second, its predecessor in the control flow, writes the register. *)
Definition registerWrite : Term.t := Term.MEMORY_LOCATION_ACCESS (writer 1) register.

Definition registerRead : Term.t := Term.MEMORY_LOCATION_ACCESS (reader 2) register.

Definition five : Term.t := Term.INT_CONST (plain 3) 5.

Definition choice : Term.t := Term.CHOICE (plain 4) registerRead five.

Definition choiceFunction : Function :=
  MakeFunction
    [MakeBasicBlock 2 [TOUCH choice]; MakeBasicBlock 1 [TOUCH registerWrite]]
    (fun block => if (block =? 2)%positive then [1%positive] else [])
    (fun _ => false).

(** The state [analyze] starts from, on an empty store. *)
Definition start : Analysis := MakeAnalysis Dataflow.initial ∅ [].

Definition afterFirstPass : Analysis :=
  fst (pass architecture operators choiceFunction start 1).

Definition afterSecondPass : Analysis :=
  fst (pass architecture operators choiceFunction afterFirstPass 1).

(** A context in which the two writes of [twoWrites] reach. *)
Definition twoWritesReach : Execution :=
  MakeExecution twoWritesStore twoWrites [].

(** A function of one block that holds a callback; the hook adds one to
    the value it finds at term 1. *)
Definition bump (df : Dataflow.t) : Dataflow.t :=
  updateValue (plain 1)
    (fun v =>
       Value.setAbstractValue
         (AbstractValue.ofSizedValue 32
            (AbstractValue.value (Value.abstractValue v) + 1))
         v)
    df.

Definition callbackFunction : Function :=
  MakeFunction [MakeBasicBlock 1 [CALLBACK bump]] (fun _ => []) (fun _ => false).

(** A token that is never canceled. *)
Definition neverCanceled : CancellationToken := fun _ => false.

(** A term that reads, writes and kills the register. *)
Definition readWriteKill : Term.Info :=
  Term.MakeInfo 5 32 true true true instruction.

End Sample.

(** * Properties *)

(** ** The dataflow store *)

Lemma getValue_setValue (term : Term.Info) (v : Value.t) (df : Dataflow.t) :
  Dataflow.getValue term (Dataflow.setValue term v df) = v.
Proof.
  unfold Dataflow.getValue, Dataflow.setValue; simpl.
  rewrite lookup_insert_eq. reflexivity.
Qed.

Lemma getValue_setValue_other (x term : Term.Info) (v : Value.t) (df : Dataflow.t) :
  Term.id x <> Term.id term ->
  Dataflow.getValue x (Dataflow.setValue term v df) = Dataflow.getValue x df.
Proof.
  intros Hne. unfold Dataflow.getValue, Dataflow.setValue; simpl.
  rewrite lookup_insert_ne by congruence. reflexivity.
Qed.

Lemma getValue_updateValue (term : Term.Info) (f : Value.t -> Value.t)
    (df : Dataflow.t) :
  Dataflow.getValue term (updateValue term f df) = f (Dataflow.getValue term df).
Proof. unfold updateValue. apply getValue_setValue. Qed.

Lemma getValue_updateValue_other (x term : Term.Info) (f : Value.t -> Value.t)
    (df : Dataflow.t) :
  Term.id x <> Term.id term ->
  Dataflow.getValue x (updateValue term f df) = Dataflow.getValue x df.
Proof. unfold updateValue. apply getValue_setValue_other. Qed.

Lemma term2location_updateValue (term : Term.Info) (f : Value.t -> Value.t)
    (df : Dataflow.t) :
  Dataflow.term2location (updateValue term f df) = Dataflow.term2location df.
Proof. reflexivity. Qed.

Lemma term2definitions_updateValue (term : Term.Info) (f : Value.t -> Value.t)
    (df : Dataflow.t) :
  Dataflow.term2definitions (updateValue term f df) = Dataflow.term2definitions df.
Proof. reflexivity. Qed.

Lemma getMemoryLocation_setMemoryLocation (term : Term.Info)
    (l : MemoryLocation.t) (df : Dataflow.t) :
  Dataflow.getMemoryLocation term (Dataflow.setMemoryLocation term l df) = l.
Proof.
  unfold Dataflow.getMemoryLocation, Dataflow.setMemoryLocation; simpl.
  rewrite lookup_insert_eq. reflexivity.
Qed.

Lemma getDefinitions_setDefinitions (term : Term.Info)
    (rd : ReachingDefinitions.t) (df : Dataflow.t) :
  Dataflow.getDefinitions term (Dataflow.setDefinitions term rd df) = rd.
Proof.
  unfold Dataflow.getDefinitions, Dataflow.setDefinitions; simpl.
  rewrite lookup_insert_eq. reflexivity.
Qed.

(** ** mergeReachingValues touches the values only *)

Section Frames.

Variable architecture : Architecture.t.

Lemma mergeFlags_maps (term definition : Term.Info) (df : Dataflow.t) :
  Dataflow.term2location (mergeFlags term df definition) = Dataflow.term2location df
  /\ Dataflow.term2definitions (mergeFlags term df definition)
     = Dataflow.term2definitions df.
Proof.
  unfold mergeFlags.
  repeat match goal with
         | |- context [if ?b then _ else _] => destruct b
         end; split; reflexivity.
Qed.

Lemma mergeFlags_fold_maps (term : Term.Info) (lower : list Term.Info)
    (df : Dataflow.t) :
  Dataflow.term2location (List.fold_left (mergeFlags term) lower df)
  = Dataflow.term2location df
  /\ Dataflow.term2definitions (List.fold_left (mergeFlags term) lower df)
     = Dataflow.term2definitions df.
Proof.
  revert df. induction lower as [|d lower IH]; intros df; simpl.
  - split; reflexivity.
  - destruct (IH (mergeFlags term df d)) as [Hl Hd].
    destruct (mergeFlags_maps term d df) as [Hl' Hd'].
    split; congruence.
Qed.

Lemma mergeReachingValues_maps (term : Term.Info) (termLocation : MemoryLocation.t)
    (definitions : ReachingDefinitions.t) (df : Dataflow.t) :
  Dataflow.term2location
    (mergeReachingValues architecture term termLocation definitions df)
  = Dataflow.term2location df
  /\ Dataflow.term2definitions
       (mergeReachingValues architecture term termLocation definitions df)
     = Dataflow.term2definitions df.
Proof.
  unfold mergeReachingValues.
  destruct (ReachingDefinitions.empty definitions); [split; reflexivity|].
  destruct (lowerBitsDefinitions architecture termLocation definitions) as [lower|].
  - match goal with
    | |- context [List.fold_left _ lower ?df0] =>
        destruct (mergeFlags_fold_maps term lower df0) as [-> ->]
    end.
    split; reflexivity.
  - split; reflexivity.
Qed.

Lemma mergeReachingValues_getMemoryLocation (x term : Term.Info)
    (termLocation : MemoryLocation.t) (definitions : ReachingDefinitions.t)
    (df : Dataflow.t) :
  Dataflow.getMemoryLocation x
    (mergeReachingValues architecture term termLocation definitions df)
  = Dataflow.getMemoryLocation x df.
Proof.
  unfold Dataflow.getMemoryLocation.
  destruct (mergeReachingValues_maps term termLocation definitions df) as [-> _].
  reflexivity.
Qed.

Lemma mergeReachingValues_getDefinitions (x term : Term.Info)
    (termLocation : MemoryLocation.t) (definitions : ReachingDefinitions.t)
    (df : Dataflow.t) :
  Dataflow.getDefinitions x
    (mergeReachingValues architecture term termLocation definitions df)
  = Dataflow.getDefinitions x df.
Proof.
  unfold Dataflow.getDefinitions.
  destruct (mergeReachingValues_maps term termLocation definitions df) as [_ ->].
  reflexivity.
Qed.

(** [updateDefinitions] leaves the locations of all terms alone. *)
Lemma updateDefinitions_getMemoryLocation (x term : Term.Info)
    (oldMemoryLocation newMemoryLocation : MemoryLocation.t) (e : Execution) :
  Dataflow.getMemoryLocation x
    (dataflow (updateDefinitions architecture term oldMemoryLocation
                 newMemoryLocation e))
  = Dataflow.getMemoryLocation x (dataflow e).
Proof.
  unfold updateDefinitions.
  destruct (MemoryLocation.valid newMemoryLocation
            && negb (Architecture.isGlobalMemory architecture newMemoryLocation)).
  - destruct (Term.isRead term), (Term.isWrite term), (Term.isKill term); simpl;
      rewrite ?mergeReachingValues_getMemoryLocation; reflexivity.
  - destruct (Term.isRead term && MemoryLocation.valid oldMemoryLocation);
      reflexivity.
Qed.

(** After [setMemoryLocation] the term is at the new location. *)
Lemma setMemoryLocation_getMemoryLocation (term : Term.Info)
    (newMemoryLocation : MemoryLocation.t) (e : Execution) :
  Dataflow.getMemoryLocation term
    (dataflow (setMemoryLocation architecture term newMemoryLocation e))
  = newMemoryLocation.
Proof.
  unfold setMemoryLocation.
  rewrite updateDefinitions_getMemoryLocation.
  unfold rememberLocation.
  case_bool_decide as Hne.
  - destruct (MemoryLocation.valid _ && Term.isWrite term); simpl;
      apply getMemoryLocation_setMemoryLocation.
  - exact Hne.
Qed.

End Frames.

(** ** Claims on the term evaluator *)

(** C10.  When the set of reaching definitions handed to
    [mergeReachingValues] is empty, the call returns at once: the store is
    the one it was given, and so the abstract value, the stack-offset state
    and the product state of the read term are what they were. *)
Theorem mergeReachingValues_empty_unchanged (architecture : Architecture.t)
    (term : Term.Info) (termLocation : MemoryLocation.t)
    (definitions : ReachingDefinitions.t) (df : Dataflow.t) :
  ReachingDefinitions.empty definitions = true ->
  let df' := mergeReachingValues architecture term termLocation definitions df in
  df' = df
  /\ Value.abstractValue (Dataflow.getValue term df')
     = Value.abstractValue (Dataflow.getValue term df)
  /\ Value.stackOffsetState (Dataflow.getValue term df')
     = Value.stackOffsetState (Dataflow.getValue term df)
  /\ Value.productState (Dataflow.getValue term df')
     = Value.productState (Dataflow.getValue term df).
Proof.
  intros Hempty df'. subst df'. unfold mergeReachingValues.
  rewrite Hempty. repeat split.
Qed.

(** C8.  Once both sub-terms of a choice are evaluated, the value of the
    choice is the value of the preferred term when the preferred term has
    reaching definitions, and the value of the default term otherwise. *)
Theorem choice_takes_selected_value (architecture : Architecture.t)
    (operators : AbstractOperators) (choice : Term.Info)
    (preferredTerm defaultTerm : Term.t) (e : Execution) :
  let evaluated :=
    execute architecture operators defaultTerm
      (execute architecture operators preferredTerm e) in
  let result :=
    execute architecture operators
      (Term.CHOICE choice preferredTerm defaultTerm) e in
  Dataflow.getValue choice (dataflow result)
  = if ReachingDefinitions.empty
         (Dataflow.getDefinitions (Term.info preferredTerm) (dataflow evaluated))
    then Dataflow.getValue (Term.info defaultTerm) (dataflow evaluated)
    else Dataflow.getValue (Term.info preferredTerm) (dataflow evaluated).
Proof.
  intros evaluated result. subst result. simpl. fold evaluated.
  unfold selectChoice.
  destruct (ReachingDefinitions.empty _); simpl; apply getValue_setValue.
Qed.

(** C4.  A dereference is located from the value of its address, once the
    address is evaluated: a concrete address [a] gives
    (domain, a * CHAR_BIT, size) in the domain MEMORY and (domain, a, size) in
    the other domains; otherwise a stack offset [k] gives
    (STACK, k * CHAR_BIT, size); otherwise the location is empty. *)
Theorem dereference_location (architecture : Architecture.t)
    (operators : AbstractOperators) (dereference : Term.Info)
    (domain : MemoryDomain) (address : Term.t) (e : Execution) :
  let addressValue :=
    Dataflow.getValue (Term.info address)
      (dataflow (execute architecture operators address e)) in
  let a := AbstractValue.value (Value.abstractValue addressValue) in
  Dataflow.getMemoryLocation dereference
    (dataflow (execute architecture operators
                 (Term.DEREFERENCE dereference domain address) e))
  = if AbstractValue.isConcrete (Value.abstractValue addressValue) then
      match domain with
      | MEMORY =>
          MemoryLocation.Make MEMORY
            (Types.toBitAddr (Types.toConstantValue (a * Types.CHAR_BIT)))
            (Term.size dereference)
      | _ =>
          MemoryLocation.Make domain (Types.toBitAddr a) (Term.size dereference)
      end
    else if Value.isStackOffset addressValue then
      MemoryLocation.Make STACK
        (Value.stackOffset addressValue * Types.CHAR_BIT)
        (Term.size dereference)
    else MemoryLocation.Empty.
Proof.
  intros addressValue a. simpl.
  rewrite setMemoryLocation_getMemoryLocation.
  fold addressValue. unfold dereferenceLocation. fold a.
  destruct (AbstractValue.isConcrete _); [|reflexivity].
  destruct domain; reflexivity.
Qed.

(** The conversions of the theorem above do nothing to a bit address that
    fits the signed word. *)
Lemma toBitAddr_in_range (z : Z) :
  0 <= z < 2 ^ 63 ->
  Types.toBitAddr (Types.toConstantValue z) = z /\ Types.toBitAddr z = z.
Proof.
  intros Hz. unfold Types.toBitAddr, Types.toSigned, Types.toConstantValue,
    Types.wordBits.
  change (64 - 1) with 63.
  assert (H64 : 2 ^ 64 = 2 * 2 ^ 63) by reflexivity.
  rewrite (Z.mod_small z) by lia.
  rewrite Z.mod_small by lia. lia.
Qed.

(** A dereference of the constant address 4096 in memory is located at bit
    32768. *)
Example dereference_constant_address :
  Dataflow.getMemoryLocation (Sample.reader 2)
    (dataflow
       (execute Sample.architecture Sample.operators
          (Term.DEREFERENCE (Sample.reader 2) MEMORY
             (Term.INT_CONST (Sample.plain 1) 4096))
          (MakeExecution Dataflow.initial [] [])))
  = MemoryLocation.Make MEMORY 32768 32.
Proof. vm_compute. reflexivity. Qed.

(** A dereference of the stack pointer minus 4 is located on the stack at
    bit -32. *)
Example dereference_stack_offset :
  Dataflow.getMemoryLocation (Sample.reader 5)
    (dataflow
       (execute Sample.architecture Sample.operators
          (Term.DEREFERENCE (Sample.reader 5) MEMORY
             (Term.BINARY_OPERATOR (Sample.plain 3) Term.SUB
                (Term.INTRINSIC (Sample.plain 1) Term.ZERO_STACK_OFFSET)
                (Term.INT_CONST (Sample.plain 2) 4)))
          (MakeExecution Dataflow.initial [] [])))
  = MemoryLocation.Make STACK (-32) 32.
Proof. vm_compute. reflexivity. Qed.

(** ** Reaching definitions *)

Lemma filterOut_In (pred : MemoryLocation.t -> Term.Info -> bool)
    (rd : ReachingDefinitions.t) (c : ReachingDefinitions.Chunk) :
  In c (ReachingDefinitions.filterOut pred rd) ->
  exists c0, In c0 rd
    /\ ReachingDefinitions.location c = ReachingDefinitions.location c0
    /\ ReachingDefinitions.definitions c
       = List.filter (fun d => negb (pred (ReachingDefinitions.location c0) d))
                     (ReachingDefinitions.definitions c0).
Proof.
  unfold ReachingDefinitions.filterOut. intros Hin.
  apply List.filter_In in Hin. destruct Hin as [Hin _].
  apply List.in_map_iff in Hin. destruct Hin as [c0 [Heq Hin0]].
  exists c0. subst c. simpl. auto.
Qed.

(** After [filterOut] no pair that satisfies the predicate is left. *)
Lemma filterOut_same_not_definedBy (term : Term.Info) (rd : ReachingDefinitions.t) :
  ~ ReachingDefinitions.definedBy
      (ReachingDefinitions.filterOut
         (fun _ definition => Term.same definition term) rd)
      term.
Proof.
  intros [l [c [Hin [_ [d [Hd Hsame]]]]]].
  apply filterOut_In in Hin. destruct Hin as [c0 [_ [_ Hdefs]]].
  rewrite Hdefs in Hd. apply List.filter_In in Hd. destruct Hd as [_ Hneg].
  rewrite Hsame in Hneg. discriminate.
Qed.

Lemma killChunk_In (mloc : MemoryLocation.t) (c0 c : ReachingDefinitions.Chunk) :
  In c (ReachingDefinitions.killChunk mloc c0) ->
  ReachingDefinitions.definitions c = ReachingDefinitions.definitions c0
  /\ MemoryLocation.overlaps mloc (ReachingDefinitions.location c) = false.
Proof.
  unfold ReachingDefinitions.killChunk.
  destruct mloc as [|dm a s].
  { simpl. intros [<-|[]]. split; reflexivity. }
  destruct (ReachingDefinitions.location c0) as [|d a' s'] eqn:Hloc.
  { simpl. intros [<-|[]]. rewrite Hloc. split; reflexivity. }
  destruct (MemoryLocation.overlaps (MemoryLocation.Make dm a s)
              (MemoryLocation.Make d a' s')) eqn:Hov.
  - intros Hin. apply List.in_app_or in Hin. destruct Hin as [Hin|Hin].
    + destruct (a' <? a) eqn:Hlt; [|destruct Hin].
      destruct Hin as [<-|[]]. simpl. split; [reflexivity|].
      apply andb_false_iff. right. apply Z.ltb_ge. lia.
    + destruct (a + s <? a' + s') eqn:Hlt; [|destruct Hin].
      destruct Hin as [<-|[]]. simpl. split; [reflexivity|].
      apply andb_false_iff. left. apply andb_false_iff. right.
      apply Z.ltb_ge. lia.
  - intros [<-|[]]. rewrite Hloc. split; [reflexivity|exact Hov].
Qed.

Lemma killDefinitions_In (mloc : MemoryLocation.t) (rd : ReachingDefinitions.t)
    (c : ReachingDefinitions.Chunk) :
  In c (ReachingDefinitions.killDefinitions mloc rd) ->
  MemoryLocation.overlaps mloc (ReachingDefinitions.location c) = false
  /\ exists c0, In c0 rd
       /\ ReachingDefinitions.definitions c = ReachingDefinitions.definitions c0.
Proof.
  unfold ReachingDefinitions.killDefinitions. intros Hin.
  apply List.in_flat_map in Hin. destruct Hin as [c0 [Hin0 Hin]].
  apply killChunk_In in Hin. destruct Hin as [Hdefs Hov].
  split; [exact Hov|]. exists c0. auto.
Qed.

(** Killing a range brings no new defining term. *)
Lemma killDefinitions_not_definedBy (mloc : MemoryLocation.t)
    (rd : ReachingDefinitions.t) (term : Term.Info) :
  ~ ReachingDefinitions.definedBy rd term ->
  ~ ReachingDefinitions.definedBy (ReachingDefinitions.killDefinitions mloc rd) term.
Proof.
  intros Hnot [l [c [Hin [_ [d [Hd Hsame]]]]]].
  apply killDefinitions_In in Hin. destruct Hin as [_ [c0 [Hin0 Hdefs]]].
  apply Hnot. exists (ReachingDefinitions.location c0), c0.
  split; [exact Hin0|]. split; [reflexivity|].
  exists d. rewrite <- Hdefs. auto.
Qed.

(** After a kill nothing is defined inside the killed range. *)
Lemma killDefinitions_no_overlap (mloc l : MemoryLocation.t)
    (rd : ReachingDefinitions.t) (term : Term.Info) :
  ReachingDefinitions.contains (ReachingDefinitions.killDefinitions mloc rd) l term ->
  MemoryLocation.overlaps mloc l = false.
Proof.
  intros [c [Hin [Hloc _]]].
  apply killDefinitions_In in Hin. destruct Hin as [Hov _]. congruence.
Qed.

Lemma insertChunk_In (c c' : ReachingDefinitions.Chunk) (rd : ReachingDefinitions.t) :
  In c' (ReachingDefinitions.insertChunk c rd) <-> c' = c \/ In c' rd.
Proof.
  induction rd as [|x rd IH]; simpl.
  - intuition.
  - destruct (ReachingDefinitions.before _ _); simpl; rewrite ?IH; intuition.
Qed.

(** A pair of the context after [addDefinition] is the new pair or a pair
    that the kill has left. *)
Lemma addDefinition_contains (mloc l : MemoryLocation.t) (term x : Term.Info)
    (rd : ReachingDefinitions.t) :
  ReachingDefinitions.contains (ReachingDefinitions.addDefinition mloc term rd) l x ->
  (l = mloc /\ Term.same term x = true)
  \/ ReachingDefinitions.contains (ReachingDefinitions.killDefinitions mloc rd) l x.
Proof.
  intros [c [Hin [Hloc [d [Hd Hsame]]]]].
  unfold ReachingDefinitions.addDefinition in Hin.
  apply insertChunk_In in Hin. destruct Hin as [->|Hin].
  - left. simpl in *. destruct Hd as [<-|[]]. auto.
  - right. exists c. split; [exact Hin|]. split; [exact Hloc|]. exists d. auto.
Qed.

Lemma addDefinition_contains_new (mloc : MemoryLocation.t) (term : Term.Info)
    (rd : ReachingDefinitions.t) :
  ReachingDefinitions.contains
    (ReachingDefinitions.addDefinition mloc term rd) mloc term.
Proof.
  exists (ReachingDefinitions.MakeChunk mloc [term]).
  split; [apply insertChunk_In; left; reflexivity|].
  split; [reflexivity|]. exists term. split; [left; reflexivity|].
  unfold Term.same. apply Pos.eqb_refl.
Qed.

Lemma project_not_definedBy (mloc : MemoryLocation.t) (rd : ReachingDefinitions.t)
    (term : Term.Info) :
  ~ ReachingDefinitions.definedBy rd term ->
  ~ ReachingDefinitions.definedBy (ReachingDefinitions.project mloc rd) term.
Proof.
  intros Hnot [l [c [Hin [_ [d [Hd Hsame]]]]]].
  unfold ReachingDefinitions.project in Hin.
  apply List.in_flat_map in Hin. destruct Hin as [c0 [Hin0 Hin]].
  destruct (MemoryLocation.overlaps mloc (ReachingDefinitions.location c0));
    [|destruct Hin].
  destruct Hin as [<-|[]]. simpl in Hd.
  apply Hnot. exists (ReachingDefinitions.location c0), c0.
  split; [exact Hin0|]. split; [reflexivity|]. exists d. auto.
Qed.

Lemma overlaps_refl (l : MemoryLocation.t) :
  MemoryLocation.valid l = true -> 0 < MemoryLocation.size l ->
  MemoryLocation.overlaps l l = true.
Proof.
  destruct l as [|d a s]; simpl; [discriminate|]. intros _ Hs.
  rewrite bool_decide_eq_true_2 by reflexivity. simpl.
  apply andb_true_iff. split; apply Z.ltb_lt; lia.
Qed.

Lemma killChunk_self (mloc : MemoryLocation.t) (terms : list Term.Info)
    (c : ReachingDefinitions.Chunk) :
  In c (ReachingDefinitions.killChunk mloc (ReachingDefinitions.MakeChunk mloc terms)) ->
  c = ReachingDefinitions.MakeChunk mloc terms.
Proof.
  unfold ReachingDefinitions.killChunk. simpl.
  destruct mloc as [|d a s].
  - intros [<-|[]]. reflexivity.
  - destruct (MemoryLocation.overlaps _ _).
    + rewrite !Z.ltb_irrefl. simpl. intros [].
    + intros [<-|[]]. reflexivity.
Qed.

(** Whether the term kills or not, the only pair it can leave in a context
    that did not name it is the one at the location it writes. *)
Lemma effects_contains_term (mloc l : MemoryLocation.t) (term : Term.Info)
    (kill : bool) (rd : ReachingDefinitions.t) :
  ~ ReachingDefinitions.definedBy rd term ->
  ReachingDefinitions.contains
    ((if kill then ReachingDefinitions.killDefinitions mloc else fun rd => rd)
       (ReachingDefinitions.addDefinition mloc term rd)) l term ->
  l = mloc.
Proof.
  intros Hnot Hcontains. destruct kill.
  - destruct Hcontains as [c [Hin [Hloc [d [Hd Hsame]]]]].
    unfold ReachingDefinitions.killDefinitions in Hin.
    apply List.in_flat_map in Hin. destruct Hin as [c0 [Hin0 Hin]].
    unfold ReachingDefinitions.addDefinition in Hin0.
    apply insertChunk_In in Hin0. destruct Hin0 as [->|Hin0].
    + apply killChunk_self in Hin. subst c. simpl in Hloc. congruence.
    + exfalso. apply killChunk_In in Hin. destruct Hin as [Hdefs _].
      eapply killDefinitions_not_definedBy; [exact Hnot|].
      exists (ReachingDefinitions.location c0), c0.
      split; [exact Hin0|]. split; [reflexivity|].
      exists d. rewrite <- Hdefs. auto.
  - apply addDefinition_contains in Hcontains.
    destruct Hcontains as [[-> _]|Hc]; [reflexivity|].
    exfalso. eapply killDefinitions_not_definedBy; [exact Hnot|].
    exists l. exact Hc.
Qed.

(** ** Claims on the memory/definition bookkeeper *)

Section Bookkeeper.

Variable architecture : Architecture.t.

(** The context after the second half of [setMemoryLocation], for a real
    location outside global memory: the write comes before the kill. *)
Lemma updateDefinitions_context (term : Term.Info)
    (oldMemoryLocation newMemoryLocation : MemoryLocation.t) (e : Execution) :
  MemoryLocation.valid newMemoryLocation = true ->
  Architecture.isGlobalMemory architecture newMemoryLocation = false ->
  context (updateDefinitions architecture term oldMemoryLocation newMemoryLocation e)
  = (if Term.isKill term
     then ReachingDefinitions.killDefinitions newMemoryLocation
     else fun rd => rd)
      ((if Term.isWrite term
        then ReachingDefinitions.addDefinition newMemoryLocation term
        else fun rd => rd)
         (context e)).
Proof.
  intros Hvalid Hglobal. unfold updateDefinitions.
  rewrite Hvalid, Hglobal. simpl.
  destruct (Term.isRead term), (Term.isWrite term), (Term.isKill term);
    reflexivity.
Qed.

(** The reaching set of a read is the projection of the context as it is
    before the term's own write. *)
Lemma updateDefinitions_read (term : Term.Info)
    (oldMemoryLocation newMemoryLocation : MemoryLocation.t) (e : Execution) :
  MemoryLocation.valid newMemoryLocation = true ->
  Architecture.isGlobalMemory architecture newMemoryLocation = false ->
  Term.isRead term = true ->
  Dataflow.getDefinitions term
    (dataflow (updateDefinitions architecture term oldMemoryLocation
                 newMemoryLocation e))
  = ReachingDefinitions.project newMemoryLocation (context e).
Proof.
  intros Hvalid Hglobal Hread. unfold updateDefinitions.
  rewrite Hvalid, Hglobal, Hread. simpl.
  destruct (Term.isWrite term), (Term.isKill term); simpl;
    rewrite mergeReachingValues_getDefinitions;
    apply getDefinitions_setDefinitions.
Qed.

Lemma updateDefinitions_context_unreal (term : Term.Info)
    (oldMemoryLocation newMemoryLocation : MemoryLocation.t) (e : Execution) :
  MemoryLocation.valid newMemoryLocation
  && negb (Architecture.isGlobalMemory architecture newMemoryLocation) = false ->
  context (updateDefinitions architecture term oldMemoryLocation newMemoryLocation e)
  = context e.
Proof.
  intros Hunreal. unfold updateDefinitions. rewrite Hunreal.
  destruct (Term.isRead term && MemoryLocation.valid oldMemoryLocation);
    reflexivity.
Qed.

(** C7.  [setMemoryLocation] overwrites a stored location that differs from
    the new one; if the term is a write that had a real location, the
    context then holds no pair defined by the term, and the only such pair
    the call can leave is the one it adds at the new location; and when the
    new location is empty or global, a read that had a real location gets
    its stored set of reaching definitions cleared. *)
Theorem setMemoryLocation_moves_term (term : Term.Info)
    (newMemoryLocation : MemoryLocation.t) (e : Execution) :
  let oldMemoryLocation := Dataflow.getMemoryLocation term (dataflow e) in
  let remembered :=
    rememberLocation term oldMemoryLocation newMemoryLocation e in
  let result := setMemoryLocation architecture term newMemoryLocation e in
  (oldMemoryLocation <> newMemoryLocation ->
   Dataflow.getMemoryLocation term (dataflow remembered) = newMemoryLocation
   /\ Dataflow.getMemoryLocation term (dataflow result) = newMemoryLocation)
  /\ (oldMemoryLocation <> newMemoryLocation ->
      MemoryLocation.valid oldMemoryLocation = true ->
      Term.isWrite term = true ->
      ~ ReachingDefinitions.definedBy (context remembered) term
      /\ forall l, ReachingDefinitions.contains (context result) l term ->
                   l = newMemoryLocation)
  /\ (MemoryLocation.valid newMemoryLocation = false
      \/ Architecture.isGlobalMemory architecture newMemoryLocation = true ->
      Term.isRead term = true ->
      MemoryLocation.valid oldMemoryLocation = true ->
      Dataflow.getDefinitions term (dataflow result) = []).
Proof.
  intros oldMemoryLocation remembered result.
  split; [|split].
  - intros Hne. split.
    + subst remembered. unfold rememberLocation.
      rewrite bool_decide_eq_true_2 by exact Hne.
      destruct (MemoryLocation.valid _ && Term.isWrite term); simpl;
        apply getMemoryLocation_setMemoryLocation.
    + apply setMemoryLocation_getMemoryLocation.
  - intros Hne Hvalid Hwrite.
    assert (Hnot : ~ ReachingDefinitions.definedBy (context remembered) term).
    { subst remembered. unfold rememberLocation.
      rewrite bool_decide_eq_true_2 by exact Hne.
      rewrite Hvalid, Hwrite. simpl. apply filterOut_same_not_definedBy. }
    split; [exact Hnot|].
    intros l Hcontains. subst result. unfold setMemoryLocation in Hcontains.
    fold oldMemoryLocation in Hcontains. fold remembered in Hcontains.
    destruct (MemoryLocation.valid newMemoryLocation
              && negb (Architecture.isGlobalMemory architecture newMemoryLocation))
      eqn:Hreal.
    + apply andb_true_iff in Hreal. destruct Hreal as [Hv Hg].
      apply negb_true_iff in Hg.
      rewrite updateDefinitions_context in Hcontains by assumption.
      rewrite Hwrite in Hcontains.
      eapply effects_contains_term; eassumption.
    + rewrite updateDefinitions_context_unreal in Hcontains by exact Hreal.
      exfalso. apply Hnot. exists l. exact Hcontains.
  - intros Hunreal Hread Hvalid. subst result. unfold setMemoryLocation.
    fold oldMemoryLocation. fold remembered. unfold updateDefinitions.
    assert (Hcond : MemoryLocation.valid newMemoryLocation
                    && negb (Architecture.isGlobalMemory architecture
                               newMemoryLocation) = false).
    { destruct Hunreal as [->| ->]; [reflexivity|].
      apply andb_false_iff. right. reflexivity. }
    rewrite Hcond, Hread, Hvalid. simpl.
    apply getDefinitions_setDefinitions.
Qed.

End Bookkeeper.

Section EffectOrder.

Variable architecture : Architecture.t.


End EffectOrder.

(** ** The flags that reaching definitions pass on *)

Lemma getValue_setValue_same_id (x term : Term.Info) (v : Value.t)
    (df : Dataflow.t) :
  Term.id x = Term.id term ->
  Dataflow.getValue x (Dataflow.setValue term v df) = v.
Proof.
  intros Hid. unfold Dataflow.getValue, Dataflow.setValue; simpl.
  rewrite Hid, lookup_insert_eq. reflexivity.
Qed.

(** Two pointers to one term see one stack-offset state. *)
Lemma stackOffsetState_same_id (x term : Term.Info) (df : Dataflow.t) :
  Term.id x = Term.id term ->
  Value.stackOffsetState (Dataflow.getValue x df)
  = Value.stackOffsetState (Dataflow.getValue term df).
Proof.
  intros Hid. unfold Dataflow.getValue. rewrite Hid.
  destruct (Dataflow.term2value df !! Term.id term); reflexivity.
Qed.

Lemma same_true_id (x term : Term.Info) :
  Term.same x term = true <-> Term.id x = Term.id term.
Proof. unfold Term.same. apply Pos.eqb_eq. Qed.

Lemma same_false_id (x term : Term.Info) :
  Term.same x term = false <-> Term.id x <> Term.id term.
Proof. unfold Term.same. apply Pos.eqb_neq. Qed.

(** Storing an abstract value changes no stack-offset state. *)
Lemma setAbstractValue_stackOffsetState (x term : Term.Info)
    (a : AbstractValue.t) (df : Dataflow.t) :
  Value.stackOffsetState
    (Dataflow.getValue x (updateValue term (Value.setAbstractValue a) df))
  = Value.stackOffsetState (Dataflow.getValue x df).
Proof.
  destruct (decide (Term.id x = Term.id term)) as [Hid|Hid].
  - unfold updateValue. rewrite getValue_setValue_same_id by exact Hid.
    simpl. symmetry. apply stackOffsetState_same_id. exact Hid.
  - rewrite getValue_updateValue_other by exact Hid. reflexivity.
Qed.

(** One turn of the flag loop, seen from the term. *)
Lemma mergeFlags_stackOffsetState (term definition : Term.Info) (df : Dataflow.t) :
  Value.stackOffsetState (Dataflow.getValue term (mergeFlags term df definition))
  = match Value.stackOffsetState (Dataflow.getValue definition df) with
    | Value.NotStackOffset => Value.NotStackOffset
    | Value.IsStackOffset k =>
        match Value.stackOffsetState (Dataflow.getValue term df) with
        | Value.NotStackOffset => Value.NotStackOffset
        | _ => Value.IsStackOffset k
        end
    | Value.UnknownStackOffset =>
        Value.stackOffsetState (Dataflow.getValue term df)
    end.
Proof.
  unfold mergeFlags.
  set (df1 :=
    if Value.isNotStackOffset (Dataflow.getValue definition df) then
      updateValue term Value.makeNotStackOffset df
    else if Value.isStackOffset (Dataflow.getValue definition df) then
      updateValue term
        (Value.makeStackOffset (Value.stackOffset (Dataflow.getValue definition df)))
        df
    else df).
  assert (Hproduct :
    Value.stackOffsetState
      (Dataflow.getValue term
         (if Value.isNotProduct (Dataflow.getValue definition df1) then
            updateValue term Value.makeNotProduct df1
          else if Value.isProduct (Dataflow.getValue definition df1) then
            updateValue term Value.makeProduct df1
          else df1))
    = Value.stackOffsetState (Dataflow.getValue term df1)).
  { destruct (Value.isNotProduct _); [rewrite getValue_updateValue; reflexivity|].
    destruct (Value.isProduct _); [|reflexivity].
    rewrite getValue_updateValue. unfold Value.makeProduct.
    destruct (Value.productState _); reflexivity. }
  rewrite Hproduct. subst df1.
  unfold Value.isNotStackOffset, Value.isStackOffset, Value.stackOffset.
  destruct (Value.stackOffsetState (Dataflow.getValue definition df)) as [|k|];
    simpl.
  - reflexivity.
  - rewrite getValue_updateValue. unfold Value.makeStackOffset.
    destruct (Value.stackOffsetState (Dataflow.getValue term df)) eqn:Hterm;
      simpl; congruence.
  - rewrite getValue_updateValue. reflexivity.
Qed.

Lemma mergeFlags_other (x term definition : Term.Info) (df : Dataflow.t) :
  Term.id x <> Term.id term ->
  Dataflow.getValue x (mergeFlags term df definition) = Dataflow.getValue x df.
Proof.
  intros Hid. unfold mergeFlags.
  repeat match goal with
         | |- context [if ?b then _ else _] => destruct b
         end;
    rewrite ?getValue_updateValue_other by exact Hid; reflexivity.
Qed.

Lemma mergeFlags_fold_other (x term : Term.Info) (lower : list Term.Info)
    (df : Dataflow.t) :
  Term.id x <> Term.id term ->
  Dataflow.getValue x (List.fold_left (mergeFlags term) lower df)
  = Dataflow.getValue x df.
Proof.
  intros Hid. revert df. induction lower as [|d lower IH]; intros df; simpl.
  - reflexivity.
  - rewrite IH. apply mergeFlags_other. exact Hid.
Qed.

(** The state of a definition as the loop finds it after a turn: the state
    it had, or the state of the term when it is the term itself. *)
Lemma mergeFlags_definition_state (term d0 d : Term.Info) (df : Dataflow.t) :
  Value.stackOffsetState (Dataflow.getValue d (mergeFlags term df d0))
  = if Term.same d term
    then Value.stackOffsetState (Dataflow.getValue term (mergeFlags term df d0))
    else Value.stackOffsetState (Dataflow.getValue d df).
Proof.
  destruct (Term.same d term) eqn:Hsame.
  - apply stackOffsetState_same_id. apply same_true_id. exact Hsame.
  - rewrite mergeFlags_other; [reflexivity|]. apply same_false_id. exact Hsame.
Qed.

Section FlagLoop.

Variable term : Term.Info.

Let state (df : Dataflow.t) (x : Term.Info) : Value.StackOffset :=
  Value.stackOffsetState (Dataflow.getValue x df).

(** No wins, and stays. *)
Lemma flags_not_stays (lower : list Term.Info) (df : Dataflow.t) :
  state df term = Value.NotStackOffset ->
  state (List.fold_left (mergeFlags term) lower df) term = Value.NotStackOffset.
Proof.
  revert df. induction lower as [|d lower IH]; intros df Hnot; simpl.
  - exact Hnot.
  - apply IH. unfold state in *. rewrite mergeFlags_stackOffsetState, Hnot.
    destruct (Value.stackOffsetState (Dataflow.getValue d df)); reflexivity.
Qed.

(** One definition that disclaims is enough. *)
Lemma flags_some_disclaims (lower : list Term.Info) (df : Dataflow.t) :
  (exists d, In d lower /\ state df d = Value.NotStackOffset) ->
  state (List.fold_left (mergeFlags term) lower df) term = Value.NotStackOffset.
Proof.
  revert df. induction lower as [|d0 lower IH]; intros df [d [Hin Hd]].
  - destruct Hin.
  - simpl. destruct Hin as [->|Hin].
    + apply flags_not_stays. unfold state in *.
      rewrite mergeFlags_stackOffsetState, Hd. reflexivity.
    + destruct (Term.same d term) eqn:Hsame.
      * apply flags_not_stays. unfold state in *.
        rewrite mergeFlags_stackOffsetState.
        rewrite (stackOffsetState_same_id d term) in Hd
          by (apply same_true_id; exact Hsame).
        rewrite Hd.
        destruct (Value.stackOffsetState (Dataflow.getValue d0 df)); reflexivity.
      * apply IH. exists d. split; [exact Hin|]. unfold state in *.
        rewrite mergeFlags_definition_state, Hsame. exact Hd.
Qed.

(** Definitions that do not disclaim leave a term that did not disclaim in
    that state. *)
Lemma flags_none_disclaims (lower : list Term.Info) (df : Dataflow.t) :
  (forall d, In d lower -> state df d <> Value.NotStackOffset) ->
  state df term <> Value.NotStackOffset ->
  state (List.fold_left (mergeFlags term) lower df) term <> Value.NotStackOffset.
Proof.
  revert df. induction lower as [|d0 lower IH]; intros df Hall Hterm; simpl.
  - exact Hterm.
  - assert (Hstep : state (mergeFlags term df d0) term <> Value.NotStackOffset).
    { unfold state in *. rewrite mergeFlags_stackOffsetState.
      specialize (Hall d0 (or_introl eq_refl)).
      destruct (Value.stackOffsetState (Dataflow.getValue d0 df));
        [exact Hterm| |congruence].
      destruct (Value.stackOffsetState (Dataflow.getValue term df));
        congruence. }
    apply IH; [|exact Hstep].
    intros d Hin. unfold state in *. rewrite mergeFlags_definition_state.
    destruct (Term.same d term); [exact Hstep|].
    apply Hall. right. exact Hin.
Qed.

(** Definitions that say nothing, or are the term itself, change nothing. *)
Lemma flags_silent (lower : list Term.Info) (df : Dataflow.t) :
  (forall d, In d lower ->
     Term.same d term = true \/ state df d = Value.UnknownStackOffset) ->
  state (List.fold_left (mergeFlags term) lower df) term = state df term.
Proof.
  revert df. induction lower as [|d0 lower IH]; intros df Hall; simpl.
  - reflexivity.
  - assert (Hstep : state (mergeFlags term df d0) term = state df term).
    { unfold state in *. rewrite mergeFlags_stackOffsetState.
      destruct (Hall d0 (or_introl eq_refl)) as [Hsame|Hunknown].
      - rewrite (stackOffsetState_same_id d0 term)
          by (apply same_true_id; exact Hsame).
        destruct (Value.stackOffsetState (Dataflow.getValue term df));
          reflexivity.
      - rewrite Hunknown. reflexivity. }
    rewrite IH; [exact Hstep|].
    intros d Hin. destruct (Term.same d term) eqn:Hsame; [left; reflexivity|].
    right. unfold state in *. rewrite mergeFlags_definition_state, Hsame.
    destruct (Hall d (or_intror Hin)) as [Hs|Hu]; [congruence|exact Hu].
Qed.

(** Without a disclaimer the last definition that gives an offset wins. *)
Lemma flags_last_offset (before after : list Term.Info) (d : Term.Info) (k : Z)
    (df : Dataflow.t) :
  (forall x, In x (before ++ d :: after) -> state df x <> Value.NotStackOffset) ->
  state df term <> Value.NotStackOffset ->
  Term.same d term = false ->
  state df d = Value.IsStackOffset k ->
  (forall x, In x after -> state df x = Value.UnknownStackOffset) ->
  state (List.fold_left (mergeFlags term) (before ++ d :: after) df) term
  = Value.IsStackOffset k.
Proof.
  intros Hall Hterm Hsame Hd Hafter.
  rewrite List.fold_left_app. simpl.
  set (df1 := List.fold_left (mergeFlags term) before df).
  assert (H1 : state df1 term <> Value.NotStackOffset).
  { apply flags_none_disclaims; [|exact Hterm].
    intros x Hin. apply Hall. apply List.in_or_app. left. exact Hin. }
  assert (Hother : forall x, Term.same x term = false ->
                             state df1 x = state df x).
  { intros x Hx. unfold state, df1. rewrite mergeFlags_fold_other; [reflexivity|].
    apply same_false_id. exact Hx. }
  assert (H2 : state (mergeFlags term df1 d) term = Value.IsStackOffset k).
  { unfold state in *. rewrite mergeFlags_stackOffsetState.
    rewrite (Hother d Hsame), Hd.
    destruct (Value.stackOffsetState (Dataflow.getValue term df1));
      congruence. }
  rewrite flags_silent; [exact H2|].
  intros x Hin. destruct (Term.same x term) eqn:Hx; [left; reflexivity|].
  right. unfold state in *. rewrite mergeFlags_definition_state, Hx.
  rewrite (Hother x Hx). apply Hafter. exact Hin.
Qed.

End FlagLoop.

Lemma last_chunk (rest : list ReachingDefinitions.Chunk)
    (back : ReachingDefinitions.Chunk) :
  List.last (List.map Some (rest ++ [back])) None = Some back.
Proof. rewrite List.map_app. simpl. apply List.last_last. Qed.




(** ** Claims on the operator semantics *)

Lemma makeStackOffset_state (k : Z) (v : Value.t) :
  Value.stackOffsetState (Value.makeStackOffset k v)
  = match Value.stackOffsetState v with
    | Value.NotStackOffset => Value.NotStackOffset
    | _ => Value.IsStackOffset k
    end.
Proof.
  unfold Value.makeStackOffset.
  destruct (Value.stackOffsetState v) eqn:Hv; simpl; congruence.
Qed.

Lemma binaryProduct_state (operatorKind : Term.BinaryKind) (v : Value.t) :
  Value.stackOffsetState (binaryProduct operatorKind v)
  = Value.stackOffsetState v.
Proof.
  unfold binaryProduct, Value.makeProduct.
  destruct operatorKind; simpl; try reflexivity;
    destruct (Value.productState v); reflexivity.
Qed.

(** The stack-offset state of the operator after the transfer is that of
    [binaryStackOffset], run on the state it had. *)
Lemma transferBinary_state (operators : AbstractOperators) (binary : Term.Info)
    (operatorKind : Term.BinaryKind) (left right : Term.Info) (e : Execution) :
  exists v,
    Value.stackOffsetState v
    = Value.stackOffsetState (Dataflow.getValue binary (dataflow e))
    /\ Value.stackOffsetState
         (Dataflow.getValue binary
            (dataflow (transferBinary operators binary operatorKind left right e)))
       = Value.stackOffsetState
           (binaryStackOffset operatorKind
              (Dataflow.getValue left (dataflow e))
              (Dataflow.getValue right (dataflow e)) v).
Proof.
  eexists. split; [|unfold transferBinary; simpl;
                    rewrite getValue_updateValue, binaryProduct_state;
                    reflexivity].
  reflexivity.
Qed.

Ltac stack_offset_cases L R v :=
  unfold Value.isStackOffset, Value.isNotStackOffset, Value.stackOffset in *;
  destruct (Value.stackOffsetState L) eqn:?;
  destruct (Value.stackOffsetState R) eqn:?;
  destruct (AbstractValue.isConcrete (Value.abstractValue L)) eqn:?;
  destruct (AbstractValue.isConcrete (Value.abstractValue R)) eqn:?;
  destruct (AbstractValue.isNondeterministic (Value.abstractValue L)) eqn:?;
  destruct (AbstractValue.isNondeterministic (Value.abstractValue R)) eqn:?;
  simpl in *; try discriminate; try congruence;
  rewrite ?makeStackOffset_state; simpl;
  destruct (Value.stackOffsetState v) eqn:?; simpl; congruence.

(** C6, as the code has it.  [old] is the state the result had and
    [offset k] is StackOffset(k) unless the result was NotStackOffset
    already, which it then stays.  ADD tries the left operand, then the right
    one, then the case of two operands that are not stack offsets.  SUB and
    AND are chains of alternatives, the left operand first. *)
Theorem binary_stack_offset_transfer (operators : AbstractOperators)
    (binary : Term.Info) (operatorKind : Term.BinaryKind)
    (left right : Term.Info) (e : Execution) :
  let L := Dataflow.getValue left (dataflow e) in
  let R := Dataflow.getValue right (dataflow e) in
  let old := Value.stackOffsetState (Dataflow.getValue binary (dataflow e)) in
  let new :=
    Value.stackOffsetState
      (Dataflow.getValue binary
         (dataflow (transferBinary operators binary operatorKind left right e))) in
  let offset k :=
    match old with
    | Value.NotStackOffset => Value.NotStackOffset
    | _ => Value.IsStackOffset k
    end in
  (operatorKind = Term.ADD ->
   (forall k, Value.stackOffsetState L = Value.IsStackOffset k ->
              AbstractValue.isConcrete (Value.abstractValue R) = true ->
              Value.isStackOffset R = false ->
              new = offset (k + AbstractValue.signedValue (Value.abstractValue R)))
   /\ (forall k, Value.stackOffsetState R = Value.IsStackOffset k ->
                 AbstractValue.isConcrete (Value.abstractValue L) = true ->
                 Value.isStackOffset L = false
                 \/ AbstractValue.isConcrete (Value.abstractValue R) = true ->
                 new = offset (k + AbstractValue.signedValue (Value.abstractValue L)))
   /\ (Value.isStackOffset L = true ->
       AbstractValue.isConcrete (Value.abstractValue R) = false ->
       AbstractValue.isNondeterministic (Value.abstractValue R) = true ->
       new = Value.NotStackOffset)
   /\ (Value.isStackOffset R = true ->
       AbstractValue.isConcrete (Value.abstractValue L) = false ->
       AbstractValue.isNondeterministic (Value.abstractValue L) = true ->
       new = Value.NotStackOffset)
   /\ (Value.stackOffsetState L = Value.NotStackOffset ->
       Value.stackOffsetState R = Value.NotStackOffset ->
       new = Value.NotStackOffset))
  /\ (operatorKind = Term.SUB ->
      (forall k, Value.stackOffsetState L = Value.IsStackOffset k ->
                 AbstractValue.isConcrete (Value.abstractValue R) = true ->
                 new = offset (k - AbstractValue.signedValue (Value.abstractValue R)))
      /\ (Value.isStackOffset L
          && AbstractValue.isConcrete (Value.abstractValue R) = false ->
          Value.stackOffsetState L = Value.NotStackOffset
          \/ AbstractValue.isNondeterministic (Value.abstractValue R) = true ->
          new = Value.NotStackOffset))
  /\ (operatorKind = Term.AND ->
      (forall k, Value.stackOffsetState L = Value.IsStackOffset k ->
                 AbstractValue.isConcrete (Value.abstractValue R) = true ->
                 new = offset (Types.toSigned
                                 (Z.land (Types.toConstantValue k)
                                    (AbstractValue.value (Value.abstractValue R)))))
      /\ (forall k, Value.stackOffsetState R = Value.IsStackOffset k ->
                    AbstractValue.isConcrete (Value.abstractValue L) = true ->
                    Value.isStackOffset L
                    && AbstractValue.isConcrete (Value.abstractValue R) = false ->
                    new = offset (Types.toSigned
                                    (Z.land (Types.toConstantValue k)
                                       (AbstractValue.value (Value.abstractValue L)))))
      /\ (Value.isStackOffset L
          && AbstractValue.isConcrete (Value.abstractValue R) = false ->
          Value.isStackOffset R
          && AbstractValue.isConcrete (Value.abstractValue L) = false ->
          (AbstractValue.isNondeterministic (Value.abstractValue L) = true
           /\ Value.stackOffsetState L = Value.NotStackOffset)
          \/ (AbstractValue.isNondeterministic (Value.abstractValue R) = true
              /\ Value.stackOffsetState R = Value.NotStackOffset) ->
          new = Value.NotStackOffset)).
Proof.
  intros L R old new offset.
  destruct (transferBinary_state operators binary operatorKind left right e)
    as [v [Hv Hnew]].
  fold L R in Hnew. fold old in Hv. fold new in Hnew.
  subst offset. rewrite Hnew. rewrite <- Hv. clear Hnew Hv new old.
  split; [|split]; intros ->; unfold binaryStackOffset.
  - repeat split.
    + intros k HL HR HRs. stack_offset_cases L R v.
    + intros k HR HL [HLs|HRc]; stack_offset_cases L R v.
    + intros HLs HRc HRn. stack_offset_cases L R v.
    + intros HRs HLc HLn. stack_offset_cases L R v.
    + intros HL HR. stack_offset_cases L R v.
  - repeat split.
    + intros k HL HR. stack_offset_cases L R v.
    + intros Hfirst [HL|HR]; stack_offset_cases L R v.
  - repeat split.
    + intros k HL HR. stack_offset_cases L R v.
    + intros k HR HL Hfirst. stack_offset_cases L R v.
    + intros Hfirst Hsecond [[HLn HL]|[HRn HR]]; stack_offset_cases L R v.
Qed.

(** C6, as written, fails on two counts.  When both operands of ADD are
    stack offsets with concrete values the right operand decides: the left
    one is the stack pointer plus 10, the right one has the value 2, and the
    sum is not StackOffset(10 + 2).  And a result that an earlier evaluation
    has declared NotStackOffset stays so, for ADD as for SUB. *)
Lemma binary_add_offset_not_as_claimed :
  (Value.stackOffsetState
     (Dataflow.getValue (Sample.plain 1) (dataflow Sample.twoOffsets))
   = Value.IsStackOffset 10
   /\ AbstractValue.isConcrete
        (Value.abstractValue
           (Dataflow.getValue (Sample.plain 2) (dataflow Sample.twoOffsets)))
      = true
   /\ AbstractValue.signedValue
        (Value.abstractValue
           (Dataflow.getValue (Sample.plain 2) (dataflow Sample.twoOffsets)))
      = 2
   /\ Value.stackOffsetState
        (Dataflow.getValue (Sample.plain 3)
           (dataflow (transferBinary Sample.operators (Sample.plain 3) Term.ADD
                        (Sample.plain 1) (Sample.plain 2) Sample.twoOffsets)))
      = Value.IsStackOffset 21)
  /\ (Value.stackOffsetState
        (Dataflow.getValue (Sample.plain 1)
           (dataflow Sample.offsetAndConstantDisclaimed))
      = Value.IsStackOffset 10
      /\ AbstractValue.isConcrete
           (Value.abstractValue
              (Dataflow.getValue (Sample.plain 2)
                 (dataflow Sample.offsetAndConstantDisclaimed)))
         = true
      /\ Value.stackOffsetState
           (Dataflow.getValue (Sample.plain 3)
              (dataflow (transferBinary Sample.operators (Sample.plain 3) Term.ADD
                           (Sample.plain 1) (Sample.plain 2)
                           Sample.offsetAndConstantDisclaimed)))
         = Value.NotStackOffset
      /\ Value.stackOffsetState
           (Dataflow.getValue (Sample.plain 3)
              (dataflow (transferBinary Sample.operators (Sample.plain 3) Term.SUB
                           (Sample.plain 1) (Sample.plain 2)
                           Sample.offsetAndConstantDisclaimed)))
         = Value.NotStackOffset).
Proof. repeat split; vm_compute; reflexivity. Qed.

(** A run of the transfer: the stack pointer plus 10, minus the constant 2,
    is the stack pointer plus 8. *)
Example binary_sub_offset :
  Value.stackOffsetState
    (Dataflow.getValue (Sample.plain 3)
       (dataflow (transferBinary Sample.operators (Sample.plain 3) Term.SUB
                    (Sample.plain 1) (Sample.plain 2) Sample.offsetAndConstant)))
  = Value.IsStackOffset 8.
Proof. vm_compute. reflexivity. Qed.

(** ** The lattice of abstract values *)

Lemma lor_absorb (a b : Z) : Z.lor b (Z.lor a b) = Z.lor a b.
Proof.
  rewrite (Z.lor_comm a b), Z.lor_assoc, Z.lor_diag. reflexivity.
Qed.

Lemma le_refl (a : AbstractValue.t) : AbstractValue.le a a.
Proof.
  unfold AbstractValue.le, AbstractValue.merge. destruct a as [s z o]; simpl.
  rewrite Z.max_id, !Z.lor_diag. reflexivity.
Qed.

Lemma le_trans (a b c : AbstractValue.t) :
  AbstractValue.le a b -> AbstractValue.le b c -> AbstractValue.le a c.
Proof.
  unfold AbstractValue.le, AbstractValue.merge.
  destruct a as [sa za oa], b as [sb zb ob], c as [sc zc oc]; simpl.
  intros Hab Hbc. injection Hab as Hs1 Hz1 Ho1. injection Hbc as Hs2 Hz2 Ho2.
  f_equal.
  - lia.
  - rewrite <- Hz2, Z.lor_assoc, Hz1. reflexivity.
  - rewrite <- Ho2, Z.lor_assoc, Ho1. reflexivity.
Qed.

(** [merge] is an upper bound of both of its arguments. *)
Lemma le_merge_r (a b : AbstractValue.t) :
  AbstractValue.le b (AbstractValue.merge a b).
Proof.
  unfold AbstractValue.le, AbstractValue.merge. simpl. f_equal.
  - lia.
  - apply lor_absorb.
  - apply lor_absorb.
Qed.

Lemma le_merge_l (a b : AbstractValue.t) :
  AbstractValue.le a (AbstractValue.merge a b).
Proof.
  unfold AbstractValue.le, AbstractValue.merge. simpl. f_equal.
  - lia.
  - rewrite Z.lor_assoc, Z.lor_diag. reflexivity.
  - rewrite Z.lor_assoc, Z.lor_diag. reflexivity.
Qed.

(** [resize] is monotone. *)
Lemma resize_le (n : Z) (a b : AbstractValue.t) :
  AbstractValue.le a b ->
  AbstractValue.le (AbstractValue.resize n a) (AbstractValue.resize n b).
Proof.
  unfold AbstractValue.le, AbstractValue.merge, AbstractValue.resize.
  destruct a as [sa za oa], b as [sb zb ob]; simpl.
  intros Hab. injection Hab as Hs Hz Ho. f_equal.
  - lia.
  - rewrite <- Z.land_lor_distr_l, Hz. reflexivity.
  - rewrite <- Z.land_lor_distr_l, Ho. reflexivity.
Qed.

Lemma resize_resize (n : Z) (a : AbstractValue.t) :
  AbstractValue.resize n (AbstractValue.resize n a) = AbstractValue.resize n a.
Proof.
  unfold AbstractValue.resize. simpl. f_equal;
    rewrite <- Z.land_assoc, Z.land_diag; reflexivity.
Qed.

(** A fresh value has the size of its term. *)
Lemma resize_fresh (n : Z) :
  AbstractValue.resize n (Value.abstractValue (Value.make n))
  = Value.abstractValue (Value.make n).
Proof.
  unfold Value.make, AbstractValue.make, AbstractValue.resize. simpl.
  f_equal; rewrite <- Z.land_assoc, Z.land_diag; reflexivity.
Qed.

(** ** What an evaluation does to the values *)

Lemma getValue_ext (x : Term.Info) (df df' : Dataflow.t) :
  Dataflow.term2value df' = Dataflow.term2value df ->
  Dataflow.getValue x df' = Dataflow.getValue x df.
Proof. unfold Dataflow.getValue. intros ->. reflexivity. Qed.

Lemma makeStackOffset_abstractValue (k : Z) (v : Value.t) :
  Value.abstractValue (Value.makeStackOffset k v) = Value.abstractValue v.
Proof.
  unfold Value.makeStackOffset. destruct (Value.stackOffsetState v); reflexivity.
Qed.

Lemma makeProduct_abstractValue (v : Value.t) :
  Value.abstractValue (Value.makeProduct v) = Value.abstractValue v.
Proof.
  unfold Value.makeProduct. destruct (Value.productState v); reflexivity.
Qed.

(** The flag loop leaves the abstract value of the term alone. *)
Lemma mergeFlags_abstractValue (term definition : Term.Info) (df : Dataflow.t) :
  Value.abstractValue (Dataflow.getValue term (mergeFlags term df definition))
  = Value.abstractValue (Dataflow.getValue term df).
Proof.
  unfold mergeFlags.
  repeat match goal with
         | |- context [if ?b then _ else _] => destruct b
         end;
    rewrite ?getValue_updateValue, ?makeProduct_abstractValue; simpl;
    rewrite ?getValue_updateValue, ?makeStackOffset_abstractValue; reflexivity.
Qed.

Lemma mergeFlags_fold_abstractValue (term : Term.Info) (lower : list Term.Info)
    (df : Dataflow.t) :
  Value.abstractValue
    (Dataflow.getValue term (List.fold_left (mergeFlags term) lower df))
  = Value.abstractValue (Dataflow.getValue term df).
Proof.
  revert df. induction lower as [|d lower IH]; intros df; simpl.
  - reflexivity.
  - rewrite IH. apply mergeFlags_abstractValue.
Qed.

Section Values.

Variable architecture : Architecture.t.
Variable operators : AbstractOperators.

(** The accumulator of the merge only grows. *)
Lemma mergeAbstractValues_le (termLocation : MemoryLocation.t)
    (definitions : ReachingDefinitions.t) (df : Dataflow.t)
    (a : AbstractValue.t) :
  AbstractValue.le a
    (mergeAbstractValues architecture termLocation definitions df a).
Proof.
  unfold mergeAbstractValues, ReachingDefinitions.chunks.
  revert a. induction definitions as [|chunk rest IH]; intros a; simpl.
  - apply le_refl.
  - eapply le_trans; [|apply IH].
    generalize (chunkMask architecture termLocation chunk). intros mask.
    generalize (ReachingDefinitions.definitions chunk). intros terms.
    revert a. induction terms as [|d terms IHt]; intros a; simpl.
    + apply le_refl.
    + eapply le_trans; [|apply IHt].
      unfold mergeDefinitionValue. apply le_merge_l.
Qed.

(** The abstract value [mergeReachingValues] leaves at the term. *)
Lemma mergeReachingValues_abstractValue (term : Term.Info)
    (termLocation : MemoryLocation.t) (definitions : ReachingDefinitions.t)
    (df : Dataflow.t) :
  Value.abstractValue
    (Dataflow.getValue term
       (mergeReachingValues architecture term termLocation definitions df))
  = if ReachingDefinitions.empty definitions
    then Value.abstractValue (Dataflow.getValue term df)
    else AbstractValue.resize (Term.size term)
           (mergeAbstractValues architecture termLocation definitions df
              (Value.abstractValue (Dataflow.getValue term df))).
Proof.
  unfold mergeReachingValues.
  destruct (ReachingDefinitions.empty definitions); [reflexivity|].
  destruct (lowerBitsDefinitions architecture termLocation definitions);
    rewrite ?mergeFlags_fold_abstractValue, getValue_updateValue; reflexivity.
Qed.

Lemma mergeReachingValues_other (x term : Term.Info)
    (termLocation : MemoryLocation.t) (definitions : ReachingDefinitions.t)
    (df : Dataflow.t) :
  Term.id x <> Term.id term ->
  Dataflow.getValue x
    (mergeReachingValues architecture term termLocation definitions df)
  = Dataflow.getValue x df.
Proof.
  intros Hid. unfold mergeReachingValues.
  destruct (ReachingDefinitions.empty definitions); [reflexivity|].
  destruct (lowerBitsDefinitions architecture termLocation definitions);
    rewrite ?mergeFlags_fold_other by exact Hid;
    apply getValue_updateValue_other; exact Hid.
Qed.

Lemma rememberLocation_getValue (x term : Term.Info)
    (oldMemoryLocation newMemoryLocation : MemoryLocation.t) (e : Execution) :
  Dataflow.getValue x
    (dataflow (rememberLocation term oldMemoryLocation newMemoryLocation e))
  = Dataflow.getValue x (dataflow e).
Proof.
  unfold rememberLocation.
  destruct (bool_decide _); [|reflexivity].
  destruct (MemoryLocation.valid _ && Term.isWrite term); reflexivity.
Qed.

Lemma setMemoryLocation_other (x term : Term.Info)
    (newMemoryLocation : MemoryLocation.t) (e : Execution) :
  Term.id x <> Term.id term ->
  Dataflow.getValue x
    (dataflow (setMemoryLocation architecture term newMemoryLocation e))
  = Dataflow.getValue x (dataflow e).
Proof.
  intros Hid. unfold setMemoryLocation.
  set (old := Dataflow.getMemoryLocation term (dataflow e)).
  rewrite <- (rememberLocation_getValue x term old newMemoryLocation e).
  generalize (rememberLocation term old newMemoryLocation e). intros e1.
  unfold updateDefinitions.
  destruct (MemoryLocation.valid newMemoryLocation
            && negb (Architecture.isGlobalMemory architecture newMemoryLocation)).
  - destruct (Term.isRead term), (Term.isWrite term), (Term.isKill term); simpl;
      rewrite ?mergeReachingValues_other by exact Hid; reflexivity.
  - destruct (Term.isRead term && MemoryLocation.valid old); reflexivity.
Qed.

(** At the term itself [setMemoryLocation] merges: the abstract value does
    not go down, and it keeps the size of the term. *)
Lemma setMemoryLocation_le (term : Term.Info)
    (newMemoryLocation : MemoryLocation.t) (e : Execution) :
  let old := Value.abstractValue (Dataflow.getValue term (dataflow e)) in
  let new :=
    Value.abstractValue
      (Dataflow.getValue term
         (dataflow (setMemoryLocation architecture term newMemoryLocation e))) in
  AbstractValue.resize (Term.size term) old = old ->
  AbstractValue.le old new /\ AbstractValue.resize (Term.size term) new = new.
Proof.
  intros old new Hfits. subst new. unfold setMemoryLocation.
  set (oldLocation := Dataflow.getMemoryLocation term (dataflow e)).
  assert (Hold :
    Value.abstractValue
      (Dataflow.getValue term
         (dataflow (rememberLocation term oldLocation newMemoryLocation e)))
    = old).
  { rewrite rememberLocation_getValue. reflexivity. }
  revert Hold.
  generalize (rememberLocation term oldLocation newMemoryLocation e).
  intros e1 Hold.
  assert (Hmerged :
    forall definitions df,
      Value.abstractValue (Dataflow.getValue term df) = old ->
      let new :=
        Value.abstractValue
          (Dataflow.getValue term
             (mergeReachingValues architecture term newMemoryLocation definitions
                (Dataflow.setDefinitions term definitions df))) in
      AbstractValue.le old new
      /\ AbstractValue.resize (Term.size term) new = new).
  { intros definitions df Hdf new. subst new.
    rewrite mergeReachingValues_abstractValue.
    assert (Hsame :
      Value.abstractValue
        (Dataflow.getValue term (Dataflow.setDefinitions term definitions df))
      = old).
    { rewrite <- Hdf. f_equal. }
    rewrite Hsame.
    destruct (ReachingDefinitions.empty definitions).
    - split; [apply le_refl|exact Hfits].
    - split; [|apply resize_resize].
      rewrite <- Hfits at 1. apply resize_le. apply mergeAbstractValues_le. }
  unfold updateDefinitions.
  destruct (MemoryLocation.valid newMemoryLocation
            && negb (Architecture.isGlobalMemory architecture newMemoryLocation)).
  - destruct (Term.isRead term), (Term.isWrite term), (Term.isKill term); simpl;
      try (apply Hmerged; exact Hold);
      rewrite Hold; (split; [apply le_refl|exact Hfits]).
  - destruct (Term.isRead term && MemoryLocation.valid oldLocation); simpl.
    + assert (Hsame :
        Value.abstractValue
          (Dataflow.getValue term
             (Dataflow.setDefinitions term
                (ReachingDefinitions.clear
                   (Dataflow.getDefinitions term (dataflow e1)))
                (dataflow e1)))
        = old).
      { rewrite <- Hold. f_equal. }
      rewrite Hsame. split; [apply le_refl|exact Hfits].
    + rewrite Hold. split; [apply le_refl|exact Hfits].
Qed.

(** An evaluation changes the values of the terms it goes through only. *)
Lemma execute_other (x : Term.Info) (term : Term.t) (e : Execution) :
  ~ In (Term.id x) (Term.ids term) ->
  Dataflow.getValue x (dataflow (execute architecture operators term e))
  = Dataflow.getValue x (dataflow e).
Proof.
  revert e. induction term as
    [i value|i kind|i location|i domain address IH|i kind operand IH
    |i kind l IHl r IHr|i preferred IHp default IHd|i kind];
    intros e Hnot; simpl in Hnot.
  - simpl. apply getValue_updateValue_other. intuition.
  - assert (Hid : Term.id x <> Term.id i) by intuition.
    destruct kind; simpl;
      try (apply getValue_updateValue_other; exact Hid); reflexivity.
  - simpl. apply setMemoryLocation_other. intuition.
  - simpl. rewrite setMemoryLocation_other by intuition.
    apply IH. intuition.
  - simpl. unfold executeUnaryOperator, transferUnary. simpl.
    rewrite getValue_updateValue_other by intuition.
    apply IH. intuition.
  - simpl. unfold executeBinaryOperator, transferBinary. simpl.
    rewrite getValue_updateValue_other by intuition.
    rewrite IHr by (intros Hin; apply Hnot; right; apply List.in_or_app; auto).
    apply IHl. intros Hin. apply Hnot. right. apply List.in_or_app. auto.
  - simpl. unfold selectChoice.
    assert (Hid : Term.id x <> Term.id i) by intuition.
    destruct (negb _); simpl; rewrite getValue_setValue_other by exact Hid;
      (rewrite IHd by (intros Hin; apply Hnot; right; apply List.in_or_app; auto);
       apply IHp; intros Hin; apply Hnot; right; apply List.in_or_app; auto).
  - reflexivity.
Qed.

End Values.

(** ** Claims on the values across iterations *)

Lemma binaryStackOffset_abstractValue (operatorKind : Term.BinaryKind)
    (leftValue rightValue v : Value.t) :
  Value.abstractValue (binaryStackOffset operatorKind leftValue rightValue v)
  = Value.abstractValue v.
Proof.
  unfold binaryStackOffset.
  destruct operatorKind;
    repeat match goal with
           | |- context [if ?b then _ else _] => destruct b
           end;
    simpl; rewrite ?makeStackOffset_abstractValue; simpl;
    rewrite ?makeStackOffset_abstractValue; reflexivity.
Qed.

Lemma binaryProduct_abstractValue (operatorKind : Term.BinaryKind) (v : Value.t) :
  Value.abstractValue (binaryProduct operatorKind v) = Value.abstractValue v.
Proof.
  unfold binaryProduct. destruct operatorKind; simpl;
    rewrite ?makeProduct_abstractValue; reflexivity.
Qed.

Lemma unaryFlags_abstractValue (operatorKind : Term.UnaryKind)
    (operandValue v : Value.t) :
  Value.abstractValue (unaryFlags operatorKind operandValue v)
  = Value.abstractValue v.
Proof.
  unfold unaryFlags.
  destruct operatorKind;
    repeat match goal with
           | |- context [if ?b then _ else _] => destruct b
           end;
    simpl; rewrite ?makeProduct_abstractValue; simpl;
    rewrite ?makeStackOffset_abstractValue; reflexivity.
Qed.




(** ** Claims on the fixpoint driver *)

Section Driver.

Variable architecture : Architecture.t.
Variable operators : AbstractOperators.
Variable function : Function.

Local Abbreviation Block := (analyzeBlock architecture operators function).
Local Abbreviation Pass := (pass architecture operators function).
Local Abbreviation Passes := (passes architecture operators function).
Local Abbreviation Stable := (stable architecture operators function).

(** A block resets the counter or leaves it alone; what it does to the
    analysis does not depend on the counter. *)
Lemma analyzeBlock_counter (a : Analysis) (basicBlock : BasicBlock) :
  exists a' (changed : bool),
    (forall n, Block (a, n) basicBlock = (a', if changed then 0 else n))
    /\ (changed = false -> outDefinitions a' = outDefinitions a).
Proof.
  unfold analyzeBlock. simpl.
  destruct (negb (ReachingDefinitions.equal _ _)).
  - eexists. exists true. split; [intros n; reflexivity|discriminate].
  - eexists. exists false. split; [intros n; reflexivity|reflexivity].
Qed.

Lemma analyzeBlocks_fold_counter (blocks : list BasicBlock) (a : Analysis) :
  exists a' (changed : bool),
    (forall n, List.fold_left Block blocks (a, n)
               = (a', if changed then 0 else n))
    /\ (changed = false -> outDefinitions a' = outDefinitions a).
Proof.
  revert a. induction blocks as [|b blocks IH]; intros a; simpl.
  - exists a, false. split; [intros n; reflexivity|reflexivity].
  - destruct (analyzeBlock_counter a b) as [a1 [c1 [Hstep Hout1]]].
    destruct (IH a1) as [a2 [c2 [Hrest Hout2]]].
    exists a2, (c2 || c1)%bool. split.
    + intros n. rewrite Hstep, Hrest. destruct c2, c1; reflexivity.
    + intros Hc. apply orb_false_iff in Hc. destruct Hc as [-> ->].
      rewrite Hout2, Hout1; reflexivity.
Qed.

(** A pass resets the counter or leaves it alone; what it does to the
    analysis does not depend on the counter, and a pass that leaves the
    counter alone leaves the definitions at the end of every block alone. *)
Lemma pass_counter (a : Analysis) :
  exists a' (changed : bool),
    (forall n, Pass a n = (a', if changed then 0 else n))
    /\ (changed = false -> outDefinitions a' = outDefinitions a).
Proof.
  unfold pass, analyzeBlocks.
  destruct (analyzeBlocks_fold_counter (basicBlocks function) a)
    as [a1 [c [Hfold Hout]]].
  eexists. exists c. split.
  - intros n. rewrite Hfold. simpl. reflexivity.
  - simpl. exact Hout.
Qed.

Lemma pass_fst (a : Analysis) (n : Z) : fst (Pass a n) = fst (Pass a 1).
Proof.
  destruct (pass_counter a) as [a' [c [H _]]]. rewrite !H. reflexivity.
Qed.

Lemma pass_snd (a : Analysis) (n : Z) :
  n <> 0 -> (snd (Pass a n) = n <-> Stable a) /\ (snd (Pass a n) = n \/ snd (Pass a n) = 0).
Proof.
  intros Hn. unfold stable.
  destruct (pass_counter a) as [a' [c [H _]]]. rewrite !H. simpl.
  destruct c; split; try tauto; split; intros; congruence.
Qed.

Lemma stable_outDefinitions (a : Analysis) :
  Stable a -> outDefinitions (fst (Pass a 1)) = outDefinitions a.
Proof.
  unfold stable.
  destruct (pass_counter a) as [a' [c [H Hout]]]. rewrite !H. simpl.
  destruct c; [discriminate|]. intros _. apply Hout. reflexivity.
Qed.

Lemma passes_succ (n : Z) (start : Analysis) :
  0 <= n ->
  Passes (Z.to_nat (n + 1)) start = fst (Pass (Passes (Z.to_nat n) start) 1).
Proof.
  intros Hn. rewrite Z2Nat.inj_add by lia. rewrite Nat.add_comm. reflexivity.
Qed.

(** One turn of the loop. *)
Lemma analyzeLoop_turn (canceled : CancellationToken) (fuel : nat)
    (niterations0 nfixpoints0 : Z) (a : Analysis) :
  analyzeLoop architecture operators (S fuel) function canceled
    niterations0 nfixpoints0 a
  = if nfixpoints0 <? 3 then
      if niterations0 + 1 >=? 30 then
        Some (MakeOutcome GivenUp
                (MakeAnalysis (store (fst (Pass a (nfixpoints0 + 1))))
                   (outDefinitions (fst (Pass a (nfixpoints0 + 1))))
                   (FixpointNotReached (niterations0 + 1)
                      :: log (fst (Pass a (nfixpoints0 + 1)))))
                (niterations0 + 1) (snd (Pass a (nfixpoints0 + 1))))
      else if canceled (niterations0 + 1) then
        Some (MakeOutcome Canceled (fst (Pass a (nfixpoints0 + 1)))
                (niterations0 + 1) (snd (Pass a (nfixpoints0 + 1))))
      else
        analyzeLoop architecture operators fuel function canceled
          (niterations0 + 1) (snd (Pass a (nfixpoints0 + 1)))
          (fst (Pass a (nfixpoints0 + 1)))
    else Some (MakeOutcome FixpointReached a niterations0 (nfixpoints0 + 1)).
Proof. reflexivity. Qed.

(** The loop, entered after [niterations] turns of which the last
    [nfixpoints] were stable, is left within the fuel that remains up to
    thirty turns. *)
Lemma analyzeLoop_exits (canceled : CancellationToken) (start : Analysis)
    (fuel : nat) :
  forall (niterations0 nfixpoints0 : Z) (a : Analysis),
    0 <= niterations0 < 30 ->
    30 - niterations0 <= Z.of_nat fuel ->
    0 <= nfixpoints0 <= 3 ->
    nfixpoints0 <= niterations0 ->
    a = Passes (Z.to_nat niterations0) start ->
    (forall i, 1 <= i <= nfixpoints0 ->
               Stable (Passes (Z.to_nat (niterations0 - i)) start)) ->
    exists o,
      analyzeLoop architecture operators fuel function canceled
        niterations0 nfixpoints0 a = Some o
      /\ 0 <= niterations o <= 30
      /\ store (analysis o) = store (Passes (Z.to_nat (niterations o)) start)
      /\ outDefinitions (analysis o)
         = outDefinitions (Passes (Z.to_nat (niterations o)) start)
      /\ match exit o with
         | FixpointReached =>
             3 <= niterations o < 30
             /\ (forall i, 1 <= i <= 3 ->
                   Stable (Passes (Z.to_nat (niterations o - i)) start))
             /\ log (analysis o) = log (Passes (Z.to_nat (niterations o)) start)
         | GivenUp =>
             niterations o = 30
             /\ log (analysis o)
                = FixpointNotReached 30 :: log (Passes 30 start)
         | Canceled =>
             niterations o < 30 /\ canceled (niterations o) = true
         end.
Proof.
  induction fuel as [|fuel IH];
    intros niter nfix a Hniter Hfuel Hnfix Hle Ha Hstable.
  - simpl in Hfuel. lia.
  - rewrite analyzeLoop_turn. destruct (nfix <? 3) eqn:Hlt.
    + apply Z.ltb_lt in Hlt.
      assert (Hfst : fst (Pass a (nfix + 1)) = Passes (Z.to_nat (niter + 1)) start).
      { rewrite pass_fst, passes_succ by lia. rewrite <- Ha. reflexivity. }
      destruct (niter + 1 >=? 30) eqn:Hcap.
      * apply Z.geb_le in Hcap. assert (Hthirty : niter + 1 = 30) by lia.
        eexists. split; [reflexivity|].
        cbn [exit niterations analysis store outDefinitions log].
        rewrite Hfst, Hthirty. repeat split; try lia; reflexivity.
      * assert (Hbelow : niter + 1 < 30).
        { destruct (Z.geb_spec (niter + 1) 30); [discriminate|lia]. }
        destruct (canceled (niter + 1)) eqn:Hpoll.
        { eexists. split; [reflexivity|].
          cbn [exit niterations analysis store outDefinitions log].
          rewrite Hfst. repeat split; try lia. exact Hpoll. }
        destruct (pass_snd a (nfix + 1)) as [Hiff Hcases]; [lia|].
        apply IH.
        -- lia.
        -- lia.
        -- destruct Hcases as [-> | ->]; lia.
        -- destruct Hcases as [-> | ->]; lia.
        -- exact Hfst.
        -- intros i Hi. destruct Hcases as [Hkept|Hreset].
           ++ rewrite Hkept in Hi.
              destruct (Z.eq_dec i 1) as [->|Hne].
              ** replace (niter + 1 - 1) with niter by lia.
                 rewrite <- Ha. apply Hiff. exact Hkept.
              ** replace (niter + 1 - i) with (niter - (i - 1)) by lia.
                 apply Hstable. lia.
           ++ rewrite Hreset in Hi. lia.
    + apply Z.ltb_ge in Hlt. assert (Hthree : nfix = 3) by lia.
      eexists. split; [reflexivity|].
      cbn [exit niterations analysis store outDefinitions log].
      rewrite <- Ha. repeat split; try lia.
      intros i Hi. apply Hstable. lia.
Qed.

End Driver.

(** ** The warnings do not steer the analysis *)

Section Warnings.

Variable architecture : Architecture.t.
Variable operators : AbstractOperators.

(** Two executions agree when they have the same store and the same
    context; their warnings may differ. *)
Local Abbreviation Agree e1 e2 :=
  (dataflow e1 = dataflow e2 /\ context e1 = context e2).

Lemma setMemoryLocation_agree (term : Term.Info)
    (newMemoryLocation : MemoryLocation.t) (e1 e2 : Execution) :
  Agree e1 e2 ->
  Agree (setMemoryLocation architecture term newMemoryLocation e1)
        (setMemoryLocation architecture term newMemoryLocation e2).
Proof.
  destruct e1 as [df1 c1 w1], e2 as [df2 c2 w2]. simpl.
  intros [-> ->].
  unfold setMemoryLocation, rememberLocation, updateDefinitions,
    withDataflow, withContext. simpl.
  repeat match goal with
         | |- context [if ?b then _ else _] => destruct b; simpl
         end; split; reflexivity.
Qed.

Lemma transferUnary_agree (unary : Term.Info) (operatorKind : Term.UnaryKind)
    (operand : Term.Info) (e1 e2 : Execution) :
  Agree e1 e2 ->
  Agree (transferUnary operators unary operatorKind operand e1)
        (transferUnary operators unary operatorKind operand e2).
Proof.
  destruct e1 as [df1 c1 w1], e2 as [df2 c2 w2]. simpl.
  intros [-> ->]. unfold transferUnary. simpl. split; reflexivity.
Qed.

Lemma transferBinary_agree (binary : Term.Info) (operatorKind : Term.BinaryKind)
    (left right : Term.Info) (e1 e2 : Execution) :
  Agree e1 e2 ->
  Agree (transferBinary operators binary operatorKind left right e1)
        (transferBinary operators binary operatorKind left right e2).
Proof.
  destruct e1 as [df1 c1 w1], e2 as [df2 c2 w2]. simpl.
  intros [-> ->]. unfold transferBinary. simpl. split; reflexivity.
Qed.

Lemma withDataflow_agree (f : Dataflow.t -> Dataflow.t) (e1 e2 : Execution) :
  Agree e1 e2 -> Agree (withDataflow f e1) (withDataflow f e2).
Proof. intros [Hd Hc]. unfold withDataflow. simpl. rewrite Hd. auto. Qed.

Lemma ncWarning_agree (w1 w2 : Warning) (e1 e2 : Execution) :
  Agree e1 e2 -> Agree (ncWarning w1 e1) (ncWarning w2 e2).
Proof. intros [Hd Hc]. split; assumption. Qed.

Lemma execute_agree (term : Term.t) :
  forall e1 e2 : Execution,
    Agree e1 e2 ->
    Agree (execute architecture operators term e1)
          (execute architecture operators term e2).
Proof.
  induction term as
    [i value|i kind|i location|i domain address IH|i kind operand IH
    |i kind l IHl r IHr|i preferred IHp default IHd|i kind];
    intros e1 e2 Hagree.
  - apply withDataflow_agree. exact Hagree.
  - destruct kind;
      try (apply withDataflow_agree; exact Hagree);
      try (apply ncWarning_agree; exact Hagree).
    destruct Hagree as [Hd Hc]. simpl. unfold withDataflow. simpl.
    rewrite Hd, Hc. auto.
  - apply setMemoryLocation_agree. exact Hagree.
  - simpl. specialize (IH e1 e2 Hagree).
    destruct IH as [Hd Hc]. rewrite Hd.
    apply setMemoryLocation_agree. auto.
  - simpl. unfold executeUnaryOperator. apply transferUnary_agree.
    apply IH. exact Hagree.
  - simpl. unfold executeBinaryOperator. apply transferBinary_agree.
    apply IHr. apply IHl. exact Hagree.
  - apply (withDataflow_agree
             (selectChoice i (Term.info preferred) (Term.info default))
             (execute architecture operators default
                (execute architecture operators preferred e1))
             (execute architecture operators default
                (execute architecture operators preferred e2))).
    apply IHd. apply IHp. exact Hagree.
  - apply ncWarning_agree. exact Hagree.
Qed.

Lemma executeStatement_agree (statement : Statement) (e1 e2 : Execution) :
  Agree e1 e2 ->
  Agree (executeStatement architecture operators statement e1)
        (executeStatement architecture operators statement e2).
Proof.
  intros Hagree.
  destruct statement as
    [|l r|condition thenAddress elseAddress|target| |term|hook|kind]; simpl.
  - exact Hagree.
  - apply execute_agree. apply execute_agree. exact Hagree.
  - unfold executeOptional.
    destruct condition, thenAddress, elseAddress;
      repeat apply execute_agree; exact Hagree.
  - apply execute_agree. exact Hagree.
  - exact Hagree.
  - apply execute_agree. exact Hagree.
  - apply withDataflow_agree. exact Hagree.
  - exact (ncWarning_agree (UnknownStatementKind kind)
             (UnknownStatementKind kind) e1 e2 Hagree).
Qed.

Lemma executeStatements_agree (statements : list Statement) :
  forall e1 e2 : Execution,
    Agree e1 e2 ->
    Agree (List.fold_left
             (fun e s => executeStatement architecture operators s e)
             statements e1)
          (List.fold_left
             (fun e s => executeStatement architecture operators s e)
             statements e2).
Proof.
  induction statements as [|s statements IH]; intros e1 e2 Hagree; simpl.
  - exact Hagree.
  - apply IH. apply executeStatement_agree. exact Hagree.
Qed.

Variable function : Function.

(** A block does the same to the store, to the definitions at the end of
    the blocks and to the counter, whatever the warnings so far. *)
Lemma analyzeBlock_agree (basicBlock : BasicBlock) (a1 a2 : Analysis) (n : Z) :
  store a1 = store a2 -> outDefinitions a1 = outDefinitions a2 ->
  let r1 := analyzeBlock architecture operators function (a1, n) basicBlock in
  let r2 := analyzeBlock architecture operators function (a2, n) basicBlock in
  store (fst r1) = store (fst r2)
  /\ outDefinitions (fst r1) = outDefinitions (fst r2)
  /\ snd r1 = snd r2.
Proof.
  intros Hs Ho r1 r2. subst r1 r2. unfold analyzeBlock. simpl.
  assert (Hrun :
    Agree (runBlock architecture operators function basicBlock a1)
          (runBlock architecture operators function basicBlock a2)).
  { unfold runBlock. apply executeStatements_agree. simpl.
    unfold enterBlock. rewrite Hs, Ho. auto. }
  destruct Hrun as [Hd Hc]. rewrite Hd, Hc, Ho.
  destruct (negb _); simpl; auto.
Qed.

Lemma analyzeBlocks_agree (blocks : list BasicBlock) :
  forall (a1 a2 : Analysis) (n : Z),
    store a1 = store a2 -> outDefinitions a1 = outDefinitions a2 ->
    let r1 :=
      List.fold_left (analyzeBlock architecture operators function) blocks (a1, n) in
    let r2 :=
      List.fold_left (analyzeBlock architecture operators function) blocks (a2, n) in
    store (fst r1) = store (fst r2)
    /\ outDefinitions (fst r1) = outDefinitions (fst r2)
    /\ snd r1 = snd r2.
Proof.
  induction blocks as [|b blocks IH]; intros a1 a2 n Hs Ho; simpl.
  - auto.
  - destruct (analyzeBlock_agree b a1 a2 n Hs Ho) as [Hs' [Ho' Hn']].
    destruct (analyzeBlock architecture operators function (a1, n) b)
      as [b1 n1].
    destruct (analyzeBlock architecture operators function (a2, n) b)
      as [b2 n2].
    simpl in *. subst n2. apply IH; assumption.
Qed.

Lemma pass_agree (a1 a2 : Analysis) (n : Z) :
  store a1 = store a2 -> outDefinitions a1 = outDefinitions a2 ->
  store (fst (pass architecture operators function a1 n))
  = store (fst (pass architecture operators function a2 n))
  /\ outDefinitions (fst (pass architecture operators function a1 n))
     = outDefinitions (fst (pass architecture operators function a2 n))
  /\ snd (pass architecture operators function a1 n)
     = snd (pass architecture operators function a2 n).
Proof.
  intros Hs Ho. unfold pass, analyzeBlocks. simpl.
  destruct (analyzeBlocks_agree (basicBlocks function) a1 a2 n Hs Ho)
    as [Hs' [Ho' Hn']].
  rewrite Hs', Ho', Hn'. auto.
Qed.

End Warnings.

(** ** The claims on the fixpoint driver *)






(** A run of C10: no definition reaches the read. *)
Lemma mergeReachingValues_empty_unchanged_witness :
  mergeReachingValues Sample.architecture (Sample.reader 2) Sample.register []
    Sample.twoWritesStore
  = Sample.twoWritesStore.
Proof.
  assert (Hempty : ReachingDefinitions.empty [] = true) by reflexivity.
  exact (proj1 (mergeReachingValues_empty_unchanged Sample.architecture
                  (Sample.reader 2) Sample.register [] Sample.twoWritesStore
                  Hempty)).
Defined.


(** A run of C7: a write that moves from the stack to the register leaves
    the context without its old definition. *)
Example setMemoryLocation_moves_term_example :
  let stackSlot := MemoryLocation.Make STACK (-64) 32 in
  let e :=
    MakeExecution
      (Dataflow.setMemoryLocation (Sample.writer 1) stackSlot Dataflow.initial)
      [ReachingDefinitions.MakeChunk stackSlot [Sample.writer 1]] [] in
  context (setMemoryLocation Sample.architecture (Sample.writer 1)
             Sample.register e)
  = [ReachingDefinitions.MakeChunk Sample.register [Sample.writer 1]].
Proof. vm_compute. reflexivity. Qed.

(** * Further properties of the analyzer *)

(** ** The cleanup at the end of analyze *)

(** What [removeDisappeared] leaves in the three maps. *)
Lemma removeDisappeared_lookup (function : Function) (df : Dataflow.t)
    (key : positive) :
  let df' := removeDisappeared function df in
  (disappeared function key = true ->
   Dataflow.term2value df' !! key = None
   /\ Dataflow.term2location df' !! key = None
   /\ Dataflow.term2definitions df' !! key = None)
  /\ (disappeared function key = false ->
      Dataflow.term2value df' !! key = Dataflow.term2value df !! key
      /\ Dataflow.term2location df' !! key = Dataflow.term2location df !! key
      /\ Dataflow.term2definitions df' !! key
         = ReachingDefinitions.filterOut
             (fun _ term => disappeared function (Term.id term))
           <$> Dataflow.term2definitions df !! key).
Proof.
  intros df'. subst df'. unfold removeDisappeared. simpl. split.
  - intros Hgone. repeat split; apply map_lookup_filter_None_2;
      (destruct (_ !! key) eqn:Hlookup; [right|left; reflexivity]);
      intros x _; simpl; congruence.
  - intros Hkept.
    assert (Hfilter : forall (A : Type) (m : gmap positive A),
      filter (fun entry : positive * A => disappeared function (fst entry) = false) m
        !! key = m !! key).
    { intros A m. rewrite map_lookup_filter.
      destruct (m !! key); [|reflexivity]. simpl.
      rewrite option_guard_True by exact Hkept. reflexivity. }
    rewrite !Hfilter, lookup_fmap. repeat split.
Qed.

(** A set of definitions filtered for disappeared terms names none. *)
Lemma filterOut_disappeared (function : Function) (rd : ReachingDefinitions.t)
    (l : MemoryLocation.t) (d : Term.Info) :
  ReachingDefinitions.contains
    (ReachingDefinitions.filterOut
       (fun _ term => disappeared function (Term.id term)) rd) l d ->
  disappeared function (Term.id d) = false.
Proof.
  intros [c [Hin [_ [d' [Hd Hsame]]]]].
  apply filterOut_In in Hin. destruct Hin as [c0 [_ [_ Hdefs]]].
  rewrite Hdefs in Hd. apply List.filter_In in Hd. destruct Hd as [_ Hneg].
  apply negb_true_iff in Hneg.
  apply same_true_id in Hsame. rewrite <- Hsame. exact Hneg.
Qed.

(** X1.  When [analyze] ends without being canceled, the store holds no
    value, no location and no definitions for a term that disappeared, no
    set of definitions left in it names such a term, and the values and
    locations of the other terms are those the loop ended with. *)
Theorem analyze_forgets_disappeared_terms (architecture : Architecture.t)
    (operators : AbstractOperators) (fuel : nat) (function : Function)
    (canceled : CancellationToken) (df : Dataflow.t) (o : Outcome) :
  analyze architecture operators fuel function canceled df = Some o ->
  exit o <> Canceled ->
  exists loop,
    analyzeLoop architecture operators fuel function canceled 0 0
      (MakeAnalysis df ∅ []) = Some loop
    /\ (forall key, disappeared function key = true ->
          Dataflow.term2value (store (analysis o)) !! key = None
          /\ Dataflow.term2location (store (analysis o)) !! key = None
          /\ Dataflow.term2definitions (store (analysis o)) !! key = None)
    /\ (forall key rd l d,
          Dataflow.term2definitions (store (analysis o)) !! key = Some rd ->
          ReachingDefinitions.contains rd l d ->
          disappeared function (Term.id d) = false)
    /\ (forall key, disappeared function key = false ->
          Dataflow.term2value (store (analysis o)) !! key
          = Dataflow.term2value (store (analysis loop)) !! key
          /\ Dataflow.term2location (store (analysis o)) !! key
             = Dataflow.term2location (store (analysis loop)) !! key).
Proof.
  unfold analyze. intros Hanalyze Hexit.
  destruct (analyzeLoop architecture operators fuel function canceled 0 0
              (MakeAnalysis df ∅ [])) as [loop|]; [|discriminate].
  exists loop. split; [reflexivity|].
  assert (Hstore :
    store (analysis o) = removeDisappeared function (store (analysis loop))).
  { destruct (exit loop) eqn:Hkind; injection Hanalyze as <-; simpl in *;
      try reflexivity. congruence. }
  rewrite Hstore. split; [|split].
  - intros key Hgone.
    apply (removeDisappeared_lookup function (store (analysis loop)) key).
    exact Hgone.
  - intros key rd l d Hlookup Hcontains.
    destruct (disappeared function key) eqn:Hkey.
    + destruct (removeDisappeared_lookup function (store (analysis loop)) key)
        as [Hgone _].
      destruct (Hgone Hkey) as [_ [_ Hnone]]. congruence.
    + destruct (removeDisappeared_lookup function (store (analysis loop)) key)
        as [_ Hkept].
      destruct (Hkept Hkey) as [_ [_ Hdefs]].
      rewrite Hdefs in Hlookup.
      destruct (Dataflow.term2definitions (store (analysis loop)) !! key)
        as [rd0|]; [|discriminate].
      injection Hlookup as <-.
      eapply filterOut_disappeared. exact Hcontains.
  - intros key Hkept.
    destruct (removeDisappeared_lookup function (store (analysis loop)) key)
      as [_ Hk].
    destruct (Hk Hkept) as [Hv [Hl _]]. auto.
Qed.

(** Inputs for the examples of this part. *)
Module Scenario.

(** The function of two blocks once more; the write of the register (term
    1) is in a statement that no basic block holds any more. *)
Definition vanishing : Function :=
  MakeFunction
    [MakeBasicBlock 2 [TOUCH Sample.choice];
     MakeBasicBlock 1 [TOUCH Sample.registerWrite]]
    (fun block => if (block =? 2)%positive then [1%positive] else [])
    (fun key => (key =? 1)%positive).

End Scenario.

(** A run of X1: the write that disappeared has no location left. *)
Lemma analyze_forgets_disappeared_terms_witness :
  exists o,
    analyze Sample.architecture Sample.operators 30 Scenario.vanishing
      Sample.neverCanceled Dataflow.initial = Some o
    /\ Dataflow.term2location (store (analysis o)) !! 1%positive = None.
Proof.
  eexists. split; [vm_compute; reflexivity|].
  match goal with
  | |- Dataflow.term2location (store (analysis ?o)) !! _ = None =>
      destruct (analyze_forgets_disappeared_terms Sample.architecture
                  Sample.operators 30 Scenario.vanishing Sample.neverCanceled
                  Dataflow.initial o) as [loop [_ [Hgone _]]];
        [vm_compute; reflexivity|discriminate|]
  end.
  destruct (Hgone 1%positive eq_refl) as [_ [Hlocation _]].
  exact Hlocation.
Defined.

(** ** What an evaluation leaves alone *)

Lemma getMemoryLocation_setMemoryLocation_other (x term : Term.Info)
    (l : MemoryLocation.t) (df : Dataflow.t) :
  Term.id x <> Term.id term ->
  Dataflow.getMemoryLocation x (Dataflow.setMemoryLocation term l df)
  = Dataflow.getMemoryLocation x df.
Proof.
  intros Hne. unfold Dataflow.getMemoryLocation, Dataflow.setMemoryLocation.
  simpl. rewrite lookup_insert_ne by congruence. reflexivity.
Qed.

Lemma getDefinitions_setDefinitions_other (x term : Term.Info)
    (rd : ReachingDefinitions.t) (df : Dataflow.t) :
  Term.id x <> Term.id term ->
  Dataflow.getDefinitions x (Dataflow.setDefinitions term rd df)
  = Dataflow.getDefinitions x df.
Proof.
  intros Hne. unfold Dataflow.getDefinitions, Dataflow.setDefinitions.
  simpl. rewrite lookup_insert_ne by congruence. reflexivity.
Qed.

Lemma getMemoryLocation_updateValue (x term : Term.Info)
    (f : Value.t -> Value.t) (df : Dataflow.t) :
  Dataflow.getMemoryLocation x (updateValue term f df)
  = Dataflow.getMemoryLocation x df.
Proof. reflexivity. Qed.

Lemma getDefinitions_updateValue (x term : Term.Info)
    (f : Value.t -> Value.t) (df : Dataflow.t) :
  Dataflow.getDefinitions x (updateValue term f df)
  = Dataflow.getDefinitions x df.
Proof. reflexivity. Qed.

Lemma getMemoryLocation_setValue (x term : Term.Info) (v : Value.t)
    (df : Dataflow.t) :
  Dataflow.getMemoryLocation x (Dataflow.setValue term v df)
  = Dataflow.getMemoryLocation x df.
Proof. reflexivity. Qed.

Lemma getDefinitions_setValue (x term : Term.Info) (v : Value.t)
    (df : Dataflow.t) :
  Dataflow.getDefinitions x (Dataflow.setValue term v df)
  = Dataflow.getDefinitions x df.
Proof. reflexivity. Qed.

Section Untouched.

Variable architecture : Architecture.t.
Variable operators : AbstractOperators.


Lemma setMemoryLocation_location_other (x term : Term.Info)
    (newMemoryLocation : MemoryLocation.t) (e : Execution) :
  Term.id x <> Term.id term ->
  Dataflow.getMemoryLocation x
    (dataflow (setMemoryLocation architecture term newMemoryLocation e))
  = Dataflow.getMemoryLocation x (dataflow e).
Proof.
  intros Hne. unfold setMemoryLocation.
  rewrite updateDefinitions_getMemoryLocation. unfold rememberLocation.
  destruct (bool_decide _); [|reflexivity].
  destruct (MemoryLocation.valid _ && Term.isWrite term); simpl;
    apply getMemoryLocation_setMemoryLocation_other; exact Hne.
Qed.

Lemma setMemoryLocation_definitions_other (x term : Term.Info)
    (newMemoryLocation : MemoryLocation.t) (e : Execution) :
  Term.id x <> Term.id term ->
  Dataflow.getDefinitions x
    (dataflow (setMemoryLocation architecture term newMemoryLocation e))
  = Dataflow.getDefinitions x (dataflow e).
Proof.
  intros Hne. unfold setMemoryLocation.
  set (old := Dataflow.getMemoryLocation term (dataflow e)).
  assert (Hremembered :
    Dataflow.getDefinitions x
      (dataflow (rememberLocation term old newMemoryLocation e))
    = Dataflow.getDefinitions x (dataflow e)).
  { unfold rememberLocation. destruct (bool_decide _); [|reflexivity].
    destruct (MemoryLocation.valid _ && Term.isWrite term); reflexivity. }
  rewrite <- Hremembered.
  generalize (rememberLocation term old newMemoryLocation e). intros e1.
  unfold updateDefinitions.
  destruct (MemoryLocation.valid newMemoryLocation
            && negb (Architecture.isGlobalMemory architecture newMemoryLocation)).
  - destruct (Term.isRead term), (Term.isWrite term), (Term.isKill term); simpl;
      rewrite ?mergeReachingValues_getDefinitions;
      rewrite ?getDefinitions_setDefinitions_other by exact Hne; reflexivity.
  - destruct (Term.isRead term && MemoryLocation.valid old); simpl;
      rewrite ?getDefinitions_setDefinitions_other by exact Hne; reflexivity.
Qed.


End Untouched.

(** A term touches memory when an access or a dereference is in its tree. *)
Fixpoint touchesMemory (term : Term.t) : bool :=
  match term with
  | Term.MEMORY_LOCATION_ACCESS _ _ | Term.DEREFERENCE _ _ _ => true
  | Term.UNARY_OPERATOR _ _ operand => touchesMemory operand
  | Term.BINARY_OPERATOR _ _ l r => touchesMemory l || touchesMemory r
  | Term.CHOICE _ preferred default =>
      touchesMemory preferred || touchesMemory default
  | _ => false
  end.

(** The terms a statement has evaluated, in the order of evaluation. *)
Definition statementTerms (statement : Statement) : list Term.t :=
  match statement with
  | ASSIGNMENT l r => [r; l]
  | JUMP condition thenTargetAddress elseTargetAddress =>
      option_list condition ++ option_list thenTargetAddress
      ++ option_list elseTargetAddress
  | CALL target => [target]
  | TOUCH term => [term]
  | _ => []
  end.

Lemma filterOut_contains (pred : MemoryLocation.t -> Term.Info -> bool)
    (rd : ReachingDefinitions.t) (l : MemoryLocation.t) (d : Term.Info) :
  ReachingDefinitions.contains (ReachingDefinitions.filterOut pred rd) l d ->
  ReachingDefinitions.contains rd l d.
Proof.
  intros [c [Hin [Hloc [d' [Hd Hsame]]]]].
  apply filterOut_In in Hin. destruct Hin as [c0 [Hin0 [Hl Hdefs]]].
  exists c0. split; [exact Hin0|]. split; [congruence|].
  exists d'. rewrite Hdefs in Hd. apply List.filter_In in Hd.
  destruct Hd as [Hd _]. auto.
Qed.

Section Context.

Variable architecture : Architecture.t.
Variable operators : AbstractOperators.

(** Without an access or a dereference an evaluation works on values only. *)
Lemma execute_without_memory (term : Term.t) :
  touchesMemory term = false ->
  forall e : Execution,
    context (execute architecture operators term e) = context e
    /\ Dataflow.term2location (dataflow (execute architecture operators term e))
       = Dataflow.term2location (dataflow e).
Proof.
  induction term as
    [i value|i kind|i location|i domain address IH|i kind operand IH
    |i kind l IHl r IHr|i preferred IHp default IHd|i kind];
    intros Hnone e; simpl in Hnone; try discriminate.
  - split; reflexivity.
  - destruct kind; split; reflexivity.
  - simpl. unfold executeUnaryOperator, transferUnary. simpl.
    apply IH. exact Hnone.
  - apply orb_false_iff in Hnone. destruct Hnone as [Hl Hr].
    simpl. unfold executeBinaryOperator, transferBinary. simpl.
    destruct (IHl Hl e) as [Hc1 Hl1].
    destruct (IHr Hr (execute architecture operators l e)) as [Hc2 Hl2].
    split; congruence.
  - apply orb_false_iff in Hnone. destruct Hnone as [Hp Hd].
    simpl.
    destruct (IHp Hp e) as [Hc1 Hl1].
    destruct (IHd Hd (execute architecture operators preferred e)) as [Hc2 Hl2].
    unfold selectChoice. destruct (negb _); simpl; split; congruence.
  - split; reflexivity.
Qed.

(** A statement that evaluates no access and no dereference works on
    values only. *)
Lemma executeStatement_without_memory (statement : Statement)
    (e : Execution) :
  Forall (fun term => touchesMemory term = false) (statementTerms statement) ->
  let e' := executeStatement architecture operators statement e in
  context e' = context e
  /\ match statement with
     | CALLBACK _ => True
     | _ => Dataflow.term2location (dataflow e')
            = Dataflow.term2location (dataflow e)
     end.
Proof.
  intros Hterms e'. subst e'.
  destruct statement as
    [|l r|condition thenAddress elseAddress|target| |term|hook|kind];
    simpl in *.
  - split; reflexivity.
  - inversion Hterms as [|? ? Hr Hrest]; subst.
    inversion Hrest as [|? ? Hl _]; subst.
    destruct (execute_without_memory r Hr e) as [Hc1 Hl1].
    destruct (execute_without_memory l Hl (execute architecture operators r e))
      as [Hc2 Hl2].
    split; congruence.
  - assert (Hopt : forall (t : option Term.t) e0,
      Forall (fun term => touchesMemory term = false) (option_list t) ->
      context (executeOptional architecture operators t e0) = context e0
      /\ Dataflow.term2location
           (dataflow (executeOptional architecture operators t e0))
         = Dataflow.term2location (dataflow e0)).
    { intros [t|] e0 Ht; simpl; [|split; reflexivity].
      inversion Ht; subst. apply execute_without_memory. assumption. }
    apply Forall_app in Hterms. destruct Hterms as [Hc Hterms].
    apply Forall_app in Hterms. destruct Hterms as [Ht He].
    destruct (Hopt condition e Hc) as [Hc1 Hl1].
    destruct (Hopt thenAddress
                (executeOptional architecture operators condition e) Ht)
      as [Hc2 Hl2].
    destruct (Hopt elseAddress
                (executeOptional architecture operators thenAddress
                   (executeOptional architecture operators condition e)) He)
      as [Hc3 Hl3].
    split; congruence.
  - inversion Hterms; subst. apply execute_without_memory. assumption.
  - split; reflexivity.
  - inversion Hterms; subst. apply execute_without_memory. assumption.
  - split; [reflexivity|exact I].
  - split; reflexivity.
Qed.

(** X3.  A statement none of whose terms has an access or a dereference in
    its tree leaves the reaching definitions of the context as they are;
    unless it is a callback, it leaves the locations of all terms as they
    are too.  (Inline assembly, returns, callbacks and statements of unknown
    kind evaluate no term.) *)
Theorem statement_without_memory_keeps_context (statement : Statement)
    (e : Execution) :
  Forall (fun term => touchesMemory term = false) (statementTerms statement) ->
  let e' := executeStatement architecture operators statement e in
  context e' = context e
  /\ match statement with
     | CALLBACK _ => True
     | _ => Dataflow.term2location (dataflow e')
            = Dataflow.term2location (dataflow e)
     end.
Proof. apply executeStatement_without_memory. Qed.

(** X15.  A location that is empty or in global memory is not tracked:
    [setMemoryLocation] merges no value (every Value is as before), adds no
    pair to the context (it can only lose the pairs of a write that moved),
    and leaves the term with the definitions it had or with none. *)
Theorem untracked_location_defines_nothing (term : Term.Info)
    (newMemoryLocation : MemoryLocation.t) (e : Execution) :
  MemoryLocation.valid newMemoryLocation = false
  \/ Architecture.isGlobalMemory architecture newMemoryLocation = true ->
  let e' := setMemoryLocation architecture term newMemoryLocation e in
  (forall x, Dataflow.getValue x (dataflow e') = Dataflow.getValue x (dataflow e))
  /\ (forall l d, ReachingDefinitions.contains (context e') l d ->
                  ReachingDefinitions.contains (context e) l d)
  /\ (Dataflow.getDefinitions term (dataflow e') = []
      \/ Dataflow.getDefinitions term (dataflow e')
         = Dataflow.getDefinitions term (dataflow e))
  /\ warnings e' = warnings e.
Proof.
  intros Huntracked e'. subst e'. unfold setMemoryLocation.
  set (old := Dataflow.getMemoryLocation term (dataflow e)).
  assert (Hcond : MemoryLocation.valid newMemoryLocation
                  && negb (Architecture.isGlobalMemory architecture
                             newMemoryLocation) = false).
  { destruct Huntracked as [->| ->]; [reflexivity|].
    apply andb_false_iff. right. reflexivity. }
  unfold updateDefinitions. rewrite Hcond.
  assert (Hremembered :
    (forall x,
       Dataflow.getValue x (dataflow (rememberLocation term old newMemoryLocation e))
       = Dataflow.getValue x (dataflow e))
    /\ (forall l d,
          ReachingDefinitions.contains
            (context (rememberLocation term old newMemoryLocation e)) l d ->
          ReachingDefinitions.contains (context e) l d)
    /\ Dataflow.getDefinitions term
         (dataflow (rememberLocation term old newMemoryLocation e))
       = Dataflow.getDefinitions term (dataflow e)
    /\ warnings (rememberLocation term old newMemoryLocation e) = warnings e).
  { split; [intros x; apply rememberLocation_getValue|].
    unfold rememberLocation. destruct (bool_decide _); [|auto].
    destruct (MemoryLocation.valid old && Term.isWrite term); simpl; [|auto].
    split; [|auto]. intros l d. apply filterOut_contains. }
  destruct Hremembered as [Hv [Hc [Hd Hw]]].
  generalize dependent (rememberLocation term old newMemoryLocation e).
  intros e1 Hv Hc Hd Hw.
  destruct (Term.isRead term && MemoryLocation.valid old); simpl.
  - split; [intros x; rewrite <- Hv; apply getValue_ext; reflexivity|].
    split; [exact Hc|]. split; [|exact Hw].
    left. apply getDefinitions_setDefinitions.
  - split; [exact Hv|]. split; [exact Hc|]. split; [|exact Hw].
    right. exact Hd.
Qed.

End Context.

(** ** Flags of operators *)

Lemma binaryStackOffset_productState (operatorKind : Term.BinaryKind)
    (leftValue rightValue v : Value.t) :
  Value.productState (binaryStackOffset operatorKind leftValue rightValue v)
  = Value.productState v.
Proof.
  assert (Hmake : forall k w,
    Value.productState (Value.makeStackOffset k w) = Value.productState w).
  { intros k w. unfold Value.makeStackOffset.
    destruct (Value.stackOffsetState w); reflexivity. }
  unfold binaryStackOffset.
  destruct operatorKind;
    repeat match goal with
           | |- context [if ?b then _ else _] => destruct b
           end;
    simpl; rewrite ?Hmake; simpl; rewrite ?Hmake; reflexivity.
Qed.

Section OperatorFlags.

Variable architecture : Architecture.t.
Variable operators : AbstractOperators.

(** X4.  A unary operator that resizes its operand (sign extension, zero
    extension, truncation) takes over the flags of the operand, as the
    operand has them once evaluated: what the operand disclaims the result
    disclaims, what the operand asserts the result asserts unless it had
    disclaimed it, and what the operand leaves open is left as it was.
    Every other unary operator gives a result that is neither a stack offset
    nor a product. *)
Theorem unary_operator_flags (unary : Term.Info) (operatorKind : Term.UnaryKind)
    (operand : Term.t) (e : Execution) :
  let evaluated := execute architecture operators operand e in
  let O := Dataflow.getValue (Term.info operand) (dataflow evaluated) in
  let old := Dataflow.getValue unary (dataflow evaluated) in
  let new :=
    Dataflow.getValue unary
      (dataflow (execute architecture operators
                   (Term.UNARY_OPERATOR unary operatorKind operand) e)) in
  match operatorKind with
  | Term.SIGN_EXTEND | Term.ZERO_EXTEND | Term.TRUNCATE =>
      Value.stackOffsetState new
      = match Value.stackOffsetState O with
        | Value.NotStackOffset => Value.NotStackOffset
        | Value.IsStackOffset k =>
            match Value.stackOffsetState old with
            | Value.NotStackOffset => Value.NotStackOffset
            | _ => Value.IsStackOffset k
            end
        | Value.UnknownStackOffset => Value.stackOffsetState old
        end
      /\ Value.productState new
         = match Value.productState O with
           | Value.NotProduct => Value.NotProduct
           | Value.IsProduct =>
               match Value.productState old with
               | Value.NotProduct => Value.NotProduct
               | _ => Value.IsProduct
               end
           | Value.UnknownProduct => Value.productState old
           end
  | _ =>
      Value.stackOffsetState new = Value.NotStackOffset
      /\ Value.productState new = Value.NotProduct
  end.
Proof.
  intros evaluated O old new. subst new. simpl.
  unfold executeUnaryOperator, transferUnary. simpl. fold evaluated.
  rewrite getValue_updateValue. fold O. fold old.
  unfold unaryFlags, Value.isNotStackOffset, Value.isStackOffset,
    Value.stackOffset, Value.isNotProduct, Value.isProduct,
    Value.makeStackOffset, Value.makeProduct.
  destruct operatorKind; simpl; try (split; reflexivity);
    destruct (Value.stackOffsetState O), (Value.productState O),
      (Value.stackOffsetState old) eqn:Hs, (Value.productState old) eqn:Hp;
    simpl; rewrite ?Hs, ?Hp; simpl; rewrite ?Hs, ?Hp; split; reflexivity.
Qed.

(** X5.  The product flag of a binary operator does not depend on the
    operands: a multiplication or a left shift is a product unless an
    earlier evaluation has declared the term not to be one, and every other
    binary operator is not a product. *)
Theorem binary_operator_product_flag (binary : Term.Info)
    (operatorKind : Term.BinaryKind) (l r : Term.t) (e : Execution) :
  let evaluated :=
    execute architecture operators r (execute architecture operators l e) in
  let old := Dataflow.getValue binary (dataflow evaluated) in
  let new :=
    Dataflow.getValue binary
      (dataflow (execute architecture operators
                   (Term.BINARY_OPERATOR binary operatorKind l r) e)) in
  Value.productState new
  = match operatorKind with
    | Term.MUL | Term.SHL =>
        match Value.productState old with
        | Value.NotProduct => Value.NotProduct
        | _ => Value.IsProduct
        end
    | _ => Value.NotProduct
    end.
Proof.
  intros evaluated old new. subst new. simpl.
  unfold executeBinaryOperator, transferBinary. simpl. fold evaluated.
  rewrite getValue_updateValue. fold old.
  assert (Hproduct : forall v,
    Value.productState (binaryProduct operatorKind v)
    = match operatorKind with
      | Term.MUL | Term.SHL =>
          match Value.productState v with
          | Value.NotProduct => Value.NotProduct
          | _ => Value.IsProduct
          end
      | _ => Value.NotProduct
      end).
  { intros v. unfold binaryProduct, Value.makeProduct.
    destruct operatorKind; try reflexivity;
      destruct (Value.productState v) eqn:Hp; simpl; rewrite ?Hp; reflexivity. }
  rewrite Hproduct, binaryStackOffset_productState. reflexivity.
Qed.


End OperatorFlags.

(** ** Constants and what a dereference makes of them *)

(** The number of bits a size stands for in a word. *)
Definition maskWidth (nbits : Z) : Z :=
  if (0 <=? nbits) && (nbits <? Types.wordBits) then nbits else Types.wordBits.

Lemma maskWidth_range (nbits : Z) : 0 <= maskWidth nbits <= 64.
Proof.
  unfold maskWidth, Types.wordBits.
  destruct (0 <=? nbits) eqn:H0, (nbits <? 64) eqn:H1; simpl; lia.
Qed.

Lemma bitMask_ones (nbits : Z) :
  BitTwiddling.bitMask nbits = Z.ones (maskWidth nbits).
Proof.
  unfold BitTwiddling.bitMask, BitTwiddling.shiftLeft, maskWidth,
    Types.toConstantValue, Types.wordBits.
  destruct (nbits <? 64) eqn:Hlt.
  - rewrite Z.shiftl_1_l. destruct (0 <=? nbits) eqn:H0; simpl.
    + apply Z.leb_le in H0. apply Z.ltb_lt in Hlt.
      assert (Hpow : 0 < 2 ^ nbits < 2 ^ 64).
      { split; [apply Z.pow_pos_nonneg; lia|].
        apply Z.pow_lt_mono_r; lia. }
      rewrite (Z.mod_small (2 ^ nbits)) by lia.
      rewrite Z.mod_small by lia.
      rewrite Z.ones_equiv. lia.
    + apply Z.leb_gt in H0. rewrite Z.pow_neg_r by lia. reflexivity.
  - rewrite andb_false_r. reflexivity.
Qed.

(** The two masks of a sized value are complementary within the size. *)
Lemma ofSizedValue_bits (nbits value : Z) :
  let a := AbstractValue.ofSizedValue nbits value in
  Z.lxor (AbstractValue.zeroBits a) (AbstractValue.oneBits a)
  = BitTwiddling.bitMask nbits
  /\ Z.land (AbstractValue.zeroBits a) (AbstractValue.oneBits a) = 0
  /\ AbstractValue.oneBits a = value mod 2 ^ maskWidth nbits.
Proof.
  intros a. subst a.
  unfold AbstractValue.ofSizedValue, AbstractValue.make, Types.toConstantValue,
    Types.wordBits. simpl.
  rewrite bitMask_ones.
  pose proof (maskWidth_range nbits) as Hw.
  set (w := maskWidth nbits) in *.
  assert (Hbit : forall i, 0 <= i ->
    Z.testbit (Z.ones w) i = true -> i < 64
    /\ Z.testbit (Z.lnot value mod 2 ^ 64) i = negb (Z.testbit value i)
    /\ Z.testbit (value mod 2 ^ 64) i = Z.testbit value i).
  { intros i Hi Hones.
    assert (Hiw : i < w).
    { destruct (Z.lt_ge_cases i w) as [Hlt|Hge]; [exact Hlt|].
      rewrite Z.ones_spec_high in Hones by lia. discriminate. }
    split; [lia|].
    rewrite !Z.mod_pow2_bits_low by lia.
    rewrite Z.lnot_spec by lia. split; reflexivity. }
  split; [|split].
  - apply Z.bits_inj'. intros i Hi.
    rewrite Z.lxor_spec, !Z.land_spec.
    destruct (Z.testbit (Z.ones w) i) eqn:Hones.
    + destruct (Hbit i Hi Hones) as [_ [-> ->]].
      destruct (Z.testbit value i); reflexivity.
    + rewrite !andb_false_r. reflexivity.
  - apply Z.bits_inj'. intros i Hi.
    rewrite !Z.land_spec, Z.bits_0.
    destruct (Z.testbit (Z.ones w) i) eqn:Hones.
    + destruct (Hbit i Hi Hones) as [_ [-> ->]].
      destruct (Z.testbit value i); reflexivity.
    + rewrite !andb_false_r. reflexivity.
  - rewrite Z.land_ones by lia.
    apply Z.bits_inj'. intros i Hi.
    destruct (Z.lt_ge_cases i w) as [Hlt|Hge].
    + rewrite !Z.mod_pow2_bits_low by lia. reflexivity.
    + rewrite !Z.mod_pow2_bits_high by lia. reflexivity.
Qed.

(** The value of a term that is a constant of the program: an integer
    constant, the address of the instruction, the address of the next one. *)
Definition constantOf (term : Term.t) : option Z :=
  match term with
  | Term.INT_CONST _ value => Some value
  | Term.INTRINSIC i Term.INSTRUCTION_ADDRESS =>
      Some (Term.instructionAddr (Term.instruction i))
  | Term.INTRINSIC i Term.NEXT_INSTRUCTION_ADDRESS =>
      Some (Term.instructionAddr (Term.instruction i)
            + Term.instructionSize (Term.instruction i))
  | _ => None
  end.

Section Constants.

Variable architecture : Architecture.t.
Variable operators : AbstractOperators.

(** X6.  An integer constant, the address of the instruction and the
    address of the next instruction evaluate to a concrete abstract value of
    the size of the term, whose value is the constant cut to that size, and
    to a Value that is neither a stack offset nor a product, whatever the
    store held before. *)
Theorem constants_are_concrete (term : Term.t) (c : Z) (e : Execution) :
  constantOf term = Some c ->
  0 <= Term.size (Term.info term) <= 64 ->
  let v :=
    Dataflow.getValue (Term.info term)
      (dataflow (execute architecture operators term e)) in
  AbstractValue.isConcrete (Value.abstractValue v) = true
  /\ AbstractValue.isNondeterministic (Value.abstractValue v) = false
  /\ AbstractValue.size (Value.abstractValue v) = Term.size (Term.info term)
  /\ AbstractValue.value (Value.abstractValue v)
     = c mod 2 ^ Term.size (Term.info term)
  /\ Value.stackOffsetState v = Value.NotStackOffset
  /\ Value.productState v = Value.NotProduct.
Proof.
  intros Hconstant Hsize v.
  assert (Hv :
    v = Value.Build
          (AbstractValue.ofSizedValue (Term.size (Term.info term)) c)
          Value.NotStackOffset Value.NotProduct).
  { subst v. destruct term as [i value|i kind| | | | | |];
      try discriminate Hconstant.
    - injection Hconstant as <-. simpl. rewrite getValue_updateValue.
      reflexivity.
    - destruct kind; try discriminate Hconstant;
        injection Hconstant as <-; simpl; rewrite getValue_updateValue;
        reflexivity. }
  rewrite Hv.
  cbn [Value.abstractValue Value.stackOffsetState Value.productState].
  destruct (ofSizedValue_bits (Term.size (Term.info term)) c)
    as [Hxor [Hand Hone]].
  assert (Hwidth : maskWidth (Term.size (Term.info term))
                   = Term.size (Term.info term)).
  { unfold maskWidth, Types.wordBits.
    destruct (Z.eq_dec (Term.size (Term.info term)) 64) as [->|Hne];
      [reflexivity|].
    rewrite (proj2 (Z.leb_le _ _)) by lia.
    rewrite (proj2 (Z.ltb_lt _ _)) by lia. reflexivity. }
  unfold AbstractValue.isConcrete, AbstractValue.isNondeterministic,
    AbstractValue.value.
  rewrite Hxor, Hand, Hone, Hwidth, !Z.eqb_refl.
  repeat split.
Qed.

End Constants.

Lemma nondeterministic_not_concrete (nbits : Z) :
  nbits <> 0 ->
  AbstractValue.isConcrete (AbstractValue.make nbits (-1) (-1)) = false.
Proof.
  intros Hn. unfold AbstractValue.isConcrete, AbstractValue.make. simpl.
  rewrite Z.lxor_nilpotent, bitMask_ones.
  apply Z.eqb_neq. rewrite Z.ones_equiv.
  assert (Hw : 1 <= maskWidth nbits).
  { pose proof (maskWidth_range nbits) as Hrange.
    unfold maskWidth, Types.wordBits in *.
    destruct ((0 <=? nbits) && (nbits <? 64)); lia. }
  assert (Hpow : 2 ^ 1 <= 2 ^ maskWidth nbits)
    by (apply Z.pow_le_mono_r; lia).
  change (2 ^ 1) with 2 in Hpow. lia.
Qed.

Section Addresses.

Variable architecture : Architecture.t.
Variable operators : AbstractOperators.

(** X7.  What a dereference resolves to, by the kind of its address.  An
    address that is a constant of the program always gives a real location
    in the domain of the dereference.  An address that is an unknown or
    undefined intrinsic never resolves: the location is empty.  The stack
    pointer itself (the zero stack offset) gives the stack location at bit
    0, unless an earlier evaluation has declared the intrinsic not to be a
    stack offset, and then the location is empty. *)
Theorem dereference_by_kind_of_address (dereference : Term.Info)
    (domain : MemoryDomain) (a : Term.Info) (e : Execution) :
  Term.size a <> 0 ->
  let location address :=
    Dataflow.getMemoryLocation dereference
      (dataflow (execute architecture operators
                   (Term.DEREFERENCE dereference domain address) e)) in
  (forall address c,
     constantOf address = Some c ->
     exists addr,
       location address = MemoryLocation.Make domain addr (Term.size dereference))
  /\ location (Term.INTRINSIC a Term.UNKNOWN) = MemoryLocation.Empty
  /\ location (Term.INTRINSIC a Term.UNDEFINED) = MemoryLocation.Empty
  /\ location (Term.INTRINSIC a Term.ZERO_STACK_OFFSET)
     = match Value.stackOffsetState (Dataflow.getValue a (dataflow e)) with
       | Value.NotStackOffset => MemoryLocation.Empty
       | _ => MemoryLocation.Make STACK 0 (Term.size dereference)
       end.
Proof.
  intros Hsize location. subst location. cbn beta.
  split; [|split; [|split]].
  - intros address c Hconstant. simpl.
    rewrite setMemoryLocation_getMemoryLocation.
    assert (Hv :
      Value.abstractValue
        (Dataflow.getValue (Term.info address)
           (dataflow (execute architecture operators address e)))
      = AbstractValue.ofSizedValue (Term.size (Term.info address)) c).
    { destruct address as [i value|i kind| | | | | |];
        try discriminate Hconstant.
      - injection Hconstant as <-. simpl. rewrite getValue_updateValue.
        reflexivity.
      - destruct kind; try discriminate Hconstant;
          injection Hconstant as <-; simpl; rewrite getValue_updateValue;
          reflexivity. }
    unfold dereferenceLocation. rewrite Hv.
    destruct (ofSizedValue_bits (Term.size (Term.info address)) c)
      as [Hxor _].
    unfold AbstractValue.isConcrete.
    replace (AbstractValue.size
               (AbstractValue.ofSizedValue (Term.size (Term.info address)) c))
      with (Term.size (Term.info address)) by reflexivity.
    rewrite Hxor, Z.eqb_refl.
    destruct (bool_decide (domain = MEMORY)); eexists; reflexivity.
  - simpl. rewrite setMemoryLocation_getMemoryLocation.
    rewrite getValue_updateValue. unfold dereferenceLocation.
    cbn [Value.abstractValue Value.makeNotProduct Value.makeNotStackOffset
         Value.setAbstractValue Value.isStackOffset Value.stackOffsetState].
    rewrite nondeterministic_not_concrete by exact Hsize. reflexivity.
  - simpl. rewrite setMemoryLocation_getMemoryLocation.
    rewrite getValue_updateValue. unfold dereferenceLocation.
    cbn [Value.abstractValue Value.makeNotProduct Value.makeNotStackOffset
         Value.setAbstractValue Value.isStackOffset Value.stackOffsetState].
    rewrite nondeterministic_not_concrete by exact Hsize. reflexivity.
  - simpl. rewrite setMemoryLocation_getMemoryLocation.
    rewrite getValue_updateValue. unfold dereferenceLocation.
    assert (Habstract :
      Value.abstractValue
        (Value.makeNotProduct
           (Value.makeStackOffset 0
              (Value.setAbstractValue
                 (AbstractValue.make (Term.size a) (-1) (-1))
                 (Dataflow.getValue a (dataflow e)))))
      = AbstractValue.make (Term.size a) (-1) (-1)).
    { cbn [Value.abstractValue Value.makeNotProduct].
      rewrite makeStackOffset_abstractValue. reflexivity. }
    rewrite Habstract, nondeterministic_not_concrete by exact Hsize.
    unfold Value.isStackOffset, Value.stackOffset.
    cbn [Value.stackOffsetState Value.makeNotProduct].
    rewrite makeStackOffset_state.
    cbn [Value.stackOffsetState Value.setAbstractValue].
    destruct (Value.stackOffsetState (Dataflow.getValue a (dataflow e)));
      reflexivity.
Qed.

End Addresses.

(** ** A read of what one write has defined *)

Lemma bitShift_zero (value : Z) : BitTwiddling.bitShift value 0 = value.
Proof. reflexivity. Qed.

(** The flag loop hands the flags of the only definition to a term about
    which nothing was known. *)
Lemma mergeFlags_fresh (term d : Term.Info) (df : Dataflow.t)
    (a : AbstractValue.t) (s : Value.StackOffset) (p : Value.Product) :
  Term.id d <> Term.id term ->
  Dataflow.getValue term df
  = Value.Build a Value.UnknownStackOffset Value.UnknownProduct ->
  Dataflow.getValue d df = Value.Build a s p ->
  Dataflow.getValue term (mergeFlags term df d) = Value.Build a s p.
Proof.
  intros Hne Hterm Hd. unfold mergeFlags. rewrite Hd.
  destruct s as [|k|]; cbn [Value.isNotStackOffset Value.isStackOffset
                             Value.stackOffsetState Value.stackOffset];
    rewrite ?getValue_updateValue_other by exact Hne; rewrite ?Hd;
    destruct p; cbn [Value.isNotProduct Value.isProduct Value.productState];
    rewrite ?getValue_updateValue, ?Hterm; reflexivity.
Qed.

Section SingleDefinition.

Variable architecture : Architecture.t.
Variable operators : AbstractOperators.

(** A term about which nothing is known, reached by one definition of its
    own location, gets the Value of the definition. *)
Lemma mergeReachingValues_single (term d : Term.Info) (domain : MemoryDomain)
    (addr : Z) (df : Dataflow.t) :
  Term.same d term = false ->
  Dataflow.term2value df !! Term.id term = None ->
  Dataflow.getMemoryLocation d df
  = MemoryLocation.Make domain addr (Term.size term) ->
  AbstractValue.resize (Term.size term)
    (Value.abstractValue (Dataflow.getValue d df))
  = Value.abstractValue (Dataflow.getValue d df) ->
  Dataflow.getValue term
    (mergeReachingValues architecture term
       (MemoryLocation.Make domain addr (Term.size term))
       [ReachingDefinitions.MakeChunk
          (MemoryLocation.Make domain addr (Term.size term)) [d]]
       df)
  = Dataflow.getValue d df.
Proof.
  intros Hsame Hfresh Hlocation Hfits.
  apply same_false_id in Hsame.
  destruct (Dataflow.getValue d df) as [[sd zd od] s p] eqn:Hd.
  cbn [Value.abstractValue] in Hfits.
  unfold AbstractValue.resize in Hfits. cbn in Hfits.
  injection Hfits as Hsize Hz Ho.
  assert (Hacc :
    AbstractValue.resize (Term.size term)
      (mergeAbstractValues architecture
         (MemoryLocation.Make domain addr (Term.size term))
         [ReachingDefinitions.MakeChunk
            (MemoryLocation.Make domain addr (Term.size term)) [d]]
         df (Value.abstractValue (Dataflow.getValue term df)))
    = AbstractValue.Build sd zd od).
  { unfold mergeAbstractValues, mergeDefinitionValue, chunkMask,
      ReachingDefinitions.chunks.
    cbn [List.fold_left ReachingDefinitions.definitions
         ReachingDefinitions.location].
    rewrite Hlocation, Hd.
    unfold MemoryLocation.endAddr. cbn [MemoryLocation.addr MemoryLocation.size].
    rewrite !Z.sub_diag.
    assert (Hshift :
      forall order,
        match order with
        | Architecture.LittleEndian =>
            AbstractValue.shift 0
              (Value.abstractValue
                 (Value.Build (AbstractValue.Build sd zd od) s p))
        | Architecture.BigEndian =>
            AbstractValue.shift 0
              (Value.abstractValue
                 (Value.Build (AbstractValue.Build sd zd od) s p))
        end = AbstractValue.Build sd zd od).
    { intros order. destruct order; reflexivity. }
    rewrite Hshift.
    assert (Hmask :
      match Architecture.byteOrder architecture with
      | Architecture.LittleEndian =>
          BitTwiddling.bitShift (BitTwiddling.bitMask (Term.size term)) 0
      | Architecture.BigEndian =>
          BitTwiddling.bitShift (BitTwiddling.bitMask (Term.size term)) 0
      end = BitTwiddling.bitMask (Term.size term)).
    { destruct (Architecture.byteOrder architecture); apply bitShift_zero. }
    rewrite Hmask.
    unfold Dataflow.getValue. rewrite Hfresh.
    unfold AbstractValue.project, AbstractValue.merge, AbstractValue.resize,
      Value.make, AbstractValue.make, Types.toConstantValue.
    cbn [default Value.abstractValue AbstractValue.size AbstractValue.zeroBits
         AbstractValue.oneBits].
    rewrite Zmod_0_l, Z.land_0_l, !Z.lor_0_l.
    rewrite <- !Z.land_assoc, Z.land_diag, Hz, Ho.
    rewrite Hsize. reflexivity. }
  unfold mergeReachingValues. cbn [ReachingDefinitions.empty].
  rewrite Hacc.
  assert (Hlower :
    lowerBitsDefinitions architecture
      (MemoryLocation.Make domain addr (Term.size term))
      [ReachingDefinitions.MakeChunk
         (MemoryLocation.Make domain addr (Term.size term)) [d]]
    = Some [d]).
  { unfold lowerBitsDefinitions, ReachingDefinitions.chunks.
    destruct (Architecture.byteOrder architecture); simpl;
      rewrite Z.eqb_refl; reflexivity. }
  rewrite Hlower. cbn [List.fold_left].
  apply mergeFlags_fresh.
  - exact Hsame.
  - rewrite getValue_updateValue. unfold Dataflow.getValue. rewrite Hfresh.
    reflexivity.
  - rewrite getValue_updateValue_other by exact Hsame. exact Hd.
Qed.

End SingleDefinition.

Lemma project_single (domain : MemoryDomain) (addr size : Z)
    (terms : list Term.Info) :
  0 < size ->
  ReachingDefinitions.project (MemoryLocation.Make domain addr size)
    [ReachingDefinitions.MakeChunk (MemoryLocation.Make domain addr size) terms]
  = [ReachingDefinitions.MakeChunk (MemoryLocation.Make domain addr size) terms].
Proof.
  intros Hsize. unfold ReachingDefinitions.project.
  cbn [List.flat_map ReachingDefinitions.location ReachingDefinitions.definitions].
  rewrite overlaps_refl by (simpl; auto).
  unfold ReachingDefinitions.intersect.
  rewrite Z.max_id, Z.min_id.
  replace (addr + size - addr) with size by lia. reflexivity.
Qed.

Section SingleDefinitionRead.

Variable architecture : Architecture.t.
Variable operators : AbstractOperators.

(** X9.  A read of a location that one write of the same location reaches.
    When nothing is known yet about the read, the location is tracked, and
    the abstract value of the write has the size of the read, the read gets
    the Value of the write as it is (abstract value, stack-offset state and
    product state) and the write as its only reaching definition, on a
    little-endian as on a big-endian machine. *)
Theorem read_takes_value_of_single_definition (access d : Term.Info)
    (domain : MemoryDomain) (addr : Z) (e : Execution) :
  let location := MemoryLocation.Make domain addr (Term.size access) in
  Term.isRead access = true ->
  0 < Term.size access ->
  Architecture.isGlobalMemory architecture location = false ->
  Term.same d access = false ->
  Dataflow.term2value (dataflow e) !! Term.id access = None ->
  context e = [ReachingDefinitions.MakeChunk location [d]] ->
  Dataflow.getMemoryLocation d (dataflow e) = location ->
  AbstractValue.resize (Term.size access)
    (Value.abstractValue (Dataflow.getValue d (dataflow e)))
  = Value.abstractValue (Dataflow.getValue d (dataflow e)) ->
  let e' :=
    execute architecture operators
      (Term.MEMORY_LOCATION_ACCESS access location) e in
  Dataflow.getValue access (dataflow e') = Dataflow.getValue d (dataflow e)
  /\ Dataflow.getDefinitions access (dataflow e')
     = [ReachingDefinitions.MakeChunk location [d]].
Proof.
  intros location Hread Hsize Hglobal Hsame Hfresh Hcontext Hlocation Hfits e'.
  subst e'. cbn [execute]. unfold setMemoryLocation.
  set (old := Dataflow.getMemoryLocation access (dataflow e)).
  assert (Hid : Term.id d <> Term.id access)
    by (apply same_false_id; exact Hsame).
  assert (Hremembered :
    context (rememberLocation access old location e)
    = [ReachingDefinitions.MakeChunk location [d]]
    /\ Dataflow.term2value (dataflow (rememberLocation access old location e))
       = Dataflow.term2value (dataflow e)
    /\ Dataflow.getMemoryLocation d
         (dataflow (rememberLocation access old location e))
       = location).
  { unfold rememberLocation. destruct (bool_decide _).
    - assert (Hfiltered :
        ReachingDefinitions.filterOut
          (fun _ definition => Term.same definition access) (context e)
        = [ReachingDefinitions.MakeChunk location [d]]).
      { rewrite Hcontext. unfold ReachingDefinitions.filterOut. simpl.
        rewrite Hsame. reflexivity. }
      destruct (MemoryLocation.valid old && Term.isWrite access); simpl;
        rewrite ?Hfiltered, ?Hcontext;
        rewrite getMemoryLocation_setMemoryLocation_other by exact Hid;
        auto.
    - auto. }
  destruct Hremembered as [Hc1 [Hv1 Hl1]].
  generalize dependent (rememberLocation access old location e).
  intros e1 Hc1 Hv1 Hl1.
  unfold updateDefinitions.
  replace (MemoryLocation.valid location) with true by reflexivity.
  rewrite Hglobal, Hread. cbn [andb negb].
  rewrite Hc1.
  assert (Hproject :
    ReachingDefinitions.project location
      [ReachingDefinitions.MakeChunk location [d]]
    = [ReachingDefinitions.MakeChunk location [d]]).
  { apply project_single. exact Hsize. }
  rewrite Hproject.
  set (df2 :=
    Dataflow.setDefinitions access
      [ReachingDefinitions.MakeChunk location [d]] (dataflow e1)).
  assert (Hvalue :
    Dataflow.getValue access
      (mergeReachingValues architecture access location
         [ReachingDefinitions.MakeChunk location [d]] df2)
    = Dataflow.getValue d (dataflow e)).
  { assert (Hd : Dataflow.getValue d df2 = Dataflow.getValue d (dataflow e)).
    { apply getValue_ext. exact Hv1. }
    rewrite <- Hd. apply mergeReachingValues_single.
    - exact Hsame.
    - subst df2. cbn. rewrite Hv1. exact Hfresh.
    - exact Hl1.
    - rewrite Hd. exact Hfits. }
  assert (Hdefinitions :
    Dataflow.getDefinitions access
      (mergeReachingValues architecture access location
         [ReachingDefinitions.MakeChunk location [d]] df2)
    = [ReachingDefinitions.MakeChunk location [d]]).
  { rewrite mergeReachingValues_getDefinitions. subst df2.
    apply getDefinitions_setDefinitions. }
  destruct (Term.isWrite access), (Term.isKill access); simpl;
    split; assumption.
Qed.

End SingleDefinitionRead.

(** ** More on the fixpoint driver *)

Lemma getMemoryLocation_same_id (x y : Term.Info) (df : Dataflow.t) :
  Term.id x = Term.id y ->
  Dataflow.getMemoryLocation x df = Dataflow.getMemoryLocation y df.
Proof. intros Hid. unfold Dataflow.getMemoryLocation. rewrite Hid. reflexivity. Qed.

(** What [filterOut(notCovered)] leaves is covered by the term that
    defines it. *)
Lemma filterOut_notCovered (df : Dataflow.t) (rd : ReachingDefinitions.t)
    (l : MemoryLocation.t) (d : Term.Info) :
  ReachingDefinitions.contains
    (ReachingDefinitions.filterOut (notCovered df) rd) l d ->
  MemoryLocation.covers (Dataflow.getMemoryLocation d df) l = true.
Proof.
  intros [c [Hin [Hloc [d' [Hd Hsame]]]]].
  apply filterOut_In in Hin. destruct Hin as [c0 [_ [Hl Hdefs]]].
  rewrite Hdefs in Hd. apply List.filter_In in Hd. destruct Hd as [_ Hcovered].
  unfold notCovered in Hcovered. rewrite negb_involutive in Hcovered.
  rewrite <- Hl, Hloc in Hcovered.
  rewrite <- (getMemoryLocation_same_id d' d df)
    by (apply same_true_id; exact Hsame).
  exact Hcovered.
Qed.

(** X11.  The two filters of the loop keep the definitions consistent with
    the locations of the terms.  The context a block starts from holds a
    pair (L, T) only if the location stored for T covers L; and after a
    pass every set of reaching definitions stored for a term holds a pair
    (L, T) only if the location T has at the end of the pass covers L. *)
Theorem filters_keep_covered_definitions (architecture : Architecture.t)
    (operators : AbstractOperators) (function : Function) (a : Analysis)
    (n : Z) :
  (forall basicBlock l d,
     ReachingDefinitions.contains (enterBlock function basicBlock a) l d ->
     MemoryLocation.covers (Dataflow.getMemoryLocation d (store a)) l = true)
  /\ (forall x l d,
        let after := store (fst (pass architecture operators function a n)) in
        ReachingDefinitions.contains (Dataflow.getDefinitions x after) l d ->
        MemoryLocation.covers (Dataflow.getMemoryLocation d after) l = true).
Proof.
  split.
  - intros b l d. unfold enterBlock. apply filterOut_notCovered.
  - intros x l d after. subst after. unfold pass. cbn [fst store].
    set (df := store (fst (analyzeBlocks architecture operators function a n))).
    unfold Dataflow.getDefinitions, filterDefinitions.
    cbn [Dataflow.term2definitions]. rewrite lookup_fmap.
    destruct (Dataflow.term2definitions df !! Term.id x) as [rd|]; simpl.
    + intros Hcontains. apply filterOut_notCovered in Hcontains.
      exact Hcontains.
    + intros [c [[] _]].
Qed.

Section Polls.

Variable architecture : Architecture.t.
Variable operators : AbstractOperators.
Variable function : Function.
Variable canceled : CancellationToken.

(** The loop goes past a poll only if the poll does not raise. *)
Lemma analyzeLoop_polls (fuel : nat) :
  forall (niterations0 nfixpoints0 : Z) (a : Analysis) (o : Outcome),
    analyzeLoop architecture operators fuel function canceled
      niterations0 nfixpoints0 a = Some o ->
    niterations0 <= niterations o
    /\ (forall j, niterations0 < j < niterations o -> canceled j = false)
    /\ match exit o with
       | FixpointReached =>
           niterations o = niterations0 \/ canceled (niterations o) = false
       | GivenUp => 30 <= niterations o
       | Canceled =>
           niterations0 < niterations o /\ canceled (niterations o) = true
       end.
Proof.
  induction fuel as [|fuel IH]; intros niter nfix a o Hloop.
  - discriminate Hloop.
  - rewrite analyzeLoop_turn in Hloop.
    destruct (nfix <? 3).
    + destruct (niter + 1 >=? 30) eqn:Hcap.
      * injection Hloop as <-. cbn [niterations exit].
        apply Z.geb_le in Hcap. repeat split; try lia.
      * destruct (canceled (niter + 1)) eqn:Hpoll.
        -- injection Hloop as <-. cbn [niterations exit].
           repeat split; try lia; try exact Hpoll.
        -- apply IH in Hloop. destruct Hloop as [Hle [Hbetween Hexit]].
           split; [lia|]. split.
           ++ intros j Hj. destruct (Z.eq_dec j (niter + 1)) as [->|Hne];
                [exact Hpoll|]. apply Hbetween. lia.
           ++ destruct (exit o).
              ** destruct Hexit as [Heq|Hfalse]; [|right; exact Hfalse].
                 right. rewrite Heq. exact Hpoll.
              ** exact Hexit.
              ** destruct Hexit as [Hlt Htrue]. split; [lia|exact Htrue].
    + injection Hloop as <-. cbn [niterations exit].
      repeat split; lia.
Qed.

(** X14.  A token that raises at its poll number [k], before the thirtieth,
    ends the analysis at that poll at the latest: [analyze] does not run
    more than [k] passes and does not give up.  If it ends canceled, it does
    so at the first poll that raises, and without the cleanup; if it ends at
    a fixpoint, it does so before poll [k]. *)
Theorem cancellation_stops_at_first_raising_poll (fuel : nat)
    (df : Dataflow.t) (o : Outcome) (k : Z) :
  analyze architecture operators fuel function canceled df = Some o ->
  1 <= k < 30 ->
  canceled k = true ->
  niterations o <= k
  /\ exit o <> GivenUp
  /\ (exit o = FixpointReached -> niterations o < k)
  /\ (exit o = Canceled ->
      canceled (niterations o) = true
      /\ (forall j, 1 <= j < niterations o -> canceled j = false)
      /\ analyzeLoop architecture operators fuel function canceled 0 0
           (MakeAnalysis df ∅ []) = Some o).
Proof.
  unfold analyze. intros Hanalyze Hk Hraise.
  destruct (analyzeLoop architecture operators fuel function canceled 0 0
              (MakeAnalysis df ∅ [])) as [loop|] eqn:Hloop; [|discriminate].
  destruct (analyzeLoop_polls fuel 0 0 (MakeAnalysis df ∅ []) loop Hloop)
    as [Hle [Hbetween Hexit]].
  assert (Hsame : exit o = exit loop /\ niterations o = niterations loop).
  { destruct (exit loop) eqn:Hkind; injection Hanalyze as <-;
      cbn [exit niterations]; rewrite ?Hkind; split; reflexivity. }
  destruct Hsame as [He Hn]. rewrite He, Hn.
  assert (Hbound : niterations loop <= k).
  { destruct (Z.le_gt_cases (niterations loop) k) as [H|H]; [exact H|].
    rewrite Hbetween in Hraise by lia. discriminate. }
  split; [exact Hbound|]. split; [|split].
  - intros Hgiven. rewrite Hgiven in Hexit. lia.
  - intros Hfix. rewrite Hfix in Hexit.
    destruct Hexit as [Hzero|Hfalse]; [lia|].
    destruct (Z.eq_dec (niterations loop) k) as [Heq|Hne]; [|lia].
    rewrite Heq in Hfalse. congruence.
  - intros Hcanceled. rewrite Hcanceled in Hexit, Hanalyze.
    destruct Hexit as [_ Htrue]. split; [exact Htrue|]. split.
    + intros j Hj. apply Hbetween. lia.
    + injection Hanalyze as <-. reflexivity.
Qed.

End Polls.

(** A function is free of memory when no statement of its blocks evaluates
    an access or a dereference. *)
Definition memoryFree (function : Function) : Prop :=
  Forall
    (fun basicBlock =>
       Forall
         (fun statement =>
            Forall (fun term => touchesMemory term = false)
                   (statementTerms statement))
         (statements basicBlock))
    (basicBlocks function).

Section MemoryFree.

Variable architecture : Architecture.t.
Variable operators : AbstractOperators.
Variable function : Function.

Lemma enterBlock_no_definitions (basicBlock : BasicBlock) (a : Analysis) :
  outDefinitions a = ∅ -> enterBlock function basicBlock a = [].
Proof.
  intros Hout. unfold enterBlock. rewrite Hout.
  assert (Hnone : forall predecessor : positive,
    getOutDefinitions predecessor ∅ = []).
  { intros predecessor. unfold getOutDefinitions. rewrite lookup_empty.
    reflexivity. }
  assert (Hfold : forall predecessors,
    List.fold_left
      (fun definitions predecessor =>
         ReachingDefinitions.merge (getOutDefinitions predecessor ∅) definitions)
      predecessors [] = []).
  { intros predecessors. induction predecessors as [|p rest IH]; simpl.
    - reflexivity.
    - rewrite Hnone. exact IH. }
  rewrite Hfold. reflexivity.
Qed.

Lemma executeStatements_without_memory (statements0 : list Statement) :
  Forall
    (fun statement =>
       Forall (fun term => touchesMemory term = false) (statementTerms statement))
    statements0 ->
  forall e : Execution,
    context
      (List.fold_left
         (fun e statement => executeStatement architecture operators statement e)
         statements0 e)
    = context e.
Proof.
  induction statements0 as [|s rest IH]; intros Hfree e; simpl.
  - reflexivity.
  - inversion Hfree as [|? ? Hs Hrest]; subst.
    rewrite IH by exact Hrest.
    apply (executeStatement_without_memory architecture operators s e Hs).
Qed.

(** A pass over a function free of memory that starts without definitions
    ends without definitions and gives the counter back. *)
Lemma pass_memory_free (a : Analysis) (n : Z) :
  memoryFree function ->
  outDefinitions a = ∅ ->
  snd (pass architecture operators function a n) = n
  /\ outDefinitions (fst (pass architecture operators function a n)) = ∅.
Proof.
  unfold memoryFree, pass, analyzeBlocks. cbn [fst snd outDefinitions].
  generalize (basicBlocks function). intros blocks Hfree. revert a.
  induction blocks as [|b blocks IH]; intros a Hout; simpl.
  - split; [reflexivity|exact Hout].
  - inversion Hfree as [|? ? Hb Hblocks]; subst.
    assert (Hblock :
      exists a1, analyzeBlock architecture operators function (a, n) b = (a1, n)
                 /\ outDefinitions a1 = ∅).
    { unfold analyzeBlock. cbn [fst snd].
      assert (Hcontext :
        context (runBlock architecture operators function b a) = []).
      { unfold runBlock. rewrite executeStatements_without_memory by exact Hb.
        cbn [context]. apply enterBlock_no_definitions. exact Hout. }
      rewrite Hcontext. unfold getOutDefinitions. rewrite Hout, lookup_empty.
      simpl. eexists. split; [reflexivity|]. reflexivity. }
    destruct Hblock as [a1 [-> Hout1]].
    apply IH; assumption.
Qed.

(** X13.  A function in which no statement evaluates an access or a
    dereference (a function without basic blocks, for one) defines nothing:
    unless a poll raises, [analyze] leaves the loop at a fixpoint after
    three passes exactly, and the definitions at the end of all blocks are
    empty. *)
Theorem memory_free_function_takes_three_passes (canceled : CancellationToken)
    (df : Dataflow.t) (fuel : nat) :
  memoryFree function ->
  (4 <= fuel)%nat ->
  (forall k, 1 <= k <= 3 -> canceled k = false) ->
  exists o,
    analyze architecture operators fuel function canceled df = Some o
    /\ exit o = FixpointReached
    /\ niterations o = 3
    /\ outDefinitions (analysis o) = ∅.
Proof.
  intros Hfree Hfuel Hpolls.
  destruct fuel as [|[|[|[|fuel]]]]; try lia.
  assert (Hturn : forall niter a,
    0 <= niter < 3 ->
    outDefinitions a = ∅ ->
    forall fuel0,
      analyzeLoop architecture operators (S fuel0) function canceled niter niter a
      = analyzeLoop architecture operators fuel0 function canceled
          (niter + 1) (niter + 1)
          (fst (pass architecture operators function a (niter + 1)))
      /\ outDefinitions
           (fst (pass architecture operators function a (niter + 1))) = ∅).
  { intros niter a Hniter Hout fuel0.
    destruct (pass_memory_free a (niter + 1) Hfree Hout) as [Hsnd Hout1].
    split; [|exact Hout1].
    rewrite analyzeLoop_turn.
    rewrite (proj2 (Z.ltb_lt niter 3)) by lia.
    assert (Hcap : (niter + 1 >=? 30) = false).
    { destruct (Z.geb_spec (niter + 1) 30); [lia|reflexivity]. }
    rewrite Hcap, Hpolls by lia. rewrite Hsnd. reflexivity. }
  unfold analyze.
  set (a0 := MakeAnalysis df ∅ []).
  destruct (Hturn 0 a0 ltac:(lia) eq_refl (S (S (S fuel)))) as [-> Hout1].
  set (a1 := fst (pass architecture operators function a0 (0 + 1))) in *.
  destruct (Hturn 1 a1 ltac:(lia) Hout1 (S (S fuel))) as [H2 Hout2].
  change (0 + 1) with 1. rewrite H2.
  set (a2 := fst (pass architecture operators function a1 (1 + 1))) in *.
  destruct (Hturn 2 a2 ltac:(lia) Hout2 (S fuel)) as [H3 Hout3].
  change (1 + 1) with 2. rewrite H3.
  set (a3 := fst (pass architecture operators function a2 (2 + 1))) in *.
  change (2 + 1) with 3. rewrite analyzeLoop_turn.
  change (3 <? 3) with false. cbn [exit].
  eexists. split; [reflexivity|].
  cbn [exit niterations analysis outDefinitions].
  repeat split. exact Hout3.
Qed.

End MemoryFree.

(** ** Warnings *)

(** A term is of known kinds when neither the term nor a term below it is
    of an unknown kind of term, intrinsic or operator. *)
Fixpoint knownKinds (term : Term.t) : bool :=
  match term with
  | Term.INT_CONST _ _ | Term.MEMORY_LOCATION_ACCESS _ _ => true
  | Term.INTRINSIC _ kind =>
      match kind with Term.OTHER_INTRINSIC _ => false | _ => true end
  | Term.DEREFERENCE _ _ address => knownKinds address
  | Term.UNARY_OPERATOR _ kind operand =>
      match kind with Term.OTHER_UNARY _ => false | _ => true end
      && knownKinds operand
  | Term.BINARY_OPERATOR _ kind l r =>
      match kind with Term.OTHER_BINARY _ => false | _ => true end
      && knownKinds l && knownKinds r
  | Term.CHOICE _ preferred default => knownKinds preferred && knownKinds default
  | Term.OTHER_TERM _ _ => false
  end.

Section WarningsEmitted.

Variable architecture : Architecture.t.
Variable operators : AbstractOperators.

Lemma setMemoryLocation_warnings (term : Term.Info)
    (newMemoryLocation : MemoryLocation.t) (e : Execution) :
  warnings (setMemoryLocation architecture term newMemoryLocation e) = warnings e.
Proof.
  unfold setMemoryLocation, rememberLocation, updateDefinitions,
    withDataflow, withContext.
  repeat match goal with
         | |- context [if ?b then _ else _] => destruct b; simpl
         end; reflexivity.
Qed.

Lemma execute_warnings_grow (term : Term.t) :
  forall e : Execution,
    exists emitted,
      warnings (execute architecture operators term e) = emitted ++ warnings e.
Proof.
  induction term as
    [i value|i kind|i location|i domain address IH|i kind operand IH
    |i kind l IHl r IHr|i preferred IHp default IHd|i kind];
    intros e.
  - exists []. reflexivity.
  - destruct kind; try (exists []; reflexivity).
    eexists [_]. reflexivity.
  - exists []. apply setMemoryLocation_warnings.
  - cbn [execute]. rewrite setMemoryLocation_warnings. apply IH.
  - cbn [execute]. unfold executeUnaryOperator, transferUnary.
    cbn [warnings withDataflow].
    destruct (IH e) as [emitted ->].
    eexists. rewrite List.app_assoc. reflexivity.
  - cbn [execute]. unfold executeBinaryOperator, transferBinary.
    cbn [warnings withDataflow].
    destruct (IHr (execute architecture operators l e)) as [emitted2 ->].
    destruct (IHl e) as [emitted1 ->].
    eexists. rewrite !List.app_assoc. reflexivity.
  - cbn [execute warnings withDataflow].
    destruct (IHd (execute architecture operators preferred e)) as [emitted2 ->].
    destruct (IHp e) as [emitted1 ->].
    eexists. rewrite List.app_assoc. reflexivity.
  - eexists [_]. reflexivity.
Qed.

Lemma execute_known_kinds_silent (term : Term.t) :
  knownKinds term = true ->
  forall e : Execution,
    warnings (execute architecture operators term e) = warnings e.
Proof.
  induction term as
    [i value|i kind|i location|i domain address IH|i kind operand IH
    |i kind l IHl r IHr|i preferred IHp default IHd|i kind];
    intros Hknown e; cbn [knownKinds] in Hknown.
  - reflexivity.
  - destruct kind; try discriminate Hknown; reflexivity.
  - apply setMemoryLocation_warnings.
  - cbn [execute]. rewrite setMemoryLocation_warnings. apply IH. exact Hknown.
  - apply andb_true_iff in Hknown. destruct Hknown as [Hkind Hoperand].
    cbn [execute]. unfold executeUnaryOperator, transferUnary.
    cbn [warnings withDataflow].
    rewrite IH by exact Hoperand.
    destruct kind; try discriminate Hkind; reflexivity.
  - apply andb_true_iff in Hknown. destruct Hknown as [Hknown Hr].
    apply andb_true_iff in Hknown. destruct Hknown as [Hkind Hl].
    cbn [execute]. unfold executeBinaryOperator, transferBinary.
    cbn [warnings withDataflow].
    rewrite IHr, IHl by assumption.
    destruct kind; try discriminate Hkind; reflexivity.
  - apply andb_true_iff in Hknown. destruct Hknown as [Hp Hd].
    cbn [execute warnings withDataflow].
    rewrite IHd, IHp by assumption. reflexivity.
  - discriminate Hknown.
Qed.

(** X16.  The evaluation of a term withdraws no warning: it puts the
    warnings it emits before those that were there.  It emits one only for
    an unknown kind: a term that holds no term, intrinsic or operator of
    unknown kind is evaluated without a warning. *)
Theorem warnings_only_for_unknown_kinds (term : Term.t) (e : Execution) :
  (exists emitted,
     warnings (execute architecture operators term e) = emitted ++ warnings e)
  /\ (knownKinds term = true ->
      warnings (execute architecture operators term e) = warnings e).
Proof.
  split.
  - apply execute_warnings_grow.
  - intros Hknown. apply execute_known_kinds_silent. exact Hknown.
Qed.

End WarningsEmitted.

(** ** The product flag that reaching definitions pass on *)

Lemma productState_same_id (x term : Term.Info) (df : Dataflow.t) :
  Term.id x = Term.id term ->
  Value.productState (Dataflow.getValue x df)
  = Value.productState (Dataflow.getValue term df).
Proof.
  intros Hid. unfold Dataflow.getValue. rewrite Hid.
  destruct (Dataflow.term2value df !! Term.id term); reflexivity.
Qed.

(** The stack-offset half of a turn of the flag loop changes no product
    state. *)
Lemma stackOffset_turn_productState (x term definition : Term.Info)
    (df : Dataflow.t) :
  Value.productState
    (Dataflow.getValue x
       (if Value.isNotStackOffset (Dataflow.getValue definition df) then
          updateValue term Value.makeNotStackOffset df
        else if Value.isStackOffset (Dataflow.getValue definition df) then
          updateValue term
            (Value.makeStackOffset
               (Value.stackOffset (Dataflow.getValue definition df))) df
        else df))
  = Value.productState (Dataflow.getValue x df).
Proof.
  assert (Hupdate : forall f,
    (forall v, Value.productState (f v) = Value.productState v) ->
    Value.productState (Dataflow.getValue x (updateValue term f df))
    = Value.productState (Dataflow.getValue x df)).
  { intros f Hf. destruct (decide (Term.id x = Term.id term)) as [Hid|Hid].
    - unfold updateValue. rewrite getValue_setValue_same_id by exact Hid.
      rewrite Hf. symmetry. apply productState_same_id. exact Hid.
    - rewrite getValue_updateValue_other by exact Hid. reflexivity. }
  destruct (Value.isNotStackOffset _); [apply Hupdate; reflexivity|].
  destruct (Value.isStackOffset _); [|reflexivity].
  apply Hupdate. intros v. unfold Value.makeStackOffset.
  destruct (Value.stackOffsetState v); reflexivity.
Qed.

(** One turn of the flag loop, seen from the product state of the term. *)
Lemma mergeFlags_productState (term definition : Term.Info) (df : Dataflow.t) :
  Value.productState (Dataflow.getValue term (mergeFlags term df definition))
  = match Value.productState (Dataflow.getValue definition df) with
    | Value.NotProduct => Value.NotProduct
    | Value.IsProduct =>
        match Value.productState (Dataflow.getValue term df) with
        | Value.NotProduct => Value.NotProduct
        | _ => Value.IsProduct
        end
    | Value.UnknownProduct => Value.productState (Dataflow.getValue term df)
    end.
Proof.
  unfold mergeFlags.
  set (df1 :=
    if Value.isNotStackOffset (Dataflow.getValue definition df) then
      updateValue term Value.makeNotStackOffset df
    else if Value.isStackOffset (Dataflow.getValue definition df) then
      updateValue term
        (Value.makeStackOffset (Value.stackOffset (Dataflow.getValue definition df)))
        df
    else df).
  assert (Hd : Value.productState (Dataflow.getValue definition df1)
               = Value.productState (Dataflow.getValue definition df))
    by apply stackOffset_turn_productState.
  assert (Ht : Value.productState (Dataflow.getValue term df1)
               = Value.productState (Dataflow.getValue term df))
    by apply stackOffset_turn_productState.
  unfold Value.isNotProduct, Value.isProduct. rewrite Hd.
  destruct (Value.productState (Dataflow.getValue definition df)).
  - exact Ht.
  - rewrite getValue_updateValue. unfold Value.makeProduct. rewrite <- Ht.
    destruct (Value.productState (Dataflow.getValue term df1)) eqn:Hp;
      simpl; congruence.
  - rewrite getValue_updateValue. reflexivity.
Qed.

Lemma mergeFlags_definition_productState (term d0 d : Term.Info)
    (df : Dataflow.t) :
  Value.productState (Dataflow.getValue d (mergeFlags term df d0))
  = if Term.same d term
    then Value.productState (Dataflow.getValue term (mergeFlags term df d0))
    else Value.productState (Dataflow.getValue d df).
Proof.
  destruct (Term.same d term) eqn:Hsame.
  - apply productState_same_id. apply same_true_id. exact Hsame.
  - rewrite mergeFlags_other; [reflexivity|]. apply same_false_id. exact Hsame.
Qed.

Section ProductLoop.

Variable term : Term.Info.

Let product (df : Dataflow.t) (x : Term.Info) : Value.Product :=
  Value.productState (Dataflow.getValue x df).

Lemma product_not_stays (lower : list Term.Info) (df : Dataflow.t) :
  product df term = Value.NotProduct ->
  product (List.fold_left (mergeFlags term) lower df) term = Value.NotProduct.
Proof.
  revert df. induction lower as [|d lower IH]; intros df Hnot; simpl.
  - exact Hnot.
  - apply IH. unfold product in *. rewrite mergeFlags_productState, Hnot.
    destruct (Value.productState (Dataflow.getValue d df)); reflexivity.
Qed.

Lemma product_some_disclaims (lower : list Term.Info) (df : Dataflow.t) :
  (exists d, In d lower /\ product df d = Value.NotProduct) ->
  product (List.fold_left (mergeFlags term) lower df) term = Value.NotProduct.
Proof.
  revert df. induction lower as [|d0 lower IH]; intros df [d [Hin Hd]].
  - destruct Hin.
  - simpl. destruct Hin as [->|Hin].
    + apply product_not_stays. unfold product in *.
      rewrite mergeFlags_productState, Hd. reflexivity.
    + destruct (Term.same d term) eqn:Hsame.
      * apply product_not_stays. unfold product in *.
        rewrite mergeFlags_productState.
        rewrite (productState_same_id d term) in Hd
          by (apply same_true_id; exact Hsame).
        rewrite Hd.
        destruct (Value.productState (Dataflow.getValue d0 df)); reflexivity.
      * apply IH. exists d. split; [exact Hin|]. unfold product in *.
        rewrite mergeFlags_definition_productState, Hsame. exact Hd.
Qed.

Lemma product_all_assert (lower : list Term.Info) (df : Dataflow.t) :
  lower <> [] ->
  (forall d, In d lower -> product df d = Value.IsProduct) ->
  product df term <> Value.NotProduct ->
  product (List.fold_left (mergeFlags term) lower df) term = Value.IsProduct.
Proof.
  revert df. induction lower as [|d0 lower IH]; intros df Hne Hall Hterm.
  - congruence.
  - simpl.
    assert (Hstep : product (mergeFlags term df d0) term = Value.IsProduct).
    { unfold product in *. rewrite mergeFlags_productState.
      rewrite (Hall d0 (or_introl eq_refl)).
      destruct (Value.productState (Dataflow.getValue term df)); congruence. }
    destruct lower as [|d1 lower]; [exact Hstep|].
    apply IH; [discriminate| |congruence].
    intros d Hin. unfold product in *.
    rewrite mergeFlags_definition_productState.
    destruct (Term.same d term); [exact Hstep|].
    apply Hall. right. exact Hin.
Qed.

End ProductLoop.

(** X12.  The product flag is passed on like the stack offset, from the
    lower-bits definitions only.  Without such a set, and when no
    definition reaches at all, the product state of the term is left alone;
    a term that had declared not to be a product stays so; one lower-bits
    definition that is not a product makes the term not a product; and when
    all of them are products, so is the term unless it had declared
    otherwise. *)
Theorem mergeReachingValues_product_flag (architecture : Architecture.t)
    (term : Term.Info) (termLocation : MemoryLocation.t)
    (definitions : ReachingDefinitions.t) (df : Dataflow.t) :
  let product x := Value.productState (Dataflow.getValue x df) in
  let result :=
    Value.productState
      (Dataflow.getValue term
         (mergeReachingValues architecture term termLocation definitions df)) in
  let chosen := lowerBitsDefinitions architecture termLocation definitions in
  (ReachingDefinitions.empty definitions = true \/ chosen = None ->
   result = product term)
  /\ (product term = Value.NotProduct -> result = Value.NotProduct)
  /\ forall lower,
       ReachingDefinitions.empty definitions = false ->
       chosen = Some lower ->
       ((exists d, In d lower /\ product d = Value.NotProduct) ->
        result = Value.NotProduct)
       /\ (lower <> [] ->
           (forall d, In d lower -> product d = Value.IsProduct) ->
           product term <> Value.NotProduct ->
           result = Value.IsProduct).
Proof.
  intros product result chosen.
  assert (Hstored : forall a x,
    Value.productState
      (Dataflow.getValue x (updateValue term (Value.setAbstractValue a) df))
    = product x).
  { intros a x. destruct (decide (Term.id x = Term.id term)) as [Hid|Hid].
    - unfold updateValue. rewrite getValue_setValue_same_id by exact Hid.
      simpl. symmetry. apply productState_same_id. exact Hid.
    - rewrite getValue_updateValue_other by exact Hid. reflexivity. }
  split; [|split].
  - intros Hnone. subst result. unfold mergeReachingValues.
    destruct (ReachingDefinitions.empty definitions) eqn:Hempty;
      [reflexivity|].
    destruct Hnone as [Hfalse|Hnone]; [discriminate|].
    fold chosen. rewrite Hnone. apply Hstored.
  - intros Hterm. subst result. unfold mergeReachingValues.
    destruct (ReachingDefinitions.empty definitions); [exact Hterm|].
    fold chosen. destruct chosen as [lower|].
    + apply product_not_stays. rewrite Hstored. exact Hterm.
    + rewrite Hstored. exact Hterm.
  - intros lower Hempty Hsome. subst result. unfold mergeReachingValues.
    rewrite Hempty. fold chosen. rewrite Hsome. split.
    + intros [d [Hin Hd]]. apply product_some_disclaims.
      exists d. split; [exact Hin|]. rewrite Hstored. exact Hd.
    + intros Hne Hall Hterm. apply product_all_assert.
      * exact Hne.
      * intros d Hin. rewrite Hstored. apply Hall. exact Hin.
      * rewrite Hstored. exact Hterm.
Qed.

(** ** Runs of the further properties *)

Module Runs.

(** No reaching definitions and an empty store. *)
Definition blank : Execution := MakeExecution Dataflow.initial [] [].

(** A conditional jump on a constant, to a constant address. *)
Definition constantJump : Statement :=
  JUMP (Some Sample.five) (Some (Term.INT_CONST (Sample.plain 6) 4096)) None.

(** One block that touches a constant and jumps. *)
Definition arithmetic : Function :=
  MakeFunction [MakeBasicBlock 1 [TOUCH Sample.five; constantJump]]
    (fun _ => []) (fun _ => false).

(** A token that raises at its second poll. *)
Definition secondPoll : CancellationToken := fun k => k =? 2.

(** The write of the register (term 1) is known to hold the stack pointer
    plus 8, of concrete value 7, and is the one definition that reaches. *)
Definition oneWriteStore : Dataflow.t :=
  Dataflow.setMemoryLocation (Sample.writer 1) Sample.register
    (Dataflow.setValue (Sample.writer 1)
       (Value.Build (AbstractValue.ofSizedValue 32 7) (Value.IsStackOffset 8)
                    Value.UnknownProduct)
       Dataflow.initial).

Definition oneWriteReaches : Execution :=
  MakeExecution oneWriteStore
    [ReachingDefinitions.MakeChunk Sample.register [Sample.writer 1]] [].

End Runs.


(** A run of X3: a jump on constants leaves the two writes in the
    context. *)
Lemma statement_without_memory_keeps_context_witness :
  context (executeStatement Sample.architecture Sample.operators
             Runs.constantJump Sample.twoWritesReach)
  = Sample.twoWrites.
Proof.
  assert (Hfree : Forall (fun term => touchesMemory term = false)
                    (statementTerms Runs.constantJump)).
  { simpl. repeat constructor. }
  destruct (statement_without_memory_keeps_context Sample.architecture
              Sample.operators Runs.constantJump Sample.twoWritesReach Hfree)
    as [Hcontext _].
  exact Hcontext.
Defined.

(** A run of X15: a read that resolves to no location takes no Value. *)
Lemma untracked_location_defines_nothing_witness :
  Dataflow.getValue (Sample.reader 2)
    (dataflow (setMemoryLocation Sample.architecture (Sample.reader 2)
                 MemoryLocation.Empty Sample.twoWritesReach))
  = Dataflow.getValue (Sample.reader 2) Sample.twoWritesStore.
Proof.
  assert (Huntracked :
    MemoryLocation.valid MemoryLocation.Empty = false
    \/ Architecture.isGlobalMemory Sample.architecture MemoryLocation.Empty
       = true).
  { left. reflexivity. }
  destruct (untracked_location_defines_nothing Sample.architecture
              (Sample.reader 2) MemoryLocation.Empty Sample.twoWritesReach
              Huntracked) as [Hvalues _].
  exact (Hvalues (Sample.reader 2)).
Defined.

(** A run of X6: the constant 5 of 32 bits. *)
Lemma constants_are_concrete_witness :
  let v :=
    Dataflow.getValue (Sample.plain 3)
      (dataflow (execute Sample.architecture Sample.operators Sample.five
                   Sample.twoWritesReach)) in
  AbstractValue.isConcrete (Value.abstractValue v) = true
  /\ AbstractValue.value (Value.abstractValue v) = 5 mod 2 ^ 32.
Proof.
  assert (Hconstant : constantOf Sample.five = Some 5) by reflexivity.
  assert (Hsize : 0 <= Term.size (Term.info Sample.five) <= 64)
    by (simpl; lia).
  destruct (constants_are_concrete Sample.architecture Sample.operators
              Sample.five 5 Sample.twoWritesReach Hconstant Hsize)
    as [Hconcrete [_ [_ [Hvalue _]]]].
  split; [exact Hconcrete|exact Hvalue].
Defined.

(** A run of X7: a dereference of the stack pointer, on an empty store. *)
Lemma dereference_by_kind_of_address_witness :
  Dataflow.getMemoryLocation (Sample.reader 7)
    (dataflow (execute Sample.architecture Sample.operators
                 (Term.DEREFERENCE (Sample.reader 7) MEMORY
                    (Term.INTRINSIC (Sample.plain 1) Term.ZERO_STACK_OFFSET))
                 Runs.blank))
  = MemoryLocation.Make STACK 0 32.
Proof.
  assert (Hsize : Term.size (Sample.plain 1) <> 0) by (simpl; lia).
  destruct (dereference_by_kind_of_address Sample.architecture
              Sample.operators (Sample.reader 7) MEMORY (Sample.plain 1)
              Runs.blank Hsize) as [_ [_ [_ Hstack]]].
  exact Hstack.
Defined.

(** A run of X9: the read of the register (term 2) takes the Value of the
    write (term 1). *)
Lemma read_takes_value_of_single_definition_witness :
  Dataflow.getValue (Sample.reader 2)
    (dataflow (execute Sample.architecture Sample.operators
                 Sample.registerRead Runs.oneWriteReaches))
  = Value.Build (AbstractValue.ofSizedValue 32 7) (Value.IsStackOffset 8)
                Value.UnknownProduct.
Proof.
  destruct (read_takes_value_of_single_definition Sample.architecture
              Sample.operators (Sample.reader 2) (Sample.writer 1)
              (REGISTERS 0) 0 Runs.oneWriteReaches) as [Hvalue _].
  - reflexivity.
  - simpl. lia.
  - reflexivity.
  - reflexivity.
  - reflexivity.
  - reflexivity.
  - reflexivity.
  - vm_compute. reflexivity.
  - exact Hvalue.
Defined.

(** A run of X14: with a token that raises at the second poll, the analysis
    of the function of two blocks is over after two passes. *)
Lemma cancellation_stops_at_first_raising_poll_witness :
  exists o,
    analyze Sample.architecture Sample.operators 30 Sample.choiceFunction
      Runs.secondPoll Dataflow.initial = Some o
    /\ niterations o <= 2.
Proof.
  eexists. split; [vm_compute; reflexivity|].
  match goal with
  | |- niterations ?o <= 2 =>
      destruct (cancellation_stops_at_first_raising_poll Sample.architecture
                  Sample.operators Sample.choiceFunction Runs.secondPoll 30
                  Dataflow.initial o 2) as [Hbound _];
        [vm_compute; reflexivity|lia|reflexivity|exact Hbound]
  end.
Defined.

(** A run of X13: a block of constants. *)
Lemma memory_free_function_takes_three_passes_witness :
  exists o,
    analyze Sample.architecture Sample.operators 30 Runs.arithmetic
      Sample.neverCanceled Dataflow.initial = Some o
    /\ exit o = FixpointReached
    /\ niterations o = 3
    /\ outDefinitions (analysis o) = ∅.
Proof.
  apply (memory_free_function_takes_three_passes Sample.architecture
           Sample.operators Runs.arithmetic Sample.neverCanceled
           Dataflow.initial 30).
  - unfold memoryFree. simpl. repeat constructor.
  - lia.
  - intros k Hk. reflexivity.
Defined.

Module Products.

(** Two writes of the register reach a read of it; the first is a product,
    the second is known not to be one. *)
Definition store : Dataflow.t :=
  Dataflow.setValue (Sample.writer 2)
    (Value.Build (AbstractValue.make 32 0 0) Value.UnknownStackOffset
                 Value.NotProduct)
    (Dataflow.setValue (Sample.writer 1)
       (Value.Build (AbstractValue.make 32 0 0) Value.UnknownStackOffset
                    Value.IsProduct)
       Dataflow.initial).

End Products.

(** A run of X12: two writes reach the read, the second is not a product,
    the read is not a product. *)
Lemma mergeReachingValues_product_flag_witness :
  Value.productState
    (Dataflow.getValue (Sample.reader 3)
       (mergeReachingValues Sample.architecture (Sample.reader 3)
          Sample.register Sample.twoWrites Products.store))
  = Value.NotProduct.
Proof.
  destruct (mergeReachingValues_product_flag Sample.architecture
              (Sample.reader 3) Sample.register Sample.twoWrites
              Products.store) as [_ [_ Hlower]].
  destruct (Hlower [Sample.writer 1; Sample.writer 2] eq_refl eq_refl)
    as [Hsome _].
  apply Hsome. exists (Sample.writer 2).
  split; [right; left; reflexivity|reflexivity].
Defined.

(** A run of X16: the choice between a read and a constant is evaluated
    without a warning. *)
Lemma warnings_only_for_unknown_kinds_witness :
  warnings (execute Sample.architecture Sample.operators Sample.choice
              Sample.twoWritesReach)
  = [].
Proof.
  destruct (warnings_only_for_unknown_kinds Sample.architecture
              Sample.operators Sample.choice Sample.twoWritesReach)
    as [_ Hsilent].
  apply Hsilent. reflexivity.
Defined.
